(** * outputRepoRawContent.py: repository content extraction

  A shallow embedding of [src/outputRepoRawContent.py] and the properties
  of its stages: name derivation and clone, structure report, content
  extraction, summary.

  Modelling conventions.
  - A Python [str] is a Rocq [string] holding the UTF-8 encoding of the
    text; [bytes] are strings too.  A name of the file system that is not
    UTF-8 is a [str] with surrogate escapes: the model keeps its bytes,
    [Str.utf8_valid] tells whether a write to a file opened with
    [encoding='utf-8'] can encode it, and [Str.sort_key] gives the order
    of its code points.  The texts that the environment supplies (time
    stamps, formatted numbers) can always be encoded.
  - Path names are POSIX ([os.sep] is the slash) and text files are
    written without newline translation.  Paths are compared as strings:
    two spellings of one file ([a//b] and [a/b], or a path through [..])
    are different keys of the model, so the statements about what a run
    leaves alone speak of repository names other than [.] and [..].
  - [str.lower] lowers the ASCII letters and the two code points whose
    lower-case form holds an ASCII letter (U+0130 and U+212A); the other
    letters outside ASCII are left as they are, which no comparison
    with an ASCII extension can tell apart.
  - A directory tree is given with the order in which [os.scandir] lists
    each directory, so [os.walk] is a function of the tree.  Entries are
    directories and files; links are left out.
  - [datetime.now()] formatted with [%Y-%m-%d %H:%M:%S] is read from a
    clock: the k-th reading of a run is [now env k].
  - [os.path.getsize] and [open(..., 'rb')] can fail on a workspace file
    ([st_size] and [f_bytes] are options).  Whether [open(..., 'w')]
    succeeds on an output path and whether [os.makedirs] succeeds on a
    directory is read from the environment ([can_open], [can_mkdir]); a
    write to an open file fails only when its text cannot be encoded.
    [os.makedirs] creates the missing parents.
  - The log file, which [main] puts in [<output_dir>/logs], is not part
    of the modelled state: statements about what a run leaves alone do
    not speak of the paths below [logs].  [print], [os.chmod] and the
    handling of the temporary directory are taken to succeed and are
    not part of the state either.
  - What the standard library and the outside world decide is read from
    an [environment]: the path of a parsed URL, the result of each clone
    attempt, the tree that a clone leaves, the formatting of floats.
  - Of [main], the search for the configuration file, the reading of
    its URLs and the loop over them are modelled.  The file is read in
    text mode: line ends are translated, and [str.strip()] removes the
    white space of Unicode, here by its UTF-8 bytes. *)

From Stdlib Require Import ZArith Ascii String List Lia.
From stdpp Require Import base gmap strings list pretty sorting.

(** ** Python string primitives *)

Module Str.

(** The line feed, written ["\n"] in the source. *)
Definition nl : string := String "010"%char "".

Definition slash : ascii := "/"%char.
Definition backslash : ascii := "\"%char.
Definition dot : ascii := "."%char.
Definition underscore : ascii := "_"%char.

(** [s.split(sep)] for a one-character separator. *)
Fixpoint split (sep : ascii) (s : string) : list string :=
  match s with
  | EmptyString => [EmptyString]
  | String c s' =>
      if Ascii.eqb c sep then EmptyString :: split sep s'
      else match split sep s' with
           | [] => [String c EmptyString]
           | h :: t => String c h :: t
           end
  end.

(** [sep.join(l)]. *)
Definition join (sep : string) (l : list string) : string :=
  String.concat sep l.

(** [s.count(c)] for a one-character argument. *)
Fixpoint count (c : ascii) (s : string) : nat :=
  match s with
  | EmptyString => 0
  | String a s' => (if Ascii.eqb a c then 1 else 0) + count c s'
  end.

(** [s.replace(old, new)] where both are one character long. *)
Fixpoint replace (old new : ascii) (s : string) : string :=
  match s with
  | EmptyString => EmptyString
  | String a s' => String (if Ascii.eqb a old then new else a) (replace old new s')
  end.

(** [s.endswith(suf)]. *)
Fixpoint endswith (s suf : string) : bool :=
  if String.eqb s suf then true
  else match s with
       | EmptyString => false
       | String _ s' => endswith s' suf
       end.

(** [s.startswith(c)] for a one-character argument. *)
Definition startswith_char (c : ascii) (s : string) : bool :=
  match s with
  | String a _ => Ascii.eqb a c
  | EmptyString => false
  end.

Definition byte_in (lo hi : N) (a : ascii) : bool :=
  let n := N_of_ascii a in ((lo <=? n) && (n <=? hi))%N.

(** Whether every character of [s] is an ASCII character. *)
Fixpoint is_ascii (s : string) : bool :=
  match s with
  | EmptyString => true
  | String a s' => byte_in 0x00 0x7F a && is_ascii s'
  end.

Definition lower_char (a : ascii) : ascii :=
  let n := N_of_ascii a in
  if ((65 <=? n) && (n <=? 90))%N then ascii_of_N (n + 32) else a.

(** [s.lower()] for a text of ASCII characters. *)
Fixpoint lower_ascii (s : string) : string :=
  match s with
  | EmptyString => EmptyString
  | String a s' => String (lower_char a) (lower_ascii s')
  end.

(** [s.lower()].  Beyond ASCII, two code points have a lower-case form
    that holds an ASCII letter: U+0130, the dotted capital I (bytes C4
    B0), becomes [i] followed by U+0307 (bytes CC 87), and U+212A, the
    Kelvin sign (bytes E2 84 AA), becomes [k].  Every other code point
    beyond ASCII has a lower-case form beyond ASCII; it is left as it
    is, which changes no comparison of an extension with the ASCII
    extensions of the source. *)
Fixpoint lower (s : string) : string :=
  match s with
  | EmptyString => EmptyString
  | String a s1 =>
      match s1 with
      | String b s2 =>
          if byte_in 0xC4 0xC4 a && byte_in 0xB0 0xB0 b
          then String "i"%char (String "204"%char (String "135"%char (lower s2)))
          else
            match s2 with
            | String c s3 =>
                if byte_in 0xE2 0xE2 a && byte_in 0x84 0x84 b && byte_in 0xAA 0xAA c
                then String "k"%char (lower s3)
                else String (lower_char a) (lower s1)
            | EmptyString => String (lower_char a) (lower s1)
            end
      | EmptyString => String (lower_char a) EmptyString
      end
  end.

(** [s.rfind(c)] for a one-character argument: the last index of [c],
    or -1. *)
Fixpoint rfind (c : ascii) (s : string) : Z :=
  match s with
  | EmptyString => -1
  | String a s' =>
      let r := rfind c s' in
      if (0 <=? r)%Z then (r + 1)%Z
      else if Ascii.eqb a c then 0%Z else (-1)%Z
  end.

(** [s[i:]] and [s[:i]] for [0 <= i]. *)
Fixpoint drop (i : nat) (s : string) : string :=
  match i, s with
  | O, _ => s
  | S _, EmptyString => EmptyString
  | S i', String _ s' => drop i' s'
  end.

Fixpoint take (i : nat) (s : string) : string :=
  match i, s with
  | O, _ => EmptyString
  | S _, EmptyString => EmptyString
  | S i', String a s' => String a (take i' s')
  end.

(** [s.strip(c)]: remove every leading and trailing [c]. *)
Fixpoint lstrip (c : ascii) (s : string) : string :=
  match s with
  | String a s' => if Ascii.eqb a c then lstrip c s' else s
  | EmptyString => EmptyString
  end.

Fixpoint rstrip (c : ascii) (s : string) : string :=
  match s with
  | EmptyString => EmptyString
  | String a s' =>
      match rstrip c s' with
      | EmptyString => if Ascii.eqb a c then EmptyString else String a EmptyString
      | r => String a r
      end
  end.

Definition strip (c : ascii) (s : string) : string := rstrip c (lstrip c s).

(** [indent * level] for a string and a count. *)
Fixpoint repeat (s : string) (n : nat) : string :=
  match n with
  | O => EmptyString
  | S n' => s +:+ repeat s n'
  end.

(** Whether [bytes.decode('utf-8')] succeeds: the well-formed byte
    sequences of UTF-8 (no overlong forms, no surrogates, nothing above
    U+10FFFF).  The decoded text is represented by the same bytes. *)
Fixpoint utf8_valid (s : string) : bool :=
  match s with
  | EmptyString => true
  | String c0 s1 =>
      if byte_in 0x00 0x7F c0 then utf8_valid s1
      else if byte_in 0xC2 0xDF c0 then
        match s1 with
        | String c1 s2 => byte_in 0x80 0xBF c1 && utf8_valid s2
        | _ => false
        end
      else if byte_in 0xE0 0xEF c0 then
        match s1 with
        | String c1 (String c2 s3) =>
            (if byte_in 0xE0 0xE0 c0 then byte_in 0xA0 0xBF c1
             else if byte_in 0xED 0xED c0 then byte_in 0x80 0x9F c1
             else byte_in 0x80 0xBF c1)
            && byte_in 0x80 0xBF c2 && utf8_valid s3
        | _ => false
        end
      else if byte_in 0xF0 0xF4 c0 then
        match s1 with
        | String c1 (String c2 (String c3 s4)) =>
            (if byte_in 0xF0 0xF0 c0 then byte_in 0x90 0xBF c1
             else if byte_in 0xF4 0xF4 c0 then byte_in 0x80 0x8F c1
             else byte_in 0x80 0xBF c1)
            && byte_in 0x80 0xBF c2 && byte_in 0x80 0xBF c3 && utf8_valid s4
        | _ => false
        end
      else false
  end.

(** The texts of successive [f.write] calls that reach a file opened
    with [encoding='utf-8'].  A [str] that holds a byte which is not
    UTF-8 (a name of the file system decoded with surrogate escapes)
    cannot be encoded: its write raises, and neither it nor a later text
    is written. *)
Fixpoint encodable (texts : list string) : list string :=
  match texts with
  | [] => []
  | text :: texts' =>
      if utf8_valid text then text :: encodable texts' else []
  end.

(** A byte that does not decode stands in the [str] for the lone
    surrogate U+DC00 + byte; [escape] puts the three bytes that encode
    that code point before [rest]. *)
Definition escape (c : ascii) (rest : string) : string :=
  String "237"
    (String (ascii_of_N (0xB0 + N_of_ascii c / 64))
       (String (ascii_of_N (0x80 + N_of_ascii c mod 64)) rest)).

(** The key by which two names compare as Python compares the [str]
    values, by code point: the bytes of the name, with each byte that is
    not part of a well-formed UTF-8 sequence replaced by its escape.  On
    keys, byte order is code point order. *)
Fixpoint sort_key (s : string) : string :=
  match s with
  | EmptyString => EmptyString
  | String c0 s1 =>
      if byte_in 0x00 0x7F c0 then String c0 (sort_key s1)
      else if byte_in 0xC2 0xDF c0 then
        match s1 with
        | String c1 s2 =>
            if byte_in 0x80 0xBF c1
            then String c0 (String c1 (sort_key s2))
            else escape c0 (sort_key s1)
        | _ => escape c0 (sort_key s1)
        end
      else if byte_in 0xE0 0xEF c0 then
        match s1 with
        | String c1 (String c2 s3) =>
            if (if byte_in 0xE0 0xE0 c0 then byte_in 0xA0 0xBF c1
                else if byte_in 0xED 0xED c0 then byte_in 0x80 0x9F c1
                else byte_in 0x80 0xBF c1)
               && byte_in 0x80 0xBF c2
            then String c0 (String c1 (String c2 (sort_key s3)))
            else escape c0 (sort_key s1)
        | _ => escape c0 (sort_key s1)
        end
      else if byte_in 0xF0 0xF4 c0 then
        match s1 with
        | String c1 (String c2 (String c3 s4)) =>
            if (if byte_in 0xF0 0xF0 c0 then byte_in 0x90 0xBF c1
                else if byte_in 0xF4 0xF4 c0 then byte_in 0x80 0x8F c1
                else byte_in 0x80 0xBF c1)
               && byte_in 0x80 0xBF c2 && byte_in 0x80 0xBF c3
            then String c0 (String c1 (String c2 (String c3 (sort_key s4))))
            else escape c0 (sort_key s1)
        | _ => escape c0 (sort_key s1)
        end
      else escape c0 (sort_key s1)
  end.

(** [a <= b] on [str] values. *)
Definition leb (a b : string) : bool := String.leb (sort_key a) (sort_key b).

(** [sorted(l)] on strings: insertion into a sorted list, by [leb]. *)
Fixpoint insert_sorted (x : string) (l : list string) : list string :=
  match l with
  | [] => [x]
  | y :: l' => if leb x y then x :: l else y :: insert_sorted x l'
  end.

Definition sorted (l : list string) : list string :=
  foldr insert_sorted [] l.

End Str.

(** ** [os.path] *)

Module OsPath.

(** [posixpath.join(a, b)]. *)
Definition join (a b : string) : string :=
  if Str.startswith_char Str.slash b then b
  else if String.eqb a "" || Str.endswith a "/" then a +:+ b
  else a +:+ "/" +:+ b.

(** [posixpath.basename(p)]: what follows the last slash. *)
Definition basename (p : string) : string :=
  Str.drop (Z.to_nat (Str.rfind Str.slash p + 1)) p.

(** [posixpath.split(p)]: the tail is what follows the last slash; the
    head is what precedes it, without its trailing slashes unless it
    consists of slashes. *)
Definition split (p : string) : string * string :=
  let i := Z.to_nat (Str.rfind Str.slash p + 1) in
  let head := Str.take i p in
  let tail := Str.drop i p in
  (if negb (String.eqb head "")
      && negb (String.eqb head (Str.repeat "/" (String.length head)))
   then Str.rstrip Str.slash head else head,
   tail).

(** [posixpath.splitext(p)]: the extension starts at the last dot,
    unless that dot is in a directory part or only dots precede it in
    the base name. *)
Definition splitext (p : string) : string * string :=
  let sepIndex := Str.rfind Str.slash p in
  let dotIndex := Str.rfind Str.dot p in
  if (sepIndex <? dotIndex)%Z then
    let filenameIndex := Z.to_nat (sepIndex + 1) in
    let leading := Str.take (Z.to_nat dotIndex - filenameIndex) (Str.drop filenameIndex p) in
    if String.eqb leading (Str.repeat "." (String.length leading))
    then (p, "")
    else (Str.take (Z.to_nat dotIndex) p, Str.drop (Z.to_nat dotIndex) p)
  else (p, "").

End OsPath.

(** ** The workspace tree and [os.walk] *)

(** A non-directory entry: its name, what [os.path.getsize] returns
    ([None]: it raises) and what [open(path, 'rb').read()] returns
    ([None]: it raises).  The size is kept apart from the bytes, so that
    a large file is described without writing its content out. *)
Record file := mk_file {
  f_name : string;
  st_size : option Z;
  f_bytes : option string;
}.

#[local] Unset Elimination Schemes.

(** A directory entry, in the order [os.scandir] lists it.  The induction
    principle that goes through the children is [node_ind] below. *)
Inductive node :=
| File (f : file)
| Dir (name : string) (children : list node).

#[local] Set Elimination Schemes.

Definition node_name (n : node) : string :=
  match n with
  | File f => f_name f
  | Dir d _ => d
  end.

Definition dirnames (entries : list node) : list string :=
  flat_map (fun n => match n with Dir d _ => [d] | File _ => [] end) entries.

Definition nondirs (entries : list node) : list file :=
  flat_map (fun n => match n with File f => [f] | Dir _ _ => [] end) entries.

(** One triple yielded by [os.walk]: the [root] string, the names of its
    sub-directories and its files.  [w_rel] is the list of directory names
    leading from the top to [root]; it stands for
    [os.path.relpath(root, top)]. *)
Record walk_item := mk_item {
  w_root : string;
  w_rel : list string;
  w_dirs : list string;
  w_files : list file;
}.

Fixpoint walk_node (top : string) (rel : list string) (n : node) {struct n}
  : list walk_item :=
  match n with
  | File _ => []
  | Dir d children =>
      let top' := OsPath.join top d in
      let rel' := rel ++ [d] in
      mk_item top' rel' (dirnames children) (nondirs children)
        :: flat_map (walk_node top' rel') children
  end.

(** [os.walk(top)], top-down: a directory is yielded before its
    sub-directories, which are walked in listing order. *)
Definition os_walk (top : string) (entries : list node) : list walk_item :=
  mk_item top [] (dirnames entries) (nondirs entries)
    :: flat_map (walk_node top []) entries.

(** [os.path.relpath(p, top)] for a path [p] reached from [top] through the
    entries [rel]. *)
Definition relpath (rel : list string) : string :=
  match rel with
  | [] => "."
  | _ => Str.join "/" rel
  end.

(** ** The environment and the state of a run *)

Inductive strategy :=
| GitExe (git_path : string)
| Wsl.

Record environment := mk_env {
  (** the k-th reading of [datetime.now().strftime('%Y-%m-%d %H:%M:%S')] *)
  now : nat -> string;
  (** [urllib.parse.urlparse(url).path], for the URLs that it parses *)
  urlparse_path : string -> string;
  (** [subprocess.run] of one clone attempt on a URL and a target
      directory: the return code, or [None] when it raises (a timeout,
      a missing program) *)
  subprocess_run : strategy -> string -> string -> option Z;
  (** the directory returned by [tempfile.mkdtemp()] *)
  mkdtemp : string;
  (** the tree found in the temporary directory after a clone of the URL *)
  cloned_tree : string -> list node;
  (** [(end - start).total_seconds()] between two clock readings, and a
      size in bytes divided by 1024 twice, both formatted with [.2f] *)
  fmt_seconds : nat -> nat -> string;
  fmt_mib : Z -> string;
  (** whether [open(path, 'w', encoding='utf-8')] succeeds; it raises
      where the name is too long for the file system, where a directory
      stands at the path, where permission is denied *)
  can_open : string -> bool;
  (** whether [os.makedirs(path, exist_ok=True)] returns; it raises
      where a file stands at the path or at one of its ancestors, where
      permission is denied, and then makes nothing *)
  can_mkdir : string -> bool;
}.

(** The output tree (the directories made and the text files written,
    by their paths; the log file is not part of it), and the number of
    clock readings taken so far. *)
Record world := mk_world {
  fs_dirs : gset string;
  fs_files : gmap string string;
  clock : nat;
}.

Definition tick (w : world) : world :=
  mk_world (fs_dirs w) (fs_files w) (S (clock w)).

(** [with open(path, 'w', encoding='utf-8') as f: f.write(text)], for a
    path that opens and a text that can be encoded. *)
Definition write_file (path text : string) (w : world) : world :=
  mk_world (fs_dirs w) (<[path := text]> (fs_files w)) (clock w).

(** The first lines of [os.makedirs]: the head and the tail of the
    path, split once more when the tail is empty. *)
Definition makedirs_step (name : string) : string * string :=
  let (head, tail) := OsPath.split name in
  if String.eqb tail "" then OsPath.split head else (head, tail).

(** The recursion of [os.makedirs(name, exist_ok=True)] on the set of
    the directories that exist: a missing parent is made first (and its
    missing parent before it), then [name] itself, unless its last
    component is [.].  Each call is on a shorter path; [fuel] bounds the
    depth. *)
Fixpoint makedirs_rec (fuel : nat) (name : string) (dirs : gset string)
  : gset string :=
  let (head, tail) := makedirs_step name in
  if negb (String.eqb head "") && negb (String.eqb tail "")
     && negb (bool_decide (head ∈ dirs))
  then
    match fuel with
    | O => dirs
    | S fuel' =>
        let dirs := makedirs_rec fuel' head dirs in
        if String.eqb tail "." then dirs else {[name]} ∪ dirs
    end
  else {[name]} ∪ dirs.

(** [os.makedirs(path, exist_ok=True)] when it returns; the callers in
    [process_repository] ask [can_mkdir] first. *)
Definition makedirs (path : string) (w : world) : world :=
  mk_world (makedirs_rec (String.length path) path (fs_dirs w))
           (fs_files w) (clock w).

(** ** [generate_file_structure] *)

(** The texts that the body of the loop writes for one triple of the
    walk, one [f.write] each: the line of the directory, then a line for
    each of its files. *)
Definition entry_lines (it : walk_item) : list string :=
  let rel_path := relpath (w_rel it) in
  let level :=
    if String.eqb rel_path "." then 0
    else Str.count Str.slash rel_path + 1 in
  let indent := Str.repeat "  " level in
  let sub_indent := Str.repeat "  " (level + 1) in
  (if String.eqb rel_path "." then []
   else [indent +:+ OsPath.basename (w_root it) +:+ "/" +:+ Str.nl])
  ++ map (fun file => sub_indent +:+ file +:+ Str.nl)
         (Str.sorted (map f_name (w_files it))).

(** What these writes put into the file when each can be encoded. *)
Definition structure_entry (it : walk_item) : string :=
  String.concat "" (entry_lines it).

Definition structure_title : string := "仓库文件目录结构" +:+ Str.nl.

Definition structure_stamp (time : string) : string :=
  "生成时间: " +:+ time +:+ Str.nl +:+ Str.nl.

(** The writes of the loop over [os.walk(repo_dir)], in order. *)
Definition structure_lines (repo_dir : string) (tree : list node)
  : list string :=
  flat_map entry_lines (os_walk repo_dir tree).

(** What the loop over [os.walk(repo_dir)] puts into the file: its
    writes up to the first line that cannot be encoded. *)
Definition structure_listing (repo_dir : string) (tree : list node) : string :=
  String.concat "" (Str.encodable (structure_lines repo_dir tree)).

(** Whether every line can be encoded, so that the function returns;
    otherwise it raises [UnicodeEncodeError] and leaves the file with
    what was written before. *)
Definition structure_complete (repo_dir : string) (tree : list node) : bool :=
  forallb Str.utf8_valid (structure_lines repo_dir tree).

(** The state after [generate_file_structure(repo_dir, output_file)],
    whether it returns or raises while writing, for an output file that
    opens; the caller in [process_repository] asks [can_open] first. *)
Definition generate_file_structure (env : environment)
    (repo_dir : string) (tree : list node) (output_file : string)
    (w : world) : world :=
  let time := now env (clock w) in
  let text :=
    structure_title +:+ structure_stamp time
    +:+ structure_listing repo_dir tree in
  write_file output_file text (tick w).

(** ** [extract_code_files] *)

Definition binary_extensions : list string :=
  [ ".png"; ".jpg"; ".jpeg"; ".gif"; ".bmp"; ".tiff"; ".ico"; ".svg"; ".webp";
    ".mp3"; ".mp4"; ".wav"; ".avi"; ".mov"; ".mkv"; ".flv"; ".ogg";
    ".pdf"; ".ppt"; ".pptx"; ".xls"; ".xlsx";
    ".zip"; ".rar"; ".7z"; ".tar"; ".gz"; ".bz2";
    ".exe"; ".dll"; ".so"; ".dylib"; ".class"; ".pyc"; ".pyo";
    ".obj"; ".o"; ".a"; ".lib"; ".jar"; ".whl"; ".egg";
    ".db"; ".sqlite"; ".sqlite3"; ".mdb"; ".dat"; ".bin";
    ".ttf"; ".otf"; ".woff"; ".woff2"; ".eot" ].

Definition git_related_files : list string :=
  [ ".gitignore"; ".gitattributes"; ".gitmodules";
    ".github_ISSUE_TEMPLATE_bug_report.md"; "CODEOWNERS"; ".mailmap" ].

(** The local variables of [extract_code_files] that the loop updates,
    and the world it writes to. *)
Record extract_state := mk_state {
  skipped_files : list (string * Z);
  processed_files : list string;
  skipped_by_extension : Z;
  skipped_by_size : Z;
  skipped_by_decode_error : Z;
  skipped_git_files : Z;
  x_world : world;
}.

Definition initial_state (w : world) : extract_state :=
  mk_state [] [] 0 0 0 0 w.

(** [skipped_files.append((rel_path, 0)); skipped_git_files += 1] *)
Definition skip_git (rel_path : string) (st : extract_state) : extract_state :=
  mk_state (skipped_files st ++ [(rel_path, 0%Z)]) (processed_files st)
    (skipped_by_extension st) (skipped_by_size st)
    (skipped_by_decode_error st) (skipped_git_files st + 1) (x_world st).

(** [skipped_files.append((rel_path, 0)); skipped_by_extension += 1] *)
Definition skip_extension (rel_path : string) (st : extract_state) : extract_state :=
  mk_state (skipped_files st ++ [(rel_path, 0%Z)]) (processed_files st)
    (skipped_by_extension st + 1) (skipped_by_size st)
    (skipped_by_decode_error st) (skipped_git_files st) (x_world st).

(** [skipped_files.append((rel_path, file_size)); skipped_by_size += 1] *)
Definition skip_size (rel_path : string) (file_size : Z) (st : extract_state)
  : extract_state :=
  mk_state (skipped_files st ++ [(rel_path, file_size)]) (processed_files st)
    (skipped_by_extension st) (skipped_by_size st + 1)
    (skipped_by_decode_error st) (skipped_git_files st) (x_world st).

(** [skipped_files.append((rel_path, 0))] when [os.path.getsize] raises:
    no counter is updated. *)
Definition skip_size_error (rel_path : string) (st : extract_state) : extract_state :=
  mk_state (skipped_files st ++ [(rel_path, 0%Z)]) (processed_files st)
    (skipped_by_extension st) (skipped_by_size st)
    (skipped_by_decode_error st) (skipped_git_files st) (x_world st).

(** [skipped_files.append((rel_path, file_size)); skipped_by_decode_error += 1] *)
Definition skip_decode (rel_path : string) (file_size : Z) (st : extract_state)
  : extract_state :=
  mk_state (skipped_files st ++ [(rel_path, file_size)]) (processed_files st)
    (skipped_by_extension st) (skipped_by_size st)
    (skipped_by_decode_error st + 1) (skipped_git_files st) (x_world st).

(** The two header writes that precede the content of an output file. *)
Definition header (rel_path time : string) : string :=
  "// 文件路径: " +:+ rel_path +:+ Str.nl
  +:+ "// 提取时间: " +:+ time +:+ Str.nl +:+ Str.nl.

(** The processed branch when the output file opens and the path can
    be encoded: the output file is written (header, then the decoded
    text) and [rel_path] is appended to [processed_files]. *)
Definition emit (env : environment) (output_file rel_path content_str : string)
    (st : extract_state) : extract_state :=
  let w := x_world st in
  let time := now env (clock w) in
  mk_state (skipped_files st) (processed_files st ++ [rel_path])
    (skipped_by_extension st) (skipped_by_size st)
    (skipped_by_decode_error st) (skipped_git_files st)
    (write_file output_file (header rel_path time +:+ content_str) (tick w)).

(** The processed branch when the output file opens and the path
    cannot be encoded: the write of the line that names the path raises,
    the file, created or truncated by [open], stays empty, and the
    handler at the end of the loop body only logs. *)
Definition emit_nothing (output_file : string) (st : extract_state)
  : extract_state :=
  mk_state (skipped_files st) (processed_files st)
    (skipped_by_extension st) (skipped_by_size st)
    (skipped_by_decode_error st) (skipped_git_files st)
    (write_file output_file "" (x_world st)).

(** [rel_path.replace('/', '_').replace('\\', '_')] *)
Definition safe_name (rel_path : string) : string :=
  Str.replace Str.backslash Str.underscore
    (Str.replace Str.slash Str.underscore rel_path).

(** ['.git' in file_path.split(os.sep)], for any component name. *)
Definition has_component (name path : string) : bool :=
  bool_decide (name ∈ Str.split Str.slash path).

(** [file in git_related_files or
     any(rel_path.endswith(git_file) for git_file in git_related_files)] *)
Definition is_git_related (file rel_path : string) : bool :=
  bool_decide (file ∈ git_related_files)
  || existsb (Str.endswith rel_path) git_related_files.

(** [_, file_ext = os.path.splitext(file.lower())] *)
Definition file_extension (file : string) : string :=
  snd (OsPath.splitext (Str.lower file)).

(** [os.path.relpath(file_path, repo_dir)] for the file named [file] of the
    directory reached through [rel]. *)
Definition rel_path_of (rel : list string) (file : string) : string :=
  relpath (rel ++ [file]).

(** The body of the inner loop, for the file [f] of the directory yielded
    as [root] (reached from the top through [rel]).  An exception in the
    last [try] block (the source file cannot be opened or read, the
    output file cannot be opened, the path cannot be encoded) is caught
    by its handler, which only logs. *)
Definition extract_file (env : environment) (output_dir : string)
    (max_size_bytes : Z) (root : string) (rel : list string) (f : file)
    (st : extract_state) : extract_state :=
  let file := f_name f in
  let file_path := OsPath.join root file in
  if has_component ".git" file_path then st
  else
    let rel_path := rel_path_of rel file in
    if is_git_related file rel_path then skip_git rel_path st
    else if has_component ".github" file_path then skip_git rel_path st
    else if bool_decide (file_extension file ∈ binary_extensions)
    then skip_extension rel_path st
    else
      match st_size f with
      | None => skip_size_error rel_path st
      | Some file_size =>
          if (file_size >? max_size_bytes)%Z
          then skip_size rel_path file_size st
          else
            let output_file := OsPath.join output_dir (safe_name rel_path) in
            match f_bytes f with
            | None => st
            | Some content =>
                if Str.utf8_valid content then
                  if can_open env output_file then
                    if Str.utf8_valid rel_path
                    then emit env output_file rel_path content st
                    else emit_nothing output_file st
                  else st
                else skip_decode rel_path file_size st
            end
      end.

(** The files of one triple, in order. *)
Definition extract_item (env : environment) (output_dir : string)
    (max_size_bytes : Z) (st : extract_state) (it : walk_item) : extract_state :=
  fold_left (fun s f => extract_file env output_dir max_size_bytes
                          (w_root it) (w_rel it) f s)
            (w_files it) st.

(** [extract_code_files(repo_dir, output_dir, max_size_mb)] on the tree
    found at [repo_dir], when it returns: [os.makedirs] at its start is
    outside any handler.  The source returns [processed_files],
    [skipped_files] and [skipped_git_files]; the final state holds them. *)
Definition extract_code_files (env : environment) (repo_dir : string)
    (tree : list node) (output_dir : string) (max_size_mb : Z) (w : world)
  : extract_state :=
  let w := makedirs output_dir w in
  let max_size_bytes := (max_size_mb * 1024 * 1024)%Z in
  fold_left (extract_item env output_dir max_size_bytes)
            (os_walk repo_dir tree) (initial_state w).

(** ** [get_repo_name_from_url] and [clone_repository] *)

(** [None] is Python's [None]; the empty name is returned as such. *)
Definition get_repo_name_from_url (env : environment) (repo_url : string)
  : option string :=
  let path_parts :=
    Str.split Str.slash (Str.strip Str.slash (urlparse_path env repo_url)) in
  if length path_parts <? 2 then None
  else
    let repo_name := nth 1 path_parts "" in
    Some (if Str.endswith repo_name ".git"
          then Str.take (String.length repo_name - 4) repo_name
          else repo_name).

Definition git_paths : list string :=
  [ "C:\Program Files\Git\bin\git.exe";
    "C:\Program Files (x86)\Git\bin\git.exe";
    "git" ].

(** One attempt succeeds when [subprocess.run] returns with code 0; a
    non-zero code or an exception moves on to the next attempt. *)
Definition attempt (env : environment) (s : strategy)
    (repo_url target_dir : string) : bool :=
  match subprocess_run env s repo_url target_dir with
  | Some 0%Z => true
  | _ => false
  end.

(** The three git programs in order, then WSL.  In the WSL attempt
    [wsl_path[1]] raises on a target of fewer than two characters, which
    the attempt's handler catches. *)
Definition clone_repository (env : environment) (repo_url target_dir : string)
  : bool :=
  if existsb (fun git_path => attempt env (GitExe git_path) repo_url target_dir)
             git_paths
  then true
  else if String.length target_dir <? 2 then false
  else attempt env Wsl repo_url target_dir.

(** ** [process_repository] *)

(** What the three writes put into the failure record: the second one
    raises when the URL cannot be encoded. *)
Definition failure_text (time repo_url : string) : string :=
  "克隆失败时间: " +:+ time +:+ Str.nl
  +:+ (if Str.utf8_valid repo_url
       then "仓库URL: " +:+ repo_url +:+ Str.nl +:+ Str.nl
            +:+ "错误信息: 所有克隆方法都失败" +:+ Str.nl
       else "").

(** The four numbers of the summary's breakdown, as the summary computes
    them from the skipped records and the returned git count. *)
Record breakdown := mk_breakdown {
  b_git : Z;
  b_extension : Z;
  b_size : Z;
  b_others : Z;
}.

Definition count_if {A} (p : A -> bool) (l : list A) : Z :=
  Z.of_nat (length (filter (fun x => p x = true) l)).

Definition summary_breakdown (skipped : list (string * Z)) (git_files : Z)
    (max_size_mb : Z) : breakdown :=
  let skipped_by_extension := count_if (fun r => (snd r =? 0)%Z) skipped in
  let skipped_by_size :=
    count_if (fun r => (snd r >? max_size_mb * 1024 * 1024)%Z) skipped in
  let skipped_others :=
    (Z.of_nat (length skipped) - skipped_by_extension - skipped_by_size
     - git_files)%Z in
  mk_breakdown git_files skipped_by_extension skipped_by_size skipped_others.

Definition large_files (skipped : list (string * Z)) (max_size_mb : Z)
  : list (string * Z) :=
  filter (fun r => (snd r >? max_size_mb * 1024 * 1024)%Z = true) skipped.

(** The large files whose line is written: those before the first one
    whose path cannot be encoded. *)
Fixpoint listed_large (large : list (string * Z)) : list (string * Z) :=
  match large with
  | [] => []
  | r :: large' =>
      if Str.utf8_valid (fst r) then r :: listed_large large' else []
  end.

(** What the writes put into the summary: the write of a line that
    names the repository, the URL or a path raises when that name
    cannot be encoded, which ends the writing. *)
Definition summary_text (env : environment) (repo_name repo_url : string)
    (start_time end_time : nat) (processed : list string)
    (skipped : list (string * Z)) (git_files max_size_mb : Z) : string :=
  let b := summary_breakdown skipped git_files max_size_mb in
  let large := large_files skipped max_size_mb in
  if negb (Str.utf8_valid repo_name) then ""
  else
  "仓库处理摘要: " +:+ repo_name +:+ Str.nl
  +:+
  if negb (Str.utf8_valid repo_url) then ""
  else
  "源 URL: " +:+ repo_url +:+ Str.nl
  +:+ "开始时间: " +:+ now env start_time +:+ Str.nl
  +:+ "完成时间: " +:+ now env end_time +:+ Str.nl
  +:+ "处理时长: " +:+ fmt_seconds env start_time end_time +:+ " 秒" +:+ Str.nl +:+ Str.nl
  +:+ "已处理文件数: " +:+ pretty (length processed) +:+ Str.nl
  +:+ "跳过的文件总数: " +:+ pretty (length skipped) +:+ Str.nl +:+ Str.nl
  +:+ "跳过文件详情:" +:+ Str.nl
  +:+ "  Git相关文件: " +:+ pretty (b_git b) +:+ "个" +:+ Str.nl
  +:+ "  基于文件扩展名: " +:+ pretty (b_extension b) +:+ "个" +:+ Str.nl
  +:+ "  文件过大 (>" +:+ pretty max_size_mb +:+ "MB): " +:+ pretty (b_size b) +:+ "个" +:+ Str.nl
  +:+ "  解码错误或其他原因: " +:+ pretty (b_others b) +:+ "个" +:+ Str.nl +:+ Str.nl
  +:+ (match large with
       | [] => ""
       | _ =>
           "跳过的大文件 (>" +:+ pretty max_size_mb +:+ "MB):" +:+ Str.nl
           +:+ String.concat ""
                 (map (fun r => "  " +:+ fst r +:+ ": " +:+ fmt_mib env (snd r)
                                +:+ " MB" +:+ Str.nl)
                      (listed_large large))
       end).

(** The run for one repository.  An exception in the body (a directory
    that cannot be made, an output file that cannot be opened, a
    structure report that cannot be encoded) is caught by the handler at
    the end, which only logs: the run ends with the output tree as it is
    then.  The cleanup of the
    temporary directory does not touch the output tree. *)
Definition process_repository (env : environment)
    (repo_url output_base_dir : string) (w : world) : world :=
  let start_time := clock w in
  let w := tick w in
  let temp_dir := mkdtemp env in
  match get_repo_name_from_url env repo_url with
  | None => w
  | Some repo_name =>
      if String.eqb repo_name "" then w
      else
        let repo_output_dir := OsPath.join output_base_dir repo_name in
        if negb (can_mkdir env repo_output_dir) then w
        else
        let w := makedirs repo_output_dir w in
        if negb (clone_repository env repo_url temp_dir) then
          let failure_file :=
            OsPath.join repo_output_dir (repo_name +:+ "_clone_failed.txt") in
          if negb (can_open env failure_file) then w
          else
            write_file failure_file
              (failure_text (now env (clock w)) repo_url) (tick w)
        else
          let tree := cloned_tree env repo_url in
          let structure_file :=
            OsPath.join repo_output_dir (repo_name +:+ "_file_structure.txt") in
          if negb (can_open env structure_file) then w
          else
          let w := generate_file_structure env temp_dir tree structure_file w in
          if negb (structure_complete temp_dir tree) then w
          else
          let general_file :=
            OsPath.join repo_output_dir (repo_name +:+ "_general_summary.txt") in
          if negb (can_open env general_file) then w
          else
          let w := write_file general_file "" w in
          let max_size_mb := 15%Z in
          let code_output_dir := OsPath.join repo_output_dir "code_files" in
          if negb (can_mkdir env code_output_dir) then w
          else
          let st :=
            extract_code_files env temp_dir tree code_output_dir max_size_mb w in
          let w := x_world st in
          let end_time := clock w in
          let w := tick w in
          let summary_file :=
            OsPath.join repo_output_dir (repo_name +:+ "_processing_summary.txt") in
          if negb (can_open env summary_file) then w
          else
            write_file summary_file
              (summary_text env repo_name repo_url start_time end_time
                 (processed_files st) (skipped_files st) (skipped_git_files st)
                 max_size_mb)
              w
  end.

(** ** Definitions used in the statements and proofs *)

(** *** Files of a tree and visits of the walk *)

(** The files of a tree: [in_tree rel f tree] when [f] is a file of the
    directory reached from the top through the directory names [rel]. *)
Inductive in_tree : list string -> file -> list node -> Prop :=
| in_tree_here f tree :
    File f ∈ tree -> in_tree [] f tree
| in_tree_below d children rel f tree :
    Dir d children ∈ tree -> in_tree rel f children -> in_tree (d :: rel) f tree.

(** The visits of one triple of the walk: the [root] string, the names
    from the top to it, and a file of that directory. *)
Definition visit (it : walk_item) : list (string * list string * file) :=
  map (fun f => (w_root it, w_rel it, f)) (w_files it).

(** The visits in the order in which the nested loops make them. *)
Definition walk_files (top : string) (tree : list node)
  : list (string * list string * file) :=
  flat_map visit (os_walk top tree).

(** The visits of the files listed in a directory, and of the files below
    one of its sub-directories. *)
Definition file_visit (top : string) (rel : list string) (n : node)
  : list (string * list string * file) :=
  match n with
  | File f => [(top, rel, f)]
  | Dir _ _ => []
  end.

Definition node_visits (top : string) (rel : list string) (n : node)
  : list (string * list string * file) :=
  flat_map visit (walk_node top rel n).

(** The components of the relative path of a visited file, and that
    path. *)
Definition components (v : string * list string * file) : list string :=
  v.1.2 ++ [f_name v.2].

Definition visit_path (v : string * list string * file) : string :=
  rel_path_of v.1.2 (f_name v.2).

(** What precedes the base name in a relative path. *)
Fixpoint dir_prefix (rel : list string) : string :=
  match rel with
  | [] => ""
  | d :: rel' => d +:+ "/" +:+ dir_prefix rel'
  end.

(** *** Well-formed trees *)

Definition slash_free (s : string) : Prop := Str.count Str.slash s = 0.

(** A name that a directory entry can bear: not empty and without a
    slash. *)
Definition name_ok (s : string) : bool :=
  negb (String.eqb s "") && Nat.eqb (Str.count Str.slash s) 0.

(** Entries have proper names and the names listed in one directory are
    distinct. *)
Fixpoint wf_node (n : node) : bool :=
  name_ok (node_name n)
  && match n with
     | File _ => true
     | Dir _ children =>
         bool_decide (NoDup (map node_name children)) && forallb wf_node children
     end.

Definition wf_tree (tree : list node) : bool :=
  bool_decide (NoDup (map node_name tree)) && forallb wf_node tree.

(** The [root] string of a directory of the walk is the top joined with
    the names leading to it: its components are those of the top and
    those names. *)
Definition linked (top root : string) (rel : list string) : Prop :=
  ∀ x, x ≠ "" → x ∈ Str.split Str.slash root ↔ x ∈ Str.split Str.slash top ∨ x ∈ rel.

(** *** The loop body as a decision and its effect *)

(** The branch of the loop body that a file takes.  It depends on the
    file, on where it lies and on whether its output file opens, not on
    the state.  The last two are the exceptions of the write block:
    [OpenError] when the output file does not open, [HeaderError] when
    it opens and the path cannot be encoded. *)
Inductive decision :=
| Ignored
| GitMetadata
| ExtensionFiltered
| SizeError
| Oversized (file_size : Z)
| ReadError
| Processed (content : string)
| DecodeFailure (file_size : Z)
| OpenError
| HeaderError.

Definition decide_file (env : environment) (output_dir : string)
    (max_size_bytes : Z) (root : string)
    (rel : list string) (f : file) : decision :=
  let file := f_name f in
  let file_path := OsPath.join root file in
  if has_component ".git" file_path then Ignored
  else if is_git_related file (rel_path_of rel file) then GitMetadata
  else if has_component ".github" file_path then GitMetadata
  else if bool_decide (file_extension file ∈ binary_extensions)
  then ExtensionFiltered
  else
    match st_size f with
    | None => SizeError
    | Some file_size =>
        if (file_size >? max_size_bytes)%Z then Oversized file_size
        else
          match f_bytes f with
          | None => ReadError
          | Some content =>
              if Str.utf8_valid content then
                if can_open env
                     (OsPath.join output_dir (safe_name (rel_path_of rel file)))
                then
                  if Str.utf8_valid (rel_path_of rel file)
                  then Processed content
                  else HeaderError
                else OpenError
              else DecodeFailure file_size
          end
    end.

(** The effect of each branch on the state. *)
Definition perform (env : environment) (output_dir rel_path : string)
    (d : decision) (st : extract_state) : extract_state :=
  match d with
  | Ignored | ReadError | OpenError => st
  | HeaderError =>
      emit_nothing (OsPath.join output_dir (safe_name rel_path)) st
  | GitMetadata => skip_git rel_path st
  | ExtensionFiltered => skip_extension rel_path st
  | SizeError => skip_size_error rel_path st
  | Oversized file_size => skip_size rel_path file_size st
  | Processed content =>
      emit env (OsPath.join output_dir (safe_name rel_path)) rel_path content st
  | DecodeFailure file_size => skip_decode rel_path file_size st
  end.

(** What a branch appends to [processed_files] and to [skipped_files],
    and whether it appends to either. *)
Definition processed_of (rel_path : string) (d : decision) : list string :=
  match d with
  | Processed _ => [rel_path]
  | _ => []
  end.

Definition skipped_of (rel_path : string) (d : decision) : list (string * Z) :=
  match d with
  | GitMetadata | ExtensionFiltered | SizeError => [(rel_path, 0%Z)]
  | Oversized file_size | DecodeFailure file_size => [(rel_path, file_size)]
  | Ignored | ReadError | Processed _ | OpenError | HeaderError => []
  end.

Definition recorded (d : decision) : bool :=
  match d with
  | Ignored | ReadError | OpenError | HeaderError => false
  | _ => true
  end.

(** The branches that update a counter. *)
Definition is_git (d : decision) : bool :=
  match d with GitMetadata => true | _ => false end.
Definition is_extension (d : decision) : bool :=
  match d with ExtensionFiltered => true | _ => false end.
Definition is_oversized (d : decision) : bool :=
  match d with Oversized _ => true | _ => false end.
Definition is_decode_failure (d : decision) : bool :=
  match d with DecodeFailure _ => true | _ => false end.

Definition visit_decision (env : environment) (output_dir : string)
    (max_size_bytes : Z) (v : string * list string * file) : decision :=
  decide_file env output_dir max_size_bytes v.1.1 v.1.2 v.2.

Definition extract_visit (env : environment) (output_dir : string)
    (max_size_bytes : Z) (st : extract_state)
    (v : string * list string * file) : extract_state :=
  extract_file env output_dir max_size_bytes v.1.1 v.1.2 v.2 st.

(** *** Names and paths of a repository run *)

(** The segments of the URL's path, as [get_repo_name_from_url] splits
    it. *)
Definition url_segments (env : environment) (repo_url : string) : list string :=
  Str.split Str.slash (Str.strip Str.slash (urlparse_path env repo_url)).

(** A segment with a trailing [.git] stripped. *)
Definition strip_git_suffix (segment : string) : string :=
  if Str.endswith segment ".git"
  then Str.take (String.length segment - 4) segment
  else segment.

(** The per-repository output directory and the failure record in it. *)
Definition repo_output_dir (output_base_dir repo_name : string) : string :=
  OsPath.join output_base_dir repo_name.

Definition failure_file (output_base_dir repo_name : string) : string :=
  OsPath.join (repo_output_dir output_base_dir repo_name)
              (repo_name +:+ "_clone_failed.txt").


(** ** Sample environments and workspaces *)

(** The URLs of the examples start with [https://github.com], 18
    characters that the path leaves out.  In [sample_env] every clone
    attempt fails; in [gitignore_env] the first one succeeds and leaves a
    work tree that holds only [.gitignore]. *)
Definition sample_env : environment :=
  mk_env (fun k => "2024-05-01 10:00:0" +:+ pretty k)
         (fun url => Str.drop 18 url)
         (fun _ _ _ => Some 1%Z)
         "/tmp/tmpabc"
         (fun _ => [])
         (fun _ _ => "0.00")
         (fun _ => "0.00")
         (fun _ => true)
         (fun _ => true).

Definition gitignore : file := mk_file ".gitignore" (Some 2%Z) (Some "*~").

Definition gitignore_env : environment :=
  mk_env (fun k => "2024-05-01 10:00:0" +:+ pretty k)
         (fun url => Str.drop 18 url)
         (fun _ _ _ => Some 0%Z)
         "/tmp/tmpabc"
         (fun _ => [File gitignore])
         (fun _ _ => "0.10")
         (fun _ => "0.00")
         (fun _ => true)
         (fun _ => true).

Definition empty_world : world := mk_world ∅ ∅ 0.


Definition mib15 : Z := 15 * 1024 * 1024.

Definition big_png : file := mk_file "big.png" (Some (mib15 + 1)%Z) (Some "text").

Definition huge_txt : file := mk_file "huge.txt" (Some (mib15 + 1)%Z) (Some "text").

Definition xcodeowners : file := mk_file "XCODEOWNERS" (Some 4%Z) (Some "text").

Definition notes_mailmap : file := mk_file "notes.mailmap" (Some 4%Z) (Some "text").

Definition dot_git_file : file :=
  mk_file ".git" (Some 20%Z) (Some "gitdir: ../.git/m/x").

Definition locked_txt : file := mk_file "locked.txt" (Some 5%Z) None.

Definition github_png : file := mk_file "logo.png" (Some 4%Z) (Some "text").

Definition plain_png : file := mk_file "diagram.PNG" (Some 4%Z) (Some "text").

(** A workspace with a file for most branches of the loop body. *)
Definition tree1 : list node :=
  [ File (mk_file "README.md" (Some 5%Z) (Some "hello"));
    File gitignore;
    Dir "a" [ Dir "b" [ File (mk_file "c.py" (Some 8%Z) (Some "print(1)")) ];
              File big_png;
              File huge_txt ];
    Dir ".git" [ File (mk_file "HEAD" (Some 3%Z) (Some "ref")) ] ].

(** The workspace of the flattening example: [a/b/c.py]. *)
Definition c_py : file := mk_file "c.py" (Some 8%Z) (Some "print(1)").

Definition tree_abc : list node := [ Dir "a" [ Dir "b" [ File c_py ] ] ].

(** The same with a second file, [a_b/c.py], that flattens to the same
    output name. *)
Definition tree_overwritten : list node :=
  [ Dir "a" [ Dir "b" [ File c_py ] ];
    Dir "a_b" [ File (mk_file "c.py" (Some 8%Z) (Some "print(2)")) ] ].

(** The workspaces of the collision example: [x_y.py] and [x/y.py], in
    either listing order. *)
Definition tree_collision (size1 size2 : Z) (content1 content2 : string)
  : list node :=
  [ File (mk_file "x_y.py" (Some size1) (Some content1));
    Dir "x" [ File (mk_file "y.py" (Some size2) (Some content2)) ] ].

Definition tree_collision' (size1 size2 : Z) (content1 content2 : string)
  : list node :=
  [ Dir "x" [ File (mk_file "y.py" (Some size2) (Some content2)) ];
    File (mk_file "x_y.py" (Some size1) (Some content1)) ].

(** ** Further definitions: the branches that leave no record *)

Definition is_ignored (d : decision) : bool :=
  match d with Ignored => true | _ => false end.
Definition is_read_error (d : decision) : bool :=
  match d with ReadError => true | _ => false end.
Definition is_open_error (d : decision) : bool :=
  match d with OpenError => true | _ => false end.
Definition is_header_error (d : decision) : bool :=
  match d with HeaderError => true | _ => false end.

(** The branches in which the output file is opened, that is created or
    emptied. *)
Definition opens_output (d : decision) : bool :=
  match d with Processed _ | HeaderError => true | _ => false end.
Definition is_size_error (d : decision) : bool :=
  match d with SizeError => true | _ => false end.

(** A decode failure recorded with size 0: the size read was 0 and the
    bytes read were not UTF-8. *)
Definition is_empty_decode_failure (d : decision) : bool :=
  match d with DecodeFailure 0 => true | _ => false end.

(** The decisions of a run, in visiting order. *)
Definition run_decisions (env : environment) (repo_dir : string)
    (tree : list node) (output_dir : string) (max_size_mb : Z)
  : list decision :=
  map (visit_decision env output_dir (max_size_mb * 1024 * 1024))
      (walk_files repo_dir tree).

Definition unreadable_size_txt : file := mk_file "nosize.txt" None (Some "text").

(** Four bytes, the last of which (233) is not UTF-8 on its own. *)
Definition latin1_txt : file :=
  mk_file "latin1.txt" (Some 4%Z) (Some ("caf" +:+ String "233"%char "")).

(** An environment like [sample_env] in which one output file,
    [/out/code_files/denied.txt], cannot be opened. *)
Definition denied_env : environment :=
  mk_env (fun k => "2024-05-01 10:00:0" +:+ pretty k)
         (fun url => Str.drop 18 url)
         (fun _ _ _ => Some 1%Z)
         "/tmp/tmpabc"
         (fun _ => [])
         (fun _ _ => "0.00")
         (fun _ => "0.00")
         (fun path => negb (String.eqb path "/out/code_files/denied.txt"))
         (fun _ => true).

Definition denied_txt : file := mk_file "denied.txt" (Some 4%Z) (Some "text").

(** A file whose name is not UTF-8: [caf], the byte 233, [.txt]. *)
Definition cafe_txt : file :=
  mk_file ("caf" +:+ String "233"%char ".txt") (Some 4%Z) (Some "text").

(** A workspace of four files that meet an exception: the size of the
    first cannot be read, the second cannot be opened, the output file
    of the third cannot be opened (in [denied_env]), the name of the
    fourth cannot be encoded; and a fifth that meets none. *)
Definition tree_errors : list node :=
  [ File unreadable_size_txt; File locked_txt; File denied_txt; File cafe_txt;
    File (mk_file "ok.txt" (Some 2%Z) (Some "ok")) ].

(** ** Further definitions: the order of [sorted] *)

(** The order in which [sorted] puts file names: the order of their
    code points, a byte that is not UTF-8 counting as its surrogate
    escape.  On UTF-8 names this is byte order. *)
Definition str_le (a b : string) : Prop := Str.leb a b = true.

(** The name of a key: escapes are turned back into their bytes. *)
Fixpoint unkey (k : string) : string :=
  match k with
  | EmptyString => EmptyString
  | String c0 k1 =>
      match k1 with
      | String c1 (String c2 k3) =>
          if Str.byte_in 0xED 0xED c0 && Str.byte_in 0xB0 0xBF c1
          then String (ascii_of_N ((N_of_ascii c1 - 0xB0) * 64 + (N_of_ascii c2 - 0x80)))
                      (unkey k3)
          else String c0 (unkey k1)
      | _ => String c0 (unkey k1)
      end
  end.

(** ** Further definitions: the stages of a run whose clone succeeds *)

Definition structure_file (output_base_dir repo_name : string) : string :=
  OsPath.join (repo_output_dir output_base_dir repo_name)
              (repo_name +:+ "_file_structure.txt").

Definition general_file (output_base_dir repo_name : string) : string :=
  OsPath.join (repo_output_dir output_base_dir repo_name)
              (repo_name +:+ "_general_summary.txt").

Definition summary_file (output_base_dir repo_name : string) : string :=
  OsPath.join (repo_output_dir output_base_dir repo_name)
              (repo_name +:+ "_processing_summary.txt").

Definition code_output_dir (output_base_dir repo_name : string) : string :=
  OsPath.join (repo_output_dir output_base_dir repo_name) "code_files".




(** An environment in which every clone attempt raises (a timeout, a
    missing program). *)
Definition raising_env : environment :=
  mk_env (fun k => "2024-05-01 10:00:0" +:+ pretty k)
         (fun url => Str.drop 18 url)
         (fun _ _ _ => None)
         "/tmp/tmpabc"
         (fun _ => [])
         (fun _ _ => "0.00")
         (fun _ => "0.00")
         (fun _ => true)
         (fun _ => true).



(** ** Further definitions: [main], the configuration file and its URLs *)

Module Text.

Definition lf : ascii := "010"%char.
Definition cr : ascii := "013"%char.
Definition hash : ascii := "#"%char.

(** What a file opened in text mode hands out (universal newlines):
    ["\r\n"] and a lone ["\r"] are turned into ["\n"]. *)
Fixpoint translate_newlines (s : string) : string :=
  match s with
  | EmptyString => EmptyString
  | String a s1 =>
      if Ascii.eqb a cr then
        match s1 with
        | String b s2 =>
            if Ascii.eqb b lf then String lf (translate_newlines s2)
            else String lf (translate_newlines s1)
        | EmptyString => String lf EmptyString
        end
      else String a (translate_newlines s1)
  end.

(** The lines that iterating over a text file yields: each ends with its
    ["\n"], the last one when the text ends with one. *)
Fixpoint lines (s : string) : list string :=
  match s with
  | EmptyString => []
  | String a s1 =>
      if Ascii.eqb a lf then String lf EmptyString :: lines s1
      else match lines s1 with
           | [] => [String a EmptyString]
           | l :: ls => String a l :: ls
           end
  end.

(** The white space of [str.strip()]: the code points U+0009 to U+000D,
    U+001C to U+0020, U+0085, U+00A0, U+1680, U+2000 to U+200A, U+2028,
    U+2029, U+202F, U+205F and U+3000, by their UTF-8 bytes. *)
Definition ascii_space (a : ascii) : bool :=
  Str.byte_in 0x09 0x0D a || Str.byte_in 0x1C 0x20 a.

Definition two_byte_space (a b : ascii) : bool :=
  Str.byte_in 0xC2 0xC2 a && (Str.byte_in 0x85 0x85 b || Str.byte_in 0xA0 0xA0 b).

Definition three_byte_space (a b c : ascii) : bool :=
  (Str.byte_in 0xE1 0xE1 a && Str.byte_in 0x9A 0x9A b && Str.byte_in 0x80 0x80 c)
  || (Str.byte_in 0xE2 0xE2 a && Str.byte_in 0x80 0x80 b
      && (Str.byte_in 0x80 0x8A c || Str.byte_in 0xA8 0xA9 c || Str.byte_in 0xAF 0xAF c))
  || (Str.byte_in 0xE2 0xE2 a && Str.byte_in 0x81 0x81 b && Str.byte_in 0x9F 0x9F c)
  || (Str.byte_in 0xE3 0xE3 a && Str.byte_in 0x80 0x80 b && Str.byte_in 0x80 0x80 c).

(** The number of bytes of the white-space character that starts [s]; 0
    when [s] does not start with one. *)
Definition space_length (s : string) : nat :=
  match s with
  | String a s1 =>
      if ascii_space a then 1
      else match s1 with
           | String b s2 =>
               if two_byte_space a b then 2
               else match s2 with
                    | String c _ => if three_byte_space a b c then 3 else 0
                    | EmptyString => 0
                    end
           | EmptyString => 0
           end
  | EmptyString => 0
  end.

(** Whether [s] is one white-space character. *)
Definition is_space (s : string) : bool :=
  negb (Nat.eqb (space_length s) 0) && Nat.eqb (space_length s) (String.length s).

(** [s.lstrip()] *)
Fixpoint lstrip (s : string) : string :=
  match s with
  | String a s1 =>
      if ascii_space a then lstrip s1
      else match s1 with
           | String b s2 =>
               if two_byte_space a b then lstrip s2
               else match s2 with
                    | String c s3 => if three_byte_space a b c then lstrip s3 else s
                    | EmptyString => s
                    end
           | EmptyString => s
           end
  | EmptyString => EmptyString
  end.

(** [s.rstrip()], on text that decoded as UTF-8: a white-space character
    at the end is cut off, from the right. *)
Fixpoint rstrip (s : string) : string :=
  match s with
  | EmptyString => EmptyString
  | String a s1 =>
      let r := String a (rstrip s1) in
      if is_space r then EmptyString else r
  end.

(** [s.strip()] *)
Definition strip (s : string) : string := rstrip (lstrip s).

End Text.

(** The path of the configuration file: next to the program unless the
    argument is absolute, then in the working directory; [None] when
    neither exists.  [path_exists] is [os.path.exists]. *)
Definition config_path (script_dir cwd config_file : string)
    (path_exists : string -> bool) : option string :=
  let config_path :=
    if Str.startswith_char Str.slash config_file then config_file
    else OsPath.join script_dir config_file in
  if path_exists config_path then Some config_path
  else
    let alt_config_path := OsPath.join cwd config_file in
    if path_exists alt_config_path then Some alt_config_path else None.

(** [[line.strip() for line in f
      if line.strip() and not line.strip().startswith('#')]] on the text
    of the file. *)
Definition config_urls (text : string) : list string :=
  flat_map (fun line =>
              if negb (String.eqb (Text.strip line) "")
                 && negb (Str.startswith_char Text.hash (Text.strip line))
              then [Text.strip line] else [])
           (Text.lines (Text.translate_newlines text)).

(** Reading the file: bytes that are not UTF-8 raise, which ends [main]
    before any repository is processed. *)
Definition read_config (content : string) : option (list string) :=
  if Str.utf8_valid content then Some (config_urls content) else None.


(** The configuration file of the example: a URL, a blank line, a
    comment. *)
Definition example_config : string :=
  "https://example.com/owner/repo.git" +:+ Str.nl +:+ Str.nl
  +:+ "# comment" +:+ Str.nl.

(** * Properties *)

(** Case analysis on every test of a branching body. *)
Ltac case_branches :=
  repeat (match goal with
          | |- context [if ?b then _ else _] => destruct b
          | |- context [match ?o with Some _ => _ | None => _ end] => destruct o
          end; try done).

(** A decidable proposition that evaluates to true, or to false. *)
Ltac by_evaluation P := apply (bool_decide_eq_true_1 P); reflexivity.
Ltac refuted_by_evaluation P := apply (bool_decide_eq_false_1 P); reflexivity.

(** The first visit of a walk that has been evaluated. *)
Ltac first_visit := vm_compute; left.

(** ** Examples of the primitives *)

Example split_ex : Str.split Str.slash "/tmp/a//b" = [""; "tmp"; "a"; ""; "b"].
Proof. reflexivity. Qed.
Example splitext_ex1 : OsPath.splitext "a.tar.gz" = ("a.tar", ".gz").
Proof. reflexivity. Qed.
Example splitext_ex2 : OsPath.splitext ".gitignore" = (".gitignore", "").
Proof. reflexivity. Qed.
Example splitext_ex3 : OsPath.splitext "..a.b" = ("..a", ".b").
Proof. reflexivity. Qed.
Example strip_ex : Str.strip Str.slash "//a/b/" = "a/b".
Proof. reflexivity. Qed.
Example utf8_ex : Str.utf8_valid "文件" = true.
Proof. reflexivity. Qed.
Example sorted_ex : Str.sorted ["b"; "a"; "B"] = ["B"; "a"; "b"].
Proof. reflexivity. Qed.
Example join_ex : OsPath.join "/tmp/x" "a" = "/tmp/x/a" /\ OsPath.join "/tmp/x/" "a" = "/tmp/x/a".
Proof. split; reflexivity. Qed.

(** ** Strings *)

Lemma str_app_cons a s t : String a s +:+ t = String a (s +:+ t).
Proof. reflexivity. Qed.

Lemma str_app_nil_r s : s +:+ "" = s.
Proof. induction s as [|a s IH]; [done|]. by rewrite str_app_cons, IH. Qed.

Lemma str_app_assoc s t u : (s +:+ t) +:+ u = s +:+ (t +:+ u).
Proof. induction s as [|a s IH]; [done|]. by rewrite !str_app_cons, IH. Qed.

Lemma str_length_app s t : String.length (s +:+ t) = String.length s + String.length t.
Proof. induction s as [|a s IH]; [done|]. rewrite str_app_cons. simpl. by rewrite IH. Qed.

Lemma concat_cons x l : String.concat "" (x :: l) = x +:+ String.concat "" l.
Proof. destruct l; [by rewrite str_app_nil_r|done]. Qed.

Lemma concat_app l k :
  String.concat "" (l ++ k) = String.concat "" l +:+ String.concat "" k.
Proof.
  induction l as [|x l IH]; [done|].
  rewrite <- app_comm_cons, !concat_cons, IH. by rewrite str_app_assoc.
Qed.

Lemma str_app_inv_tail s t u : s +:+ u = t +:+ u → s = t.
Proof.
  revert t. induction s as [|a s IH]; intros [|b t] H; [done| | |].
  - apply (f_equal String.length) in H. rewrite !str_length_app in H. simpl in H. lia.
  - apply (f_equal String.length) in H. rewrite !str_length_app in H. simpl in H. lia.
  - rewrite !str_app_cons in H. injection H as -> H. f_equal. by apply IH.
Qed.

Lemma app_neq_self a b : b ≠ "" → a +:+ b ≠ a.
Proof.
  intros Hb H. apply (f_equal String.length) in H. rewrite str_length_app in H.
  destruct b; [done|]. simpl in H. lia.
Qed.

Lemma prefix_app a b : String.prefix a (a +:+ b) = true.
Proof.
  induction a as [|c a IH]; [by destruct b|].
  rewrite str_app_cons. simpl. by destruct (ascii_dec c c).
Qed.

Lemma count_app c s t : Str.count c (s +:+ t) = Str.count c s + Str.count c t.
Proof.
  induction s as [|a s IH]; [done|]. rewrite str_app_cons. simpl. rewrite IH. lia.
Qed.


(** Lowering goes through a concatenation whose second part is ASCII. *)
Lemma is_ascii_cons a s :
  Str.is_ascii (String a s) = Str.byte_in 0x00 0x7F a && Str.is_ascii s.
Proof. reflexivity. Qed.

Lemma ascii_not_above a lo hi :
  Str.byte_in 0x00 0x7F a = true → (0x80 <= lo)%N → Str.byte_in lo hi a = false.
Proof.
  unfold Str.byte_in. intros [_ H]%andb_prop Hlo. apply N.leb_le in H.
  apply andb_false_intro1. apply N.leb_gt. lia.
Qed.

Lemma lower_app_ascii_le n : ∀ s t,
  String.length s ≤ n → Str.is_ascii t = true →
  Str.lower (s +:+ t) = Str.lower s +:+ Str.lower t.
Proof.
  induction n as [|n IH]; intros s t Hn Ht.
  { destruct s; [done|simpl in Hn; lia]. }
  destruct s as [|a [|b [|c s3]]]; [done| | |].
  - change (String a "" +:+ t) with (String a t).
    destruct t as [|b t2]; [done|].
    rewrite is_ascii_cons in Ht. apply andb_prop in Ht as [Hb _].
    change (Str.lower (String a "")) with (String (Str.lower_char a) "").
    rewrite str_app_cons. change ("" +:+ Str.lower (String b t2)) with (Str.lower (String b t2)).
    cbn [Str.lower]. rewrite (ascii_not_above b 0xB0 0xB0), (ascii_not_above b 0x84 0x84) by done.
    rewrite !andb_false_r. cbn [andb]. by destruct t2.
  - change (String a (String b "") +:+ t) with (String a (String b t)).
    cbn [Str.lower]. destruct (Str.byte_in 196 196 a && Str.byte_in 176 176 b) eqn:E; [done|].
    destruct t as [|c t3]; [done|].
    pose proof Ht as Ht'. rewrite is_ascii_cons in Ht'. apply andb_prop in Ht' as [Hc _].
    rewrite (ascii_not_above c 0xAA 0xAA), !andb_false_r by done.
    rewrite str_app_cons. f_equal.
    apply (IH (String b "") (String c t3)); [simpl in *; lia|done].
  - change (String a (String b (String c s3)) +:+ t)
      with (String a (String b (String c (s3 +:+ t)))).
    cbn [Str.lower]. destruct (Str.byte_in 196 196 a && Str.byte_in 176 176 b) eqn:E.
    + rewrite !str_app_cons. do 3 f_equal.
      apply (IH (String c s3) t); [simpl in *; lia|done].
    + destruct (Str.byte_in 226 226 a && Str.byte_in 132 132 b && Str.byte_in 170 170 c) eqn:E3.
      * rewrite str_app_cons. f_equal. apply IH; [simpl in *; lia|done].
      * rewrite str_app_cons. f_equal.
        apply (IH (String b (String c s3)) t); [simpl in *; lia|done].
Qed.

Lemma lower_app_ascii s t :
  Str.is_ascii t = true → Str.lower (s +:+ t) = Str.lower s +:+ Str.lower t.
Proof. by apply (lower_app_ascii_le (String.length s)). Qed.

(** Replacing an ASCII character by an ASCII character changes no test
    of the UTF-8 decoder. *)
Lemma byte_in_replaced old new lo hi a :
  Str.byte_in 0x00 0x7F old = true → Str.byte_in 0x00 0x7F new = true →
  (lo = 0 ∧ hi = 0x7F ∨ 0x80 <= lo)%N →
  Str.byte_in lo hi (if Ascii.eqb a old then new else a) = Str.byte_in lo hi a.
Proof.
  intros Hold Hnew Hlo. destruct (Ascii.eqb_spec a old) as [->|_]; [|done].
  destruct Hlo as [[-> ->]|Hlo]; [congruence|].
  by rewrite !ascii_not_above.
Qed.

Lemma utf8_valid_replace_le old new :
  Str.byte_in 0x00 0x7F old = true → Str.byte_in 0x00 0x7F new = true →
  ∀ n s, String.length s ≤ n →
         Str.utf8_valid (Str.replace old new s) = Str.utf8_valid s.
Proof.
  intros Hold Hnew. induction n as [|n IH]; intros s Hn.
  { destruct s; [done|simpl in Hn; lia]. }
  destruct s as [|c0 s1]; [done|]. simpl in Hn.
  cbn [Str.replace Str.utf8_valid].
  rewrite !(byte_in_replaced old new _ _ c0 Hold Hnew) by (lia || (left; done)).
  destruct (Str.byte_in 0 127 c0); [apply IH; lia|].
  destruct s1 as [|c1 s2]; [done|]. simpl in Hn.
  cbn [Str.replace Str.utf8_valid].
  rewrite !(byte_in_replaced old new _ _ c1 Hold Hnew) by (lia || (left; done)).
  destruct (Str.byte_in 194 223 c0); [by rewrite IH by lia|].
  destruct s2 as [|c2 s3]; [done|]. simpl in Hn.
  cbn [Str.replace Str.utf8_valid].
  rewrite !(byte_in_replaced old new _ _ c2 Hold Hnew) by (lia || (left; done)).
  destruct (Str.byte_in 224 239 c0); [by rewrite IH by lia|].
  destruct s3 as [|c3 s4]; [done|]. simpl in Hn.
  cbn [Str.replace Str.utf8_valid].
  rewrite !(byte_in_replaced old new _ _ c3 Hold Hnew) by (lia || (left; done)).
  by rewrite IH by lia.
Qed.

Lemma utf8_valid_safe_name p : Str.utf8_valid (safe_name p) = Str.utf8_valid p.
Proof.
  unfold safe_name.
  rewrite (utf8_valid_replace_le Str.backslash Str.underscore eq_refl eq_refl _ _ (le_n _)).
  apply (utf8_valid_replace_le Str.slash Str.underscore eq_refl eq_refl _ _ (le_n _)).
Qed.

Lemma take_drop n s : Str.take n s +:+ Str.drop n s = s.
Proof.
  revert s. induction n as [|n IH]; intros [|a s]; try done.
  simpl. by rewrite str_app_cons, IH.
Qed.

Lemma rfind_lower_bound c s : (-1 <= Str.rfind c s)%Z.
Proof.
  induction s as [|a s IH]; simpl; [lia|].
  destruct (Z.leb_spec 0 (Str.rfind c s)); [lia|]. destruct (Ascii.eqb a c); lia.
Qed.

Lemma rfind_absent c s : Str.count c s = 0 → Str.rfind c s = (-1)%Z.
Proof.
  induction s as [|a s IH]; simpl; [done|].
  destruct (Ascii.eqb a c); [lia|]. intros H. by rewrite IH.
Qed.

Lemma rfind_last c a b :
  Str.count c b = 0 → Str.rfind c (a +:+ String c b) = Z.of_nat (String.length a).
Proof.
  intros Hb. induction a as [|x a IH].
  - change ("" +:+ String c b) with (String c b). simpl.
    rewrite (rfind_absent c b Hb). simpl. by rewrite Ascii.eqb_refl.
  - rewrite str_app_cons. cbn [Str.rfind String.length]. rewrite IH.
    destruct (Z.leb_spec 0 (Z.of_nat (String.length a))); lia.
Qed.

Lemma take_app_length a b : Str.take (String.length a) (a +:+ b) = a.
Proof.
  induction a as [|x a IH]; [by destruct b|].
  rewrite str_app_cons. simpl. by rewrite IH.
Qed.

Lemma drop_app_length a b : Str.drop (String.length a) (a +:+ b) = b.
Proof.
  induction a as [|x a IH]; [done|]. rewrite str_app_cons. simpl. apply IH.
Qed.

(** Of two suffixes of one string, the shorter is a suffix of the longer. *)
Lemma suffix_of_suffix s : ∀ p1 x p2 y,
  s = p1 +:+ x → s = p2 +:+ y → String.length x ≤ String.length y →
  ∃ q, y = q +:+ x.
Proof.
  induction s as [|a s IH]; intros p1 x p2 y H1 H2 Hlen.
  - destruct p1, p2; try done. change ("" +:+ x) with x in H1.
    change ("" +:+ y) with y in H2. subst. by exists "".
  - destruct p2 as [|b p2].
    + change ("" +:+ y) with y in H2. subst y. by exists p1.
    + destruct p1 as [|c p1].
      * change ("" +:+ x) with x in H1. subst x.
        apply (f_equal String.length) in H2. rewrite str_length_app in H2.
        simpl in *. lia.
      * rewrite str_app_cons in H1, H2. injection H1 as _ H1. injection H2 as _ H2.
        by apply (IH p1 x p2 y).
Qed.

Lemma endswith_unfold s suf :
  Str.endswith s suf =
  if String.eqb s suf then true
  else match s with "" => false | String _ s' => Str.endswith s' suf end.
Proof. by destruct s. Qed.

Lemma endswith_spec s suf : Str.endswith s suf = true ↔ ∃ p, s = p +:+ suf.
Proof.
  induction s as [|a s IH]; rewrite endswith_unfold.
  - destruct (String.eqb_spec "" suf) as [<-|Hne].
    + split; [by exists ""|done].
    + split; [done|]. intros [[|b p] Hp]; [by destruct Hne|done].
  - destruct (String.eqb_spec (String a s) suf) as [<-|Hne].
    + split; [by exists ""|done].
    + rewrite IH. split.
      * intros [p ->]. by exists (String a p).
      * intros [[|b p] Hp]; [by destruct Hne|]. rewrite str_app_cons in Hp.
        injection Hp as -> ->. by exists p.
Qed.

Lemma split_not_nil sep s : Str.split sep s ≠ [].
Proof. destruct s as [|a s]; [done|]. simpl. destruct (Ascii.eqb a sep); [done|]. by destruct (Str.split sep s). Qed.

Lemma split_app_sep sep a b :
  Str.split sep (a +:+ String sep b) = Str.split sep a ++ Str.split sep b.
Proof.
  induction a as [|c a IH].
  - change ("" +:+ String sep b) with (String sep b). simpl. by rewrite Ascii.eqb_refl.
  - rewrite str_app_cons. simpl. rewrite IH. destruct (Ascii.eqb c sep); [done|].
    pose proof (split_not_nil sep a). by destruct (Str.split sep a).
Qed.

Lemma split_no_sep sep s : Str.count sep s = 0 → Str.split sep s = [s].
Proof.
  induction s as [|c s IH]; [done|]. simpl.
  destruct (Ascii.eqb c sep); [intros; lia|]. intros H. by rewrite IH.
Qed.


Lemma split_join l :
  l ≠ [] → Forall slash_free l → Str.split Str.slash (Str.join "/" l) = l.
Proof.
  induction l as [|x l IH]; [done|]. intros _ Hl.
  apply Forall_cons in Hl as [Hx Hl]. destruct l as [|y l].
  - simpl. by apply split_no_sep.
  - change (Str.join "/" (x :: y :: l)) with (x +:+ "/" +:+ Str.join "/" (y :: l)).
    change ("/" +:+ Str.join "/" (y :: l)) with (String Str.slash (Str.join "/" (y :: l))).
    rewrite split_app_sep, IH, split_no_sep by done. done.
Qed.

Lemma splitext_suffix p : ∃ r, p = r +:+ snd (OsPath.splitext p).
Proof.
  unfold OsPath.splitext.
  repeat match goal with |- context [if ?b then _ else _] => destruct b end;
    simpl; try (exists p; by rewrite str_app_nil_r).
  eexists. by rewrite take_drop.
Qed.

Lemma elem_of_split_join a b x :
  Str.count Str.slash b = 0 → x ≠ "" →
  x ∈ Str.split Str.slash (OsPath.join a b) ↔ x ∈ Str.split Str.slash a ∨ x = b.
Proof.
  intros Hb Hx. unfold OsPath.join.
  assert (Str.startswith_char Str.slash b = false) as ->.
  { destruct b as [|c b]; [done|]. simpl in *. by destruct (Ascii.eqb c Str.slash). }
  destruct (String.eqb_spec a "") as [->|Ha]; simpl.
  { change ("" +:+ b) with b. rewrite split_no_sep by done.
    simpl. rewrite !list_elem_of_singleton. intuition congruence. }
  destruct (Str.endswith a "/") eqn:He.
  - apply endswith_spec in He as [p ->]. rewrite str_app_assoc.
    change ("/" +:+ b) with (String Str.slash b).
    change "/" with (String Str.slash "").
    rewrite !split_app_sep, (split_no_sep _ b) by done. simpl.
    rewrite !elem_of_app, !list_elem_of_singleton. intuition congruence.
  - change ("/" +:+ b) with (String Str.slash b).
    rewrite split_app_sep, (split_no_sep _ b) by done.
    by rewrite elem_of_app, list_elem_of_singleton.
Qed.

Lemma has_component_join name a b :
  Str.count Str.slash b = 0 → name ≠ "" →
  has_component name (OsPath.join a b) = has_component name a || String.eqb name b.
Proof.
  intros Hb Hn. unfold has_component.
  apply eq_true_iff_eq. rewrite orb_true_iff, !bool_decide_eq_true, String.eqb_eq.
  by apply elem_of_split_join.
Qed.




(** ** Lists *)

Lemma elem_of_flat_map {A B} (f : A → list B) l y :
  y ∈ flat_map f l ↔ ∃ x, x ∈ l ∧ y ∈ f x.
Proof.
  rewrite !list_elem_of_In, in_flat_map. setoid_rewrite list_elem_of_In. done.
Qed.

Lemma flat_map_flat_map {A B C} (f : A → list B) (g : B → list C) l :
  flat_map g (flat_map f l) = flat_map (fun x => flat_map g (f x)) l.
Proof.
  induction l as [|x l IH]; [done|]. simpl. by rewrite flat_map_app, IH.
Qed.

Lemma map_flat_map {A B C} (f : B → C) (g : A → list B) l :
  map f (flat_map g l) = flat_map (fun x => map f (g x)) l.
Proof. induction l as [|a l IH]; [done|]. simpl. by rewrite map_app, IH. Qed.

Lemma flat_map_ext' {A B} (f g : A → list B) l :
  (∀ x, f x = g x) → flat_map f l = flat_map g l.
Proof. intros H. induction l as [|a l IH]; [done|]. simpl. by rewrite H, IH. Qed.

Lemma flat_map_app_perm {A B} (f g : A → list B) l :
  flat_map (fun x => f x ++ g x) l ≡ₚ flat_map f l ++ flat_map g l.
Proof.
  induction l as [|a l IH]; [done|]. simpl. rewrite IH.
  rewrite <- !app_assoc. apply Permutation_app_head.
  rewrite !app_assoc. apply Permutation_app_tail, Permutation_app_comm.
Qed.


Lemma elem_of_flat_map_if {A B} (b : A → bool) (f : A → B) l y :
  y ∈ flat_map (fun x => if b x then [f x] else []) l
  ↔ ∃ x, x ∈ l ∧ b x = true ∧ y = f x.
Proof.
  rewrite elem_of_flat_map. split.
  - intros (x & Hx & Hy). exists x. destruct (b x); [|by apply elem_of_nil in Hy].
    apply list_elem_of_singleton in Hy. done.
  - intros (x & Hx & Hb & ->). exists x. rewrite Hb. split; [done|].
    by apply list_elem_of_singleton.
Qed.

Lemma lookup_app_length {A} (l k : list A) x : (l ++ x :: k) !! length l = Some x.
Proof. by rewrite lookup_app_r, Nat.sub_diag by lia. Qed.

Lemma NoDup_map_inj {A B} (f : A → B) l x y :
  NoDup (map f l) → x ∈ l → y ∈ l → f x = f y → x = y.
Proof.
  induction l as [|a l IH]; intros Hnd Hx Hy Hf; [by apply elem_of_nil in Hx|].
  simpl in Hnd. apply NoDup_cons in Hnd as [Ha Hnd].
  apply elem_of_cons in Hx as [->|Hx]; apply elem_of_cons in Hy as [->|Hy].
  - done.
  - destruct Ha. rewrite Hf. apply list_elem_of_In, in_map, list_elem_of_In, Hy.
  - destruct Ha. rewrite <- Hf. apply list_elem_of_In, in_map, list_elem_of_In, Hx.
  - by apply IH.
Qed.

Lemma NoDup_map_flat_map_keyed {A B C K} (g : B → C) (key : A → K)
    (kc : C → K) (f : A → list B) (l : list A) :
  NoDup (map key l) →
  (∀ x, x ∈ l → NoDup (map g (f x))) →
  (∀ x y, x ∈ l → y ∈ f x → kc (g y) = key x) →
  NoDup (map g (flat_map f l)).
Proof.
  induction l as [|a l IH]; intros Hk Hf Hkey; simpl; [constructor|].
  apply NoDup_cons in Hk as [Ha Hk].
  rewrite map_app. apply NoDup_app. split; [|split].
  - apply Hf. by left.
  - intros c Hc1 Hc2.
    apply list_elem_of_In, in_map_iff in Hc1 as (y1 & <- & Hy1%list_elem_of_In).
    apply list_elem_of_In, in_map_iff in Hc2 as (y2 & Hg & Hy2%list_elem_of_In).
    apply elem_of_flat_map in Hy2 as (x & Hx & Hy2).
    apply Ha. apply list_elem_of_In, in_map_iff. exists x.
    split; [|by apply list_elem_of_In].
    rewrite <- (Hkey x y2), Hg, (Hkey a y1); [done|by left|done|by right|done].
  - apply IH; [done| |].
    + intros x Hx. apply Hf. by right.
    + intros x y Hx. apply Hkey. by right.
Qed.

Lemma fold_left_flat_map {A B C} (f : A → C → A) (g : B → list C) l a :
  fold_left f (flat_map g l) a = fold_left (fun a x => fold_left f (g x) a) l a.
Proof.
  revert a. induction l as [|x l IH]; intros a; [done|].
  simpl. by rewrite fold_left_app, IH.
Qed.

Lemma fold_left_map {A B C} (f : A → C → A) (g : B → C) l a :
  fold_left f (map g l) a = fold_left (fun a x => f a (g x)) l a.
Proof. revert a. induction l as [|x l IH]; intros a; [done|]. simpl. by rewrite IH. Qed.

Lemma fold_left_ext {A B} (f g : A → B → A) l a :
  (∀ a x, f a x = g a x) → fold_left f l a = fold_left g l a.
Proof.
  intros H. revert a. induction l as [|x l IH]; intros a; [done|].
  simpl. by rewrite H, IH.
Qed.

(** ** The walk *)

Lemma node_ind (P : node → Prop) :
  (∀ f, P (File f)) →
  (∀ d children, Forall P children → P (Dir d children)) →
  ∀ n, P n.
Proof.
  intros HF HD. fix IH 1. intros [f|d children]; [apply HF|].
  apply HD. induction children as [|c children IHc]; constructor; [apply IH|apply IHc].
Qed.

Lemma walk_node_dir top rel d children :
  walk_node top rel (Dir d children) =
  mk_item (OsPath.join top d) (rel ++ [d]) (dirnames children) (nondirs children)
    :: flat_map (walk_node (OsPath.join top d) (rel ++ [d])) children.
Proof. reflexivity. Qed.

Lemma elem_of_nondirs f entries : f ∈ nondirs entries ↔ File f ∈ entries.
Proof.
  unfold nondirs. rewrite elem_of_flat_map. split.
  - intros [[g|d ch] [Hin Hf]]; [|by apply elem_of_nil in Hf].
    apply list_elem_of_singleton in Hf. by subst.
  - intros Hin. exists (File f). split; [done|]. by apply list_elem_of_singleton.
Qed.

Lemma visit_nondirs top rel children :
  map (fun f => (top, rel, f)) (nondirs children)
  = flat_map (file_visit top rel) children.
Proof.
  induction children as [|[f|d ch] children IH]; simpl; [done| |done].
  by rewrite IH.
Qed.

Lemma node_visits_dir top rel d children :
  node_visits top rel (Dir d children) =
  flat_map (file_visit (OsPath.join top d) (rel ++ [d])) children
  ++ flat_map (node_visits (OsPath.join top d) (rel ++ [d])) children.
Proof.
  unfold node_visits. rewrite walk_node_dir. cbn [flat_map].
  rewrite flat_map_flat_map. f_equal. apply visit_nondirs.
Qed.

Lemma walk_files_unfold top tree :
  walk_files top tree =
  flat_map (file_visit top []) tree ++ flat_map (node_visits top []) tree.
Proof.
  unfold walk_files, os_walk. cbn [flat_map].
  rewrite flat_map_flat_map. f_equal. apply visit_nondirs.
Qed.

Lemma walk_files_spec top tree root rel f :
  (root, rel, f) ∈ walk_files top tree ↔
  ∃ it, it ∈ os_walk top tree ∧ root = w_root it ∧ rel = w_rel it ∧ f ∈ w_files it.
Proof.
  unfold walk_files. rewrite elem_of_flat_map. split.
  - intros (it & Hit & Hv). exists it. split; [done|].
    apply list_elem_of_In, in_map_iff in Hv as (g & Hg & Hin).
    injection Hg as <- <- <-. by rewrite list_elem_of_In.
  - intros (it & Hit & -> & -> & Hf). exists it. split; [done|].
    apply list_elem_of_In, in_map_iff. exists f. by rewrite <- list_elem_of_In.
Qed.





Lemma name_ok_spec s : name_ok s = true → s ≠ "" ∧ Str.count Str.slash s = 0.
Proof.
  unfold name_ok. intros [H1 H2]%andb_prop. split.
  - intros ->. done.
  - by apply Nat.eqb_eq.
Qed.

Lemma linked_join top root rel d :
  Str.count Str.slash d = 0 → linked top root rel →
  linked top (OsPath.join root d) (rel ++ [d]).
Proof.
  intros Hd Hl x Hx. rewrite elem_of_split_join, (Hl x), elem_of_app,
    list_elem_of_singleton by done. tauto.
Qed.

Lemma walk_node_linked top0 n : ∀ top rel it,
  wf_node n = true → linked top0 top rel →
  it ∈ walk_node top rel n → linked top0 (w_root it) (w_rel it).
Proof.
  induction n as [f|d children IH] using node_ind; intros top rel it Hwf Hl Hit.
  - by apply elem_of_nil in Hit.
  - simpl in Hwf. apply andb_prop in Hwf as [Hn [_ Hch]%andb_prop].
    apply name_ok_spec in Hn as [_ Hn]. simpl in Hn.
    pose proof (linked_join _ _ _ _ Hn Hl) as Hl'.
    rewrite walk_node_dir in Hit. apply elem_of_cons in Hit as [->|Hit]; [done|].
    apply elem_of_flat_map in Hit as (c & Hc & Hit).
    rewrite Forall_forall in IH. rewrite forallb_forall in Hch.
    apply (IH c Hc _ _ it (Hch c (proj1 (list_elem_of_In _ _) Hc)) Hl' Hit).
Qed.

Lemma os_walk_linked top tree it :
  wf_tree tree = true → it ∈ os_walk top tree → linked top (w_root it) (w_rel it).
Proof.
  intros [_ Hch]%andb_prop Hit. unfold os_walk in Hit.
  assert (linked top top []) as Hl.
  { intros x _. rewrite elem_of_nil. tauto. }
  apply elem_of_cons in Hit as [->|Hit]; [done|].
  apply elem_of_flat_map in Hit as (c & Hc & Hit).
  rewrite forallb_forall in Hch.
  apply (walk_node_linked top c top [] it); [|done|done]. apply Hch. by apply list_elem_of_In.
Qed.

(** The code's test on [file_path] is a test on the components of the top
    directory, on the directory names below it and on the base name. *)
Lemma has_component_walk name top tree root rel f :
  wf_tree tree = true → name ≠ "" →
  (root, rel, f) ∈ walk_files top tree →
  Str.count Str.slash (f_name f) = 0 →
  has_component name (OsPath.join root (f_name f)) = true ↔
  name ∈ Str.split Str.slash top ∨ name ∈ rel ∨ name = f_name f.
Proof.
  intros Hwf Hname (it & Hit & -> & -> & Hf)%walk_files_spec Hfn.
  unfold has_component. rewrite bool_decide_eq_true.
  rewrite elem_of_split_join by done.
  rewrite (os_walk_linked top tree it Hwf Hit name Hname). tauto.
Qed.

(** Below a node reached through [rel], every relative path continues
    [rel] with the name of the node. *)
Lemma file_visit_shape top rel n v :
  v ∈ file_visit top rel n → components v = rel ++ [node_name n].
Proof.
  destruct n as [f|d ch]; simpl; [|by intros ?%elem_of_nil].
  by intros ->%list_elem_of_singleton.
Qed.

Lemma node_visits_shape n : ∀ top rel v,
  v ∈ node_visits top rel n →
  ∃ rest, rest ≠ [] ∧ components v = rel ++ node_name n :: rest.
Proof.
  induction n as [f|d children IH] using node_ind; intros top rel v Hv.
  - by apply elem_of_nil in Hv.
  - rewrite node_visits_dir in Hv. simpl. rewrite Forall_forall in IH.
    apply elem_of_app in Hv as [Hv|Hv];
      apply elem_of_flat_map in Hv as (c & Hc & Hv).
    + apply file_visit_shape in Hv. exists [node_name c]. split; [done|].
      by rewrite Hv, <- app_assoc.
    + apply (IH c Hc) in Hv as (rest & _ & Hv).
      exists (node_name c :: rest). split; [done|].
      by rewrite Hv, <- app_assoc.
Qed.

Lemma NoDup_file_visits top rel children :
  NoDup (map node_name children) →
  NoDup (map components (flat_map (file_visit top rel) children)).
Proof.
  intros Hnd.
  apply (NoDup_map_flat_map_keyed components (fun n => Some (node_name n))
           (fun c => c !! length rel)); [| |].
  - apply (NoDup_fmap_2 Some) in Hnd. by rewrite <- list_fmap_compose in Hnd.
  - intros [f|d ch] _; simpl; [apply NoDup_singleton|constructor].
  - intros x y _ Hy. apply file_visit_shape in Hy as ->. apply lookup_app_length.
Qed.

Lemma NoDup_children_visits top rel children :
  NoDup (map node_name children) →
  (∀ c, c ∈ children → NoDup (map components (node_visits top rel c))) →
  NoDup (map components
           (flat_map (file_visit top rel) children
            ++ flat_map (node_visits top rel) children)).
Proof.
  intros Hnd Hch. rewrite map_app. apply NoDup_app. split; [|split].
  - by apply NoDup_file_visits.
  - intros c Hc1 Hc2.
    apply list_elem_of_In, in_map_iff in Hc1 as (y1 & <- & Hy1%list_elem_of_In).
    apply list_elem_of_In, in_map_iff in Hc2 as (y2 & Hg & Hy2%list_elem_of_In).
    apply elem_of_flat_map in Hy1 as (x1 & _ & Hy1).
    apply elem_of_flat_map in Hy2 as (x2 & _ & Hy2).
    apply file_visit_shape in Hy1.
    apply node_visits_shape in Hy2 as (rest & Hrest & Hy2).
    rewrite Hy1, Hy2 in Hg. apply app_inv_head in Hg.
    injection Hg as _ Hg. done.
  - apply (NoDup_map_flat_map_keyed components (fun n => Some (node_name n))
             (fun c => c !! length rel)); [|done|].
    + apply (NoDup_fmap_2 Some) in Hnd. by rewrite <- list_fmap_compose in Hnd.
    + intros x y _ Hy. apply node_visits_shape in Hy as (rest & _ & ->).
      apply lookup_app_length.
Qed.

Lemma NoDup_node_visits n : ∀ top rel,
  wf_node n = true → NoDup (map components (node_visits top rel n)).
Proof.
  induction n as [f|d children IH] using node_ind; intros top rel Hwf.
  - constructor.
  - simpl in Hwf. apply andb_prop in Hwf as [_ [Hnd Hch]%andb_prop].
    apply bool_decide_eq_true in Hnd. rewrite forallb_forall in Hch.
    rewrite Forall_forall in IH. rewrite node_visits_dir.
    apply NoDup_children_visits; [done|].
    intros c Hc. apply IH; [done|]. apply Hch. by apply list_elem_of_In.
Qed.

Lemma NoDup_walk_components top tree :
  wf_tree tree = true → NoDup (map components (walk_files top tree)).
Proof.
  intros [Hnd Hch]%andb_prop.
  apply bool_decide_eq_true in Hnd. rewrite forallb_forall in Hch.
  rewrite walk_files_unfold.
  apply NoDup_children_visits; [done|].
  intros c Hc. apply NoDup_node_visits. apply Hch. by apply list_elem_of_In.
Qed.

(** ** Relative paths *)

(** The relative path of a file is its base name after the names of the
    directories, each followed by a slash. *)
Lemma join_nonempty (l : list string) : l ≠ [] → relpath l = Str.join "/" l.
Proof. by destruct l. Qed.

Lemma relpath_inj l k :
  l ≠ [] → k ≠ [] → Forall slash_free l → Forall slash_free k →
  relpath l = relpath k → l = k.
Proof.
  intros Hl Hk Fl Fk H.
  assert (Str.join "/" l = Str.join "/" k) as Hj.
  { destruct l, k; done. }
  by rewrite <- (split_join l), <- (split_join k), Hj.
Qed.

Lemma file_visit_ok top rel n v :
  wf_node n = true → Forall slash_free rel →
  v ∈ file_visit top rel n → Forall slash_free (components v).
Proof.
  intros Hwf Hrel Hv. rewrite (file_visit_shape _ _ _ _ Hv).
  apply Forall_app. split; [done|]. apply Forall_singleton.
  destruct n; simpl in Hwf; apply andb_prop in Hwf as [Hn _];
    by apply name_ok_spec in Hn as [_ Hn].
Qed.

Lemma node_visits_ok n : ∀ top rel v,
  wf_node n = true → Forall slash_free rel →
  v ∈ node_visits top rel n → Forall slash_free (components v).
Proof.
  induction n as [f|d children IH] using node_ind; intros top rel v Hwf Hrel Hv.
  - by apply elem_of_nil in Hv.
  - simpl in Hwf. apply andb_prop in Hwf as [Hn [_ Hch]%andb_prop].
    apply name_ok_spec in Hn as [_ Hn]. simpl in Hn.
    rewrite forallb_forall in Hch. rewrite Forall_forall in IH.
    assert (Forall slash_free (rel ++ [d])) as Hrel'.
    { apply Forall_app. split; [done|]. by apply Forall_singleton. }
    rewrite node_visits_dir in Hv.
    apply elem_of_app in Hv as [Hv|Hv];
      apply elem_of_flat_map in Hv as (c & Hc & Hv).
    + apply (file_visit_ok _ _ c v (Hch c (proj1 (list_elem_of_In _ _) Hc)) Hrel' Hv).
    + apply (IH c Hc _ _ v (Hch c (proj1 (list_elem_of_In _ _) Hc)) Hrel' Hv).
Qed.

Lemma walk_components_ok top tree v :
  wf_tree tree = true → v ∈ walk_files top tree →
  Forall slash_free (components v).
Proof.
  intros [_ Hch]%andb_prop Hv. rewrite forallb_forall in Hch.
  rewrite walk_files_unfold in Hv.
  apply elem_of_app in Hv as [Hv|Hv];
    apply elem_of_flat_map in Hv as (c & Hc & Hv).
  - apply (file_visit_ok _ _ c v (Hch c (proj1 (list_elem_of_In _ _) Hc))
             (Forall_nil_2 _) Hv).
  - apply (node_visits_ok c _ _ v (Hch c (proj1 (list_elem_of_In _ _) Hc))
             (Forall_nil_2 _) Hv).
Qed.

Lemma walk_file_name_ok top tree root rel f :
  wf_tree tree = true → (root, rel, f) ∈ walk_files top tree →
  slash_free (f_name f).
Proof.
  intros Hwf Hv. apply (walk_components_ok _ _ _ Hwf) in Hv.
  unfold components in Hv. simpl in Hv.
  apply Forall_app in Hv as [_ Hv]. by inversion Hv.
Qed.

(** In a well-formed tree no two visited files have the same relative
    path. *)
Lemma NoDup_walk_paths top tree :
  wf_tree tree = true → NoDup (map visit_path (walk_files top tree)).
Proof.
  intros Hwf.
  change (map visit_path (walk_files top tree))
    with (map (fun v => relpath (components v)) (walk_files top tree)).
  rewrite <- (map_map components relpath).
  apply NoDup_fmap_2_strong; [|by apply NoDup_walk_components].
  intros l k Hl Hk.
  apply list_elem_of_In, in_map_iff in Hl as (v1 & <- & Hv1%list_elem_of_In).
  apply list_elem_of_In, in_map_iff in Hk as (v2 & <- & Hv2%list_elem_of_In).
  apply relpath_inj; eauto using walk_components_ok.
  - unfold components. by destruct (v1.1.2).
  - unfold components. by destruct (v2.1.2).
Qed.


Lemma rel_path_of_prefix rel file :
  rel_path_of rel file = dir_prefix rel +:+ file.
Proof.
  unfold rel_path_of. induction rel as [|d rel IH]; [done|].
  assert (rel ++ [file] ≠ []) as Hne by (by destruct rel).
  rewrite join_nonempty in IH by done.
  rewrite join_nonempty by done. simpl. unfold Str.join in *. simpl.
  destruct (rel ++ [file]) eqn:E; [done|].
  by rewrite IH, !str_app_assoc.
Qed.

Lemma dir_prefix_slash rel : dir_prefix rel = "" ∨ ∃ P, dir_prefix rel = P +:+ "/".
Proof.
  induction rel as [|d rel IH]; [by left|]. right. simpl.
  destruct IH as [->|[P ->]].
  - exists d. done.
  - exists (d +:+ "/" +:+ P). by rewrite !str_app_assoc.
Qed.

(** A slash-free suffix of a relative path is a suffix of the base name. *)
Lemma endswith_rel_path rel file g :
  Str.count Str.slash g = 0 →
  Str.endswith (rel_path_of rel file) g = true → Str.endswith file g = true.
Proof.
  intros Hg [q0 Hq0]%endswith_spec. rewrite rel_path_of_prefix in Hq0.
  apply endswith_spec.
  destruct (le_lt_dec (String.length g) (String.length file)) as [Hle|Hlt].
  - apply (suffix_of_suffix (q0 +:+ g) q0 g (dir_prefix rel) file
             eq_refl (eq_sym Hq0) Hle).
  - destruct (suffix_of_suffix (q0 +:+ g) (dir_prefix rel) file q0 g
                (eq_sym Hq0) eq_refl) as [q Hq]; [lia|]. exfalso.
    assert (q ≠ "") as Hqne.
    { intros ->. change ("" +:+ file) with file in Hq. subst. lia. }
    assert (dir_prefix rel = q0 +:+ q) as HP.
    { apply (str_app_inv_tail _ _ file). by rewrite Hq0, Hq, str_app_assoc. }
    destruct (dir_prefix_slash rel) as [HE|[P HE]]; rewrite HE in HP.
    + destruct q0, q; done.
    + destruct (suffix_of_suffix (P +:+ "/") P "/" q0 q eq_refl HP) as [q' Hq'].
      * destruct q; [done|simpl; lia].
      * rewrite Hq, Hq', !count_app in Hg. simpl in Hg. lia.
Qed.

(** ** The loop body as a decision and its effect *)

Lemma extract_file_perform env output_dir max_size_bytes root rel f st :
  extract_file env output_dir max_size_bytes root rel f st =
  perform env output_dir (rel_path_of rel (f_name f))
    (decide_file env output_dir max_size_bytes root rel f) st.
Proof.
  unfold extract_file, decide_file. case_branches.
Qed.

(** The nested loops are one loop over the visited files. *)
Lemma extract_code_files_fold env repo_dir tree output_dir max_size_mb w :
  extract_code_files env repo_dir tree output_dir max_size_mb w =
  fold_left (extract_visit env output_dir (max_size_mb * 1024 * 1024))
    (walk_files repo_dir tree) (initial_state (makedirs output_dir w)).
Proof.
  unfold extract_code_files, walk_files. rewrite fold_left_flat_map.
  apply fold_left_ext. intros st it. unfold extract_item, visit.
  by rewrite fold_left_map.
Qed.

Lemma processed_perform env output_dir rel_path d st :
  processed_files (perform env output_dir rel_path d st) =
  processed_files st ++ processed_of rel_path d.
Proof. destruct d; simpl; by rewrite ?app_nil_r. Qed.

Lemma skipped_perform env output_dir rel_path d st :
  skipped_files (perform env output_dir rel_path d st) =
  skipped_files st ++ skipped_of rel_path d.
Proof. destruct d; simpl; by rewrite ?app_nil_r. Qed.

Lemma processed_fold env output_dir max_size_bytes vs : ∀ st,
  processed_files (fold_left (extract_visit env output_dir max_size_bytes) vs st) =
  processed_files st
  ++ flat_map (fun v => processed_of (visit_path v) (visit_decision env output_dir max_size_bytes v)) vs.
Proof.
  induction vs as [|v vs IH]; intros st; simpl; [by rewrite app_nil_r|].
  rewrite IH. unfold extract_visit, visit_path, visit_decision. rewrite extract_file_perform, processed_perform.
  by rewrite <- app_assoc.
Qed.

Lemma skipped_fold env output_dir max_size_bytes vs : ∀ st,
  skipped_files (fold_left (extract_visit env output_dir max_size_bytes) vs st) =
  skipped_files st
  ++ flat_map (fun v => skipped_of (visit_path v) (visit_decision env output_dir max_size_bytes v)) vs.
Proof.
  induction vs as [|v vs IH]; intros st; simpl; [by rewrite app_nil_r|].
  rewrite IH. unfold extract_visit, visit_path, visit_decision. rewrite extract_file_perform, skipped_perform.
  by rewrite <- app_assoc.
Qed.

Lemma processed_extract env repo_dir tree output_dir max_size_mb w :
  processed_files (extract_code_files env repo_dir tree output_dir max_size_mb w) =
  flat_map (fun v => processed_of (visit_path v)
                       (visit_decision env output_dir (max_size_mb * 1024 * 1024) v))
           (walk_files repo_dir tree).
Proof. by rewrite extract_code_files_fold, processed_fold. Qed.

Lemma skipped_extract env repo_dir tree output_dir max_size_mb w :
  skipped_files (extract_code_files env repo_dir tree output_dir max_size_mb w) =
  flat_map (fun v => skipped_of (visit_path v)
                       (visit_decision env output_dir (max_size_mb * 1024 * 1024) v))
           (walk_files repo_dir tree).
Proof. by rewrite extract_code_files_fold, skipped_fold. Qed.

Lemma count_if_cons {A} (p : A → bool) x l :
  count_if p (x :: l) = ((if p x then 1 else 0) + count_if p l)%Z.
Proof.
  unfold count_if. rewrite filter_cons.
  destruct (decide (p x = true)) as [->|E].
  - cbn [length]. lia.
  - destruct (p x); [done|]. lia.
Qed.

Lemma counters_perform env output_dir rel_path d st :
  skipped_git_files (perform env output_dir rel_path d st)
  = (skipped_git_files st + if is_git d then 1 else 0)%Z
  ∧ skipped_by_extension (perform env output_dir rel_path d st)
    = (skipped_by_extension st + if is_extension d then 1 else 0)%Z
  ∧ skipped_by_size (perform env output_dir rel_path d st)
    = (skipped_by_size st + if is_oversized d then 1 else 0)%Z
  ∧ skipped_by_decode_error (perform env output_dir rel_path d st)
    = (skipped_by_decode_error st + if is_decode_failure d then 1 else 0)%Z.
Proof. destruct d; cbn; repeat split; lia. Qed.

Lemma counters_fold env output_dir max_size_bytes vs : ∀ st,
  skipped_git_files (fold_left (extract_visit env output_dir max_size_bytes) vs st)
  = (skipped_git_files st
     + count_if is_git (map (visit_decision env output_dir max_size_bytes) vs))%Z
  ∧ skipped_by_extension (fold_left (extract_visit env output_dir max_size_bytes) vs st)
    = (skipped_by_extension st
       + count_if is_extension (map (visit_decision env output_dir max_size_bytes) vs))%Z
  ∧ skipped_by_size (fold_left (extract_visit env output_dir max_size_bytes) vs st)
    = (skipped_by_size st
       + count_if is_oversized (map (visit_decision env output_dir max_size_bytes) vs))%Z
  ∧ skipped_by_decode_error (fold_left (extract_visit env output_dir max_size_bytes) vs st)
    = (skipped_by_decode_error st
       + count_if is_decode_failure (map (visit_decision env output_dir max_size_bytes) vs))%Z.
Proof.
  induction vs as [|v vs IH]; intros st.
  - cbn. unfold count_if. cbn. repeat split; lia.
  - cbn [fold_left map]. rewrite !count_if_cons.
    destruct (IH (extract_visit env output_dir max_size_bytes st v))
      as (-> & -> & -> & ->).
    unfold extract_visit. rewrite extract_file_perform.
    fold (visit_decision env output_dir max_size_bytes v).
    destruct (counters_perform env output_dir (rel_path_of v.1.2 (f_name v.2))
                (visit_decision env output_dir max_size_bytes v) st) as (-> & -> & -> & ->).
    repeat split; lia.
Qed.

(** The four counters of [extract_code_files] count the visits by
    branch. *)
Lemma counters_extract env repo_dir tree output_dir max_size_mb w :
  skipped_git_files (extract_code_files env repo_dir tree output_dir max_size_mb w)
  = count_if is_git
      (map (visit_decision env output_dir (max_size_mb * 1024 * 1024)) (walk_files repo_dir tree))
  ∧ skipped_by_extension (extract_code_files env repo_dir tree output_dir max_size_mb w)
    = count_if is_extension
        (map (visit_decision env output_dir (max_size_mb * 1024 * 1024)) (walk_files repo_dir tree))
  ∧ skipped_by_size (extract_code_files env repo_dir tree output_dir max_size_mb w)
    = count_if is_oversized
        (map (visit_decision env output_dir (max_size_mb * 1024 * 1024)) (walk_files repo_dir tree))
  ∧ skipped_by_decode_error
      (extract_code_files env repo_dir tree output_dir max_size_mb w)
    = count_if is_decode_failure
        (map (visit_decision env output_dir (max_size_mb * 1024 * 1024)) (walk_files repo_dir tree)).
Proof.
  rewrite extract_code_files_fold.
  destruct (counters_fold env output_dir (max_size_mb * 1024 * 1024)
              (walk_files repo_dir tree) (initial_state (makedirs output_dir w)))
    as (-> & -> & -> & ->).
  cbn. repeat split; lia.
Qed.

Lemma skipped_of_visit env repo_dir tree output_dir max_size_mb w v rec :
  v ∈ walk_files repo_dir tree →
  rec ∈ skipped_of (visit_path v) (visit_decision env output_dir (max_size_mb * 1024 * 1024) v) →
  rec ∈ skipped_files (extract_code_files env repo_dir tree output_dir max_size_mb w).
Proof.
  intros Hv Hrec. rewrite skipped_extract. apply elem_of_flat_map. eauto.
Qed.

Lemma processed_of_visit env repo_dir tree output_dir max_size_mb w v p :
  v ∈ walk_files repo_dir tree →
  p ∈ processed_of (visit_path v) (visit_decision env output_dir (max_size_mb * 1024 * 1024) v) →
  p ∈ processed_files (extract_code_files env repo_dir tree output_dir max_size_mb w).
Proof.
  intros Hv Hp. rewrite processed_extract. apply elem_of_flat_map. eauto.
Qed.

Lemma recorded_lists rel_path d :
  processed_of rel_path d ++ map fst (skipped_of rel_path d)
  = if recorded d then [rel_path] else [].
Proof. by destruct d. Qed.

(** The two returned lists, taken together, hold the relative paths of
    the visited files that take a recording branch. *)
Lemma recorded_extract env repo_dir tree output_dir max_size_mb w :
  processed_files (extract_code_files env repo_dir tree output_dir max_size_mb w)
  ++ map fst (skipped_files (extract_code_files env repo_dir tree output_dir max_size_mb w))
  ≡ₚ flat_map (fun v => if recorded (visit_decision env output_dir (max_size_mb * 1024 * 1024) v)
                        then [visit_path v] else [])
              (walk_files repo_dir tree).
Proof.
  rewrite processed_extract, skipped_extract, map_flat_map, <- flat_map_app_perm.
  erewrite flat_map_ext'; [done|]. intros v. apply recorded_lists.
Qed.



(** The state after the processed branch. *)
Lemma emit_state env output_file rel_path content st :
  emit env output_file rel_path content st =
  mk_state (skipped_files st) (processed_files st ++ [rel_path])
    (skipped_by_extension st) (skipped_by_size st)
    (skipped_by_decode_error st) (skipped_git_files st)
    (mk_world (fs_dirs (x_world st))
       (<[output_file := header rel_path (now env (clock (x_world st))) +:+ content]>
          (fs_files (x_world st)))
       (S (clock (x_world st)))).
Proof. reflexivity. Qed.

(** ** The branches *)

Lemma decide_git_suffix env output_dir max_size_bytes root rel f git_file :
  has_component ".git" (OsPath.join root (f_name f)) = false →
  git_file ∈ git_related_files →
  Str.endswith (rel_path_of rel (f_name f)) git_file = true →
  decide_file env output_dir max_size_bytes root rel f = GitMetadata.
Proof.
  intros H1 Hg He. unfold decide_file. rewrite H1.
  assert (is_git_related (f_name f) (rel_path_of rel (f_name f)) = true) as ->; [|done].
  unfold is_git_related. apply orb_true_intro. right.
  apply existsb_exists. exists git_file. by rewrite <- list_elem_of_In.
Qed.

(** No denylisted extension ends the lowercased form of a git-related
    name, and none is longer than such a name; the names are ASCII and
    have no slash. *)
Lemma extension_table :
  forallb (fun g =>
    Nat.eqb (Str.count Str.slash g) 0
    && Str.is_ascii g
    && forallb (fun e =>
         (String.length e <=? String.length (Str.lower g))
         && negb (Str.endswith (Str.lower g) e)) binary_extensions)
    git_related_files = true.
Proof. reflexivity. Qed.

Lemma extension_table_spec g e :
  g ∈ git_related_files → e ∈ binary_extensions →
  Str.count Str.slash g = 0
  ∧ Str.is_ascii g = true
  ∧ String.length e ≤ String.length (Str.lower g)
  ∧ Str.endswith (Str.lower g) e = false.
Proof.
  intros Hg He. pose proof extension_table as H.
  rewrite forallb_forall in H. apply list_elem_of_In, H in Hg.
  apply andb_prop in Hg as [[Hs Ha]%andb_prop Hg]. rewrite forallb_forall in Hg.
  apply list_elem_of_In, Hg in He. apply andb_prop in He as [Hl He].
  split; [by apply Nat.eqb_eq|]. split; [done|]. split; [by apply Nat.leb_le|].
  by apply negb_true_iff.
Qed.

Lemma binary_extension_not_git_name file g :
  file_extension file ∈ binary_extensions → g ∈ git_related_files →
  Str.endswith file g = false.
Proof.
  intros He Hg. destruct (extension_table_spec g _ Hg He) as (_ & Ha & Hlen & Hends).
  destruct (Str.endswith file g) eqn:E; [|done]. exfalso.
  apply endswith_spec in E as [q ->]. unfold file_extension in *.
  destruct (splitext_suffix (Str.lower (q +:+ g))) as [r Hr].
  rewrite (lower_app_ascii q g Ha) in Hr at 1.
  destruct (suffix_of_suffix _ r _ (Str.lower q) (Str.lower g) Hr eq_refl Hlen)
    as [q' Hq'].
  assert (Str.endswith (Str.lower g) (snd (OsPath.splitext (Str.lower (q +:+ g)))) = true)
    as Ht by (apply endswith_spec; eauto).
  congruence.
Qed.

Lemma binary_extension_not_git_related rel file :
  file_extension file ∈ binary_extensions →
  is_git_related file (rel_path_of rel file) = false.
Proof.
  intros He. unfold is_git_related. apply orb_false_intro.
  - apply bool_decide_eq_false. intros Hg.
    pose proof (binary_extension_not_git_name file file He Hg) as H.
    assert (Str.endswith file file = true) as Ht by (apply endswith_spec; by exists "").
    congruence.
  - destruct (existsb _ _) eqn:E; [|done]. exfalso.
    apply existsb_exists in E as (g & Hg%list_elem_of_In & E).
    destruct (extension_table_spec g _ Hg He) as (Hs & _ & _ & _).
    apply endswith_rel_path in E; [|done].
    pose proof (binary_extension_not_git_name file g He Hg). congruence.
Qed.

Lemma decide_extension env output_dir max_size_bytes root rel f :
  has_component ".git" (OsPath.join root (f_name f)) = false →
  has_component ".github" (OsPath.join root (f_name f)) = false →
  file_extension (f_name f) ∈ binary_extensions →
  decide_file env output_dir max_size_bytes root rel f = ExtensionFiltered.
Proof.
  intros H1 H2 H3. unfold decide_file.
  by rewrite H1, binary_extension_not_git_related, H2, bool_decide_eq_true_2.
Qed.

Lemma decide_oversized env output_dir max_size_bytes root rel f file_size :
  has_component ".git" (OsPath.join root (f_name f)) = false →
  is_git_related (f_name f) (rel_path_of rel (f_name f)) = false →
  has_component ".github" (OsPath.join root (f_name f)) = false →
  file_extension (f_name f) ∉ binary_extensions →
  st_size f = Some file_size →
  (file_size > max_size_bytes)%Z →
  decide_file env output_dir max_size_bytes root rel f = Oversized file_size.
Proof.
  intros H1 H2 H3 H4 H5 H6. unfold decide_file.
  rewrite H1, H2, H3, bool_decide_eq_false_2, H5 by done.
  by apply Z.gtb_gt in H6 as ->.
Qed.

Lemma decide_processed env output_dir max_size_bytes root rel f file_size content :
  has_component ".git" (OsPath.join root (f_name f)) = false →
  is_git_related (f_name f) (rel_path_of rel (f_name f)) = false →
  has_component ".github" (OsPath.join root (f_name f)) = false →
  bool_decide (file_extension (f_name f) ∈ binary_extensions) = false →
  st_size f = Some file_size →
  (file_size <= max_size_bytes)%Z →
  f_bytes f = Some content →
  Str.utf8_valid content = true →
  can_open env (OsPath.join output_dir (safe_name (rel_path_of rel (f_name f))))
  = true →
  Str.utf8_valid (rel_path_of rel (f_name f)) = true →
  decide_file env output_dir max_size_bytes root rel f = Processed content.
Proof.
  intros H1 H2 H3 H4 H5 H6 H7 H8 H9 H10. unfold decide_file.
  rewrite H1, H2, H3, H4, H5, H7, H8, H9, H10.
  by destruct (Z.gtb_spec file_size max_size_bytes); [lia|].
Qed.

(** A processed path can be encoded; a path whose header cannot be
    written cannot. *)
Lemma decide_processed_valid env output_dir max_size_bytes root rel f content :
  decide_file env output_dir max_size_bytes root rel f = Processed content →
  Str.utf8_valid (rel_path_of rel (f_name f)) = true.
Proof.
  unfold decide_file.
  destruct (Str.utf8_valid (rel_path_of rel (f_name f))); [done|]. case_branches.
Qed.

Lemma decide_header_error_invalid env output_dir max_size_bytes root rel f :
  decide_file env output_dir max_size_bytes root rel f = HeaderError →
  Str.utf8_valid (rel_path_of rel (f_name f)) = false.
Proof.
  unfold decide_file.
  destruct (Str.utf8_valid (rel_path_of rel (f_name f))); [|done]. case_branches.
Qed.

(** ** Skipped files and the two returned lists *)

Section Extraction.

Context (env : environment) (repo_dir : string) (tree : list node).
Context (output_dir : string) (max_size_mb : Z) (w : world).

Local Abbreviation limit := (max_size_mb * 1024 * 1024)%Z.
Local Abbreviation run :=
  (extract_code_files env repo_dir tree output_dir max_size_mb w).

(** C10 (amended). Outside any [.git] component, a file whose relative
    path ends with one of the six git-related names, whether or not its
    base name is one of them, takes the git branch: the record appended is
    its relative path with size 0, the counter updated is
    [skipped_git_files], and the record is in the returned
    [skipped_files]. *)
Theorem git_suffix_skipped root rel f git_file :
  (root, rel, f) ∈ walk_files repo_dir tree →
  has_component ".git" (OsPath.join root (f_name f)) = false →
  git_file ∈ git_related_files →
  Str.endswith (rel_path_of rel (f_name f)) git_file = true →
  (∀ st, extract_file env output_dir limit root rel f st
         = skip_git (rel_path_of rel (f_name f)) st)
  ∧ (rel_path_of rel (f_name f), 0%Z) ∈ skipped_files run.
Proof.
  intros Hv H1 Hg He.
  pose proof (decide_git_suffix env output_dir limit root rel f git_file H1 Hg He) as Hd.
  split.
  - intros st. by rewrite extract_file_perform, Hd.
  - apply (skipped_of_visit _ _ _ _ _ _ (root, rel, f)); [done|].
    unfold visit_decision, visit_path. simpl. rewrite Hd.
    by apply list_elem_of_singleton.
Qed.

(** C7 (amended). A file none of whose path components is [.git] or
    [.github] and whose lowercased extension is in the denylist takes the
    extension branch whatever its bytes: the record appended is its
    relative path with size 0, the counter updated is
    [skipped_by_extension], nothing is read or written, and the record is
    in the returned [skipped_files]. *)
Theorem binary_extension_skipped root rel f :
  (root, rel, f) ∈ walk_files repo_dir tree →
  has_component ".git" (OsPath.join root (f_name f)) = false →
  has_component ".github" (OsPath.join root (f_name f)) = false →
  file_extension (f_name f) ∈ binary_extensions →
  (∀ st, extract_file env output_dir limit root rel f st
         = skip_extension (rel_path_of rel (f_name f)) st)
  ∧ (rel_path_of rel (f_name f), 0%Z) ∈ skipped_files run.
Proof.
  intros Hv H1 H2 H3.
  pose proof (decide_extension env output_dir limit root rel f H1 H2 H3) as Hd.
  split.
  - intros st. by rewrite extract_file_perform, Hd.
  - apply (skipped_of_visit _ _ _ _ _ _ (root, rel, f)); [done|].
    unfold visit_decision, visit_path. simpl. rewrite Hd.
    by apply list_elem_of_singleton.
Qed.

(** C1 (amended). A file that passes the three git tests and the
    extension test, whose size can be read and strictly exceeds
    [max_size_mb] MiB, takes the oversized branch whatever its content:
    the record appended is its relative path with its true size, the
    counter updated is [skipped_by_size], and the record is in the
    returned [skipped_files]. *)
Theorem oversized_file_skipped root rel f file_size :
  (root, rel, f) ∈ walk_files repo_dir tree →
  has_component ".git" (OsPath.join root (f_name f)) = false →
  is_git_related (f_name f) (rel_path_of rel (f_name f)) = false →
  has_component ".github" (OsPath.join root (f_name f)) = false →
  file_extension (f_name f) ∉ binary_extensions →
  st_size f = Some file_size →
  (file_size > limit)%Z →
  (∀ st, extract_file env output_dir limit root rel f st
         = skip_size (rel_path_of rel (f_name f)) file_size st)
  ∧ (rel_path_of rel (f_name f), file_size) ∈ skipped_files run.
Proof.
  intros Hv H1 H2 H3 H4 H5 H6.
  pose proof (decide_oversized env output_dir _ root rel f file_size H1 H2 H3 H4 H5 H6) as Hd.
  split.
  - intros st. by rewrite extract_file_perform, Hd.
  - apply (skipped_of_visit _ _ _ _ _ _ (root, rel, f)); [done|].
    unfold visit_decision, visit_path. simpl. rewrite Hd.
    by apply list_elem_of_singleton.
Qed.


End Extraction.

Lemma git_suffix_skipped_witness :
  Str.endswith "XCODEOWNERS" "CODEOWNERS" = true
  ∧ ("XCODEOWNERS" ∉ git_related_files)
  ∧ (∀ st, extract_file sample_env "/out/code_files" (15 * 1024 * 1024)
             "/tmp/ws" [] xcodeowners st
           = skip_git "XCODEOWNERS" st)
  ∧ ("XCODEOWNERS", 0%Z)
    ∈ skipped_files (extract_code_files sample_env "/tmp/ws" [File xcodeowners]
                       "/out/code_files" 15 empty_world).
Proof.
  split; [reflexivity|]. split.
  { refuted_by_evaluation ("XCODEOWNERS" ∈ git_related_files). }
  apply (git_suffix_skipped sample_env "/tmp/ws" [File xcodeowners]
           "/out/code_files" 15 empty_world "/tmp/ws" [] xcodeowners "CODEOWNERS").
  - first_visit.
  - reflexivity.
  - by_evaluation ("CODEOWNERS" ∈ git_related_files).
  - reflexivity.
Defined.

(** The same for [docs/notes.mailmap]. *)
Example notes_mailmap_skipped :
  skipped_files (extract_code_files sample_env "/tmp/ws" [Dir "docs" [File notes_mailmap]]
                   "/out/code_files" 15 empty_world) = [("docs/notes.mailmap", 0%Z)]
  ∧ skipped_git_files (extract_code_files sample_env "/tmp/ws" [Dir "docs" [File notes_mailmap]]
                         "/out/code_files" 15 empty_world) = 1%Z.
Proof. split; reflexivity. Qed.

(** C10 (as stated) fails: the relative path of [.git/XCODEOWNERS] ends
    with [CODEOWNERS], yet the file is passed over before the git-related
    test: nothing is recorded and [skipped_git_files] stays 0. *)
Lemma git_dir_codeowners_counterexample :
  ("/tmp/ws/.git", [".git"], xcodeowners)
    ∈ walk_files "/tmp/ws" [Dir ".git" [File xcodeowners]]
  ∧ Str.endswith (rel_path_of [".git"] (f_name xcodeowners)) "CODEOWNERS" = true
  ∧ skipped_files (extract_code_files sample_env "/tmp/ws" [Dir ".git" [File xcodeowners]]
                     "/out/code_files" 15 empty_world) = []
  ∧ skipped_git_files (extract_code_files sample_env "/tmp/ws" [Dir ".git" [File xcodeowners]]
                         "/out/code_files" 15 empty_world) = 0%Z.
Proof.
  repeat split; try reflexivity. first_visit.
Qed.

Lemma binary_extension_skipped_witness :
  Str.utf8_valid "text" = true
  ∧ (∀ st, extract_file sample_env "/out/code_files" (15 * 1024 * 1024)
             "/tmp/ws/docs" ["docs"] plain_png st
           = skip_extension "docs/diagram.PNG" st)
  ∧ ("docs/diagram.PNG", 0%Z)
    ∈ skipped_files (extract_code_files sample_env "/tmp/ws" [Dir "docs" [File plain_png]]
                       "/out/code_files" 15 empty_world).
Proof.
  split; [reflexivity|].
  apply (binary_extension_skipped sample_env "/tmp/ws" [Dir "docs" [File plain_png]]
           "/out/code_files" 15 empty_world "/tmp/ws/docs" ["docs"] plain_png).
  - first_visit.
  - reflexivity.
  - reflexivity.
  - by_evaluation (file_extension (f_name plain_png) ∈ binary_extensions).
Defined.

(** C7 (as stated) fails: [logo.png] in a [.github] directory has a
    denylisted extension, yet its record is appended by the git branch:
    [skipped_git_files] is 1 and [skipped_by_extension] stays 0. *)
Lemma github_png_counterexample :
  ("/tmp/ws/.github", [".github"], github_png)
    ∈ walk_files "/tmp/ws" [Dir ".github" [File github_png]]
  ∧ file_extension (f_name github_png) ∈ binary_extensions
  ∧ skipped_files (extract_code_files sample_env "/tmp/ws" [Dir ".github" [File github_png]]
                     "/out/code_files" 15 empty_world) = [(".github/logo.png", 0%Z)]
  ∧ skipped_git_files (extract_code_files sample_env "/tmp/ws" [Dir ".github" [File github_png]]
                         "/out/code_files" 15 empty_world) = 1%Z
  ∧ skipped_by_extension (extract_code_files sample_env "/tmp/ws" [Dir ".github" [File github_png]]
                            "/out/code_files" 15 empty_world) = 0%Z.
Proof.
  repeat split; try reflexivity.
  - first_visit.
  - by_evaluation (file_extension (f_name github_png) ∈ binary_extensions).
Qed.

Lemma oversized_file_skipped_witness :
  (∀ st, extract_file sample_env "/out/code_files" (15 * 1024 * 1024)
           "/tmp/ws" [] huge_txt st
         = skip_size "huge.txt" (mib15 + 1) st)
  ∧ ("huge.txt", (mib15 + 1)%Z)
    ∈ skipped_files (extract_code_files sample_env "/tmp/ws" [File huge_txt]
                       "/out/code_files" 15 empty_world).
Proof.
  apply (oversized_file_skipped sample_env "/tmp/ws" [File huge_txt]
           "/out/code_files" 15 empty_world "/tmp/ws" [] huge_txt (mib15 + 1)).
  - first_visit.
  - reflexivity.
  - reflexivity.
  - reflexivity.
  - refuted_by_evaluation (file_extension (f_name huge_txt) ∈ binary_extensions).
  - reflexivity.
  - reflexivity.
Defined.

(** C1 (as stated) fails: a file named [big.png] of 15 MiB + 1 bytes is
    visited and exceeds the limit, yet the only record is [("big.png", 0)],
    appended by the extension branch; [skipped_by_size] stays 0. *)
Lemma oversized_png_counterexample :
  ("/tmp/ws", [], big_png) ∈ walk_files "/tmp/ws" [File big_png]
  ∧ st_size big_png = Some (mib15 + 1)%Z
  ∧ (mib15 + 1 > 15 * 1024 * 1024)%Z
  ∧ (("big.png", (mib15 + 1)%Z)
     ∉ skipped_files (extract_code_files sample_env "/tmp/ws" [File big_png]
                        "/out/code_files" 15 empty_world))
  ∧ skipped_files (extract_code_files sample_env "/tmp/ws" [File big_png]
                     "/out/code_files" 15 empty_world) = [("big.png", 0%Z)]
  ∧ skipped_by_size (extract_code_files sample_env "/tmp/ws" [File big_png]
                       "/out/code_files" 15 empty_world) = 0%Z
  ∧ skipped_by_extension (extract_code_files sample_env "/tmp/ws" [File big_png]
                            "/out/code_files" 15 empty_world) = 1%Z.
Proof.
  assert (skipped_files (extract_code_files sample_env "/tmp/ws" [File big_png]
                           "/out/code_files" 15 empty_world) = [("big.png", 0%Z)])
    as Hs by reflexivity.
  repeat split; try reflexivity.
  - first_visit.
  - rewrite Hs. intros H%list_elem_of_singleton. discriminate H.
Qed.


(** The hypotheses of the partition are needed: a regular file named
    [.git] at the top of the workspace (the link file of a submodule or
    of a linked work tree) and a file that cannot be opened lie beneath
    no [.git] directory, yet neither is in either list. *)
Lemma dot_git_file_counterexample :
  in_tree [] dot_git_file [File dot_git_file; File locked_txt]
  ∧ in_tree [] locked_txt [File dot_git_file; File locked_txt]
  ∧ (".git" ∉ Str.split Str.slash "/tmp/ws" ++ [])
  ∧ (rel_path_of [] (f_name dot_git_file)
     ∉ processed_files (extract_code_files sample_env "/tmp/ws"
                          [File dot_git_file; File locked_txt]
                          "/out/code_files" 15 empty_world)
       ++ map fst (skipped_files (extract_code_files sample_env "/tmp/ws"
                                    [File dot_git_file; File locked_txt]
                                    "/out/code_files" 15 empty_world)))
  ∧ (rel_path_of [] (f_name locked_txt)
     ∉ processed_files (extract_code_files sample_env "/tmp/ws"
                          [File dot_git_file; File locked_txt]
                          "/out/code_files" 15 empty_world)
       ++ map fst (skipped_files (extract_code_files sample_env "/tmp/ws"
                                    [File dot_git_file; File locked_txt]
                                    "/out/code_files" 15 empty_world))).
Proof.
  assert (processed_files (extract_code_files sample_env "/tmp/ws"
                             [File dot_git_file; File locked_txt]
                             "/out/code_files" 15 empty_world)
          ++ map fst (skipped_files (extract_code_files sample_env "/tmp/ws"
                                       [File dot_git_file; File locked_txt]
                                       "/out/code_files" 15 empty_world)) = []) as ->
    by reflexivity.
  split; [constructor; by left|].
  split; [constructor; right; by left|].
  split; [refuted_by_evaluation (".git" ∈ Str.split Str.slash "/tmp/ws" ++ [])|].
  split; apply not_elem_of_nil.
Qed.

(** C4 (the code at a failing input).  The workspace [tree_errors] holds
    five regular files at its top, none of them beneath a [.git]
    component, and the run can open every output file but that of
    [denied.txt].  The file whose size cannot be read is recorded as
    skipped and [ok.txt] as processed; the file that cannot be opened,
    the file whose output file cannot be opened and the file whose name
    cannot be encoded are in neither list, so the union of the two
    lists is not the set of regular files.  The last of them leaves an
    empty output file behind. *)
Theorem extract_drops_failed_files :
  wf_tree tree_errors = true
  ∧ map visit_path (walk_files "/tmp/ws" tree_errors)
    = ["nosize.txt"; "locked.txt"; "denied.txt"; "caf" +:+ String "233"%char ".txt";
       "ok.txt"]
  ∧ Forall (fun f => in_tree [] f tree_errors
                     ∧ ".git" ∉ Str.split Str.slash "/tmp/ws" ++ [] ++ [f_name f])
           [locked_txt; denied_txt; cafe_txt]
  ∧ run_decisions denied_env "/tmp/ws" tree_errors "/out/code_files" 15
    = [SizeError; ReadError; OpenError; HeaderError; Processed "ok"]
  ∧ processed_files (extract_code_files denied_env "/tmp/ws" tree_errors
                       "/out/code_files" 15 empty_world)
    = ["ok.txt"]
  ∧ skipped_files (extract_code_files denied_env "/tmp/ws" tree_errors
                     "/out/code_files" 15 empty_world)
    = [("nosize.txt", 0%Z)]
  ∧ Forall (fun f =>
              rel_path_of [] (f_name f)
              ∉ processed_files (extract_code_files denied_env "/tmp/ws" tree_errors
                                   "/out/code_files" 15 empty_world)
                ++ map fst (skipped_files
                              (extract_code_files denied_env "/tmp/ws" tree_errors
                                 "/out/code_files" 15 empty_world)))
           [locked_txt; denied_txt; cafe_txt]
  ∧ fs_files (x_world (extract_code_files denied_env "/tmp/ws" tree_errors
                         "/out/code_files" 15 empty_world))
    = {[ "/out/code_files/ok.txt"
         := "// 文件路径: ok.txt" +:+ Str.nl +:+ "// 提取时间: 2024-05-01 10:00:00"
            +:+ Str.nl +:+ Str.nl +:+ "ok";
         "/out/code_files/caf" +:+ String "233"%char ".txt" := "" ]}.
Proof.
  split; [reflexivity|]. split; [reflexivity|]. split.
  { repeat apply Forall_cons_2; [| | |apply Forall_nil_2]; (split; [constructor|]).
    - right. by left.
    - refuted_by_evaluation
        (".git" ∈ Str.split Str.slash "/tmp/ws" ++ [] ++ [f_name locked_txt]).
    - right. right. by left.
    - refuted_by_evaluation
        (".git" ∈ Str.split Str.slash "/tmp/ws" ++ [] ++ [f_name denied_txt]).
    - right. right. right. by left.
    - refuted_by_evaluation
        (".git" ∈ Str.split Str.slash "/tmp/ws" ++ [] ++ [f_name cafe_txt]). }
  split; [reflexivity|].
  assert (processed_files (extract_code_files denied_env "/tmp/ws" tree_errors
                             "/out/code_files" 15 empty_world) = ["ok.txt"]) as Hp
    by reflexivity.
  assert (skipped_files (extract_code_files denied_env "/tmp/ws" tree_errors
                           "/out/code_files" 15 empty_world) = [("nosize.txt", 0%Z)])
    as Hs by reflexivity.
  split; [done|]. split; [done|]. split.
  - rewrite Hp, Hs.
    repeat apply Forall_cons_2; [| | |apply Forall_nil_2];
      (apply (bool_decide_eq_false_1 (_ ∈ _)); reflexivity).
  - vm_compute. reflexivity.
Qed.

(** ** Processed files and output names *)

Lemma safe_name_not_absolute p : Str.startswith_char Str.slash (safe_name p) = false.
Proof.
  destruct p as [|a p]; [done|]. unfold safe_name. simpl.
  destruct (Ascii.eqb_spec a Str.slash) as [->|Ha]; [done|].
  destruct (Ascii.eqb_spec a Str.backslash) as [->|Hb]; [done|].
  by apply Ascii.eqb_neq.
Qed.

Lemma join_safe_name_inj output_dir p q :
  OsPath.join output_dir (safe_name p) = OsPath.join output_dir (safe_name q) →
  safe_name p = safe_name q.
Proof.
  unfold OsPath.join. rewrite !safe_name_not_absolute.
  destruct (_ || _); intros H.
  - by apply (inj (String.app output_dir)) in H.
  - apply (inj (String.app output_dir)) in H. by apply (inj (String.app "/")) in H.
Qed.

(** A visit that does not write to an output name leaves the file of that
    name as it was. *)
Lemma files_visit_other env output_dir max_size_bytes q st v :
  (∀ content, visit_decision env output_dir max_size_bytes v = Processed content →
              safe_name (visit_path v) ≠ safe_name q) →
  Str.utf8_valid q = true →
  fs_files (x_world (extract_visit env output_dir max_size_bytes st v))
    !! OsPath.join output_dir (safe_name q)
  = fs_files (x_world st) !! OsPath.join output_dir (safe_name q).
Proof.
  intros Hother Hq. unfold extract_visit. rewrite extract_file_perform.
  fold (visit_path v). fold (visit_decision env output_dir max_size_bytes v).
  destruct (visit_decision env output_dir max_size_bytes v) eqn:Hd; try reflexivity.
  - cbn [perform]. rewrite emit_state. cbn [x_world fs_files].
    apply lookup_insert_ne. intros H. apply (Hother content eq_refl).
    by apply (join_safe_name_inj output_dir).
  - cbn [perform emit_nothing write_file x_world fs_files].
    apply lookup_insert_ne. intros H%join_safe_name_inj.
    apply decide_header_error_invalid in Hd. fold (visit_path v) in Hd.
    apply (f_equal Str.utf8_valid) in H. rewrite !utf8_valid_safe_name in H.
    congruence.
Qed.

Lemma files_fold_other env output_dir max_size_bytes q vs : ∀ st,
  (∀ v content, v ∈ vs → visit_decision env output_dir max_size_bytes v = Processed content →
                safe_name (visit_path v) ≠ safe_name q) →
  Str.utf8_valid q = true →
  fs_files (x_world (fold_left (extract_visit env output_dir max_size_bytes) vs st))
    !! OsPath.join output_dir (safe_name q)
  = fs_files (x_world st) !! OsPath.join output_dir (safe_name q).
Proof.
  induction vs as [|v vs IH]; intros st Hother Hq; [done|]. simpl.
  rewrite IH.
  - apply files_visit_other; [|done]. intros content. apply Hother. by left.
  - intros v' content Hv'. apply Hother. by right.
  - done.
Qed.

(** Each processed file reads the clock once; no other branch reads it. *)
Lemma clock_fold env output_dir max_size_bytes vs : ∀ st,
  clock (x_world (fold_left (extract_visit env output_dir max_size_bytes) vs st))
  = clock (x_world st)
    + length (flat_map (fun v => processed_of (visit_path v)
                                   (visit_decision env output_dir max_size_bytes v)) vs).
Proof.
  induction vs as [|v vs IH]; intros st; simpl; [lia|].
  rewrite IH, length_app. unfold extract_visit. rewrite extract_file_perform.
  fold (visit_path v). fold (visit_decision env output_dir max_size_bytes v).
  destruct (visit_decision env output_dir max_size_bytes v); cbn; lia.
Qed.

Lemma files_visit_processed env output_dir max_size_bytes st v content :
  visit_decision env output_dir max_size_bytes v = Processed content →
  fs_files (x_world (extract_visit env output_dir max_size_bytes st v))
    !! OsPath.join output_dir (safe_name (visit_path v))
  = Some (header (visit_path v) (now env (clock (x_world st))) +:+ content).
Proof.
  intros Hd. unfold extract_visit. rewrite extract_file_perform.
  fold (visit_path v). fold (visit_decision env output_dir max_size_bytes v). rewrite Hd.
  cbn [perform]. rewrite emit_state. cbn [x_world fs_files].
  apply lookup_insert_eq.
Qed.

(** C5 (amended). When the file at relative path [a/b/c.py] is
    processed with content [print(1)], it is appended to the processed
    list as [a/b/c.py], and its visit leaves the output file named
    [a_b_c.py] with exactly: the path line, the line of the time read at
    that visit (the reading of the clock that follows those of the files
    processed before), an empty line, then [print(1)] verbatim.  The
    file still holds this after the run when no file processed later
    flattens to the same name. *)
Theorem flattening_round_trip env repo_dir tree output_dir max_size_mb w
    before root f after :
  walk_files repo_dir tree = before ++ (root, ["a"; "b"], f) :: after →
  f_name f = "c.py" →
  visit_decision env output_dir (max_size_mb * 1024 * 1024) (root, ["a"; "b"], f)
  = Processed "print(1)" →
  "a/b/c.py"
  ∈ processed_files (extract_code_files env repo_dir tree output_dir max_size_mb w)
  ∧ fs_files
      (x_world
         (fold_left (extract_visit env output_dir (max_size_mb * 1024 * 1024))
            (before ++ [(root, ["a"; "b"], f)])
            (initial_state (makedirs output_dir w))))
      !! OsPath.join output_dir "a_b_c.py"
    = Some ("// 文件路径: a/b/c.py" +:+ Str.nl
            +:+ "// 提取时间: "
            +:+ now env
                  (clock w
                   + length
                       (processed_files
                          (fold_left
                             (extract_visit env output_dir (max_size_mb * 1024 * 1024))
                             before (initial_state (makedirs output_dir w)))))
            +:+ Str.nl +:+ Str.nl
            +:+ "print(1)")
  ∧ ((∀ v content,
        v ∈ after →
        visit_decision env output_dir (max_size_mb * 1024 * 1024) v
        = Processed content →
        safe_name (visit_path v) ≠ "a_b_c.py") →
     fs_files (x_world (extract_code_files env repo_dir tree output_dir max_size_mb w))
       !! OsPath.join output_dir "a_b_c.py"
     = Some ("// 文件路径: a/b/c.py" +:+ Str.nl
             +:+ "// 提取时间: "
             +:+ now env
                   (clock w
                    + length
                        (processed_files
                           (fold_left
                              (extract_visit env output_dir (max_size_mb * 1024 * 1024))
                              before (initial_state (makedirs output_dir w)))))
             +:+ Str.nl +:+ Str.nl
             +:+ "print(1)")).
Proof.
  intros Hwalk Hname Hd.
  assert (visit_path (root, ["a"; "b"], f) = "a/b/c.py") as Hpath.
  { unfold visit_path. cbn [fst snd]. by rewrite Hname. }
  assert (∀ st,
    clock (x_world (fold_left (extract_visit env output_dir (max_size_mb * 1024 * 1024))
                      before st))
    = clock (x_world st)
      + length (processed_files
                  (fold_left (extract_visit env output_dir (max_size_mb * 1024 * 1024))
                     before st))
      - length (processed_files st)) as Hclock.
  { intros st. rewrite clock_fold, processed_fold, length_app. lia. }
  assert (fs_files
            (x_world
               (fold_left (extract_visit env output_dir (max_size_mb * 1024 * 1024))
                  (before ++ [(root, ["a"; "b"], f)])
                  (initial_state (makedirs output_dir w))))
            !! OsPath.join output_dir "a_b_c.py"
          = Some ("// 文件路径: a/b/c.py" +:+ Str.nl
                  +:+ "// 提取时间: "
                  +:+ now env
                        (clock w
                         + length
                             (processed_files
                                (fold_left
                                   (extract_visit env output_dir
                                      (max_size_mb * 1024 * 1024))
                                   before (initial_state (makedirs output_dir w)))))
                  +:+ Str.nl +:+ Str.nl
                  +:+ "print(1)")) as Hvisit.
  { rewrite fold_left_app. cbn [fold_left].
    change "a_b_c.py" with (safe_name "a/b/c.py"). rewrite <- Hpath.
    rewrite (files_visit_processed _ _ _ _ _ "print(1)") by done.
    rewrite Hpath, Hclock. cbn [initial_state x_world processed_files makedirs clock length].
    rewrite Nat.sub_0_r. unfold header. by rewrite !str_app_assoc. }
  split; [|split].
  - apply (processed_of_visit _ _ _ _ _ _ (root, ["a"; "b"], f)).
    + rewrite Hwalk. apply elem_of_app. right. by left.
    + rewrite Hd, Hpath. by apply list_elem_of_singleton.
  - done.
  - intros Hafter. rewrite <- Hvisit.
    rewrite extract_code_files_fold, Hwalk.
    rewrite (cons_middle _ before after), app_assoc, fold_left_app.
    change "a_b_c.py" with (safe_name "a/b/c.py").
    apply files_fold_other; [|done].
    intros v content Hv Hdv. by apply (Hafter v content).
Qed.

Lemma flattening_round_trip_witness :
  "a/b/c.py"
  ∈ processed_files (extract_code_files sample_env "/tmp/ws" tree_abc
                       "/out/code_files" 15 empty_world)
  ∧ fs_files
      (x_world
         (fold_left (extract_visit sample_env "/out/code_files" (15 * 1024 * 1024))
            ([] ++ [("/tmp/ws/a/b", ["a"; "b"], c_py)])
            (initial_state (makedirs "/out/code_files" empty_world))))
      !! OsPath.join "/out/code_files" "a_b_c.py"
    = Some ("// 文件路径: a/b/c.py" +:+ Str.nl
            +:+ "// 提取时间: "
            +:+ now sample_env
                  (clock empty_world
                   + length
                       (processed_files
                          (fold_left
                             (extract_visit sample_env "/out/code_files"
                                (15 * 1024 * 1024))
                             [] (initial_state (makedirs "/out/code_files" empty_world)))))
            +:+ Str.nl +:+ Str.nl
            +:+ "print(1)")
  ∧ ((∀ v content,
        v ∈ [] →
        visit_decision sample_env "/out/code_files" (15 * 1024 * 1024) v
        = Processed content →
        safe_name (visit_path v) ≠ "a_b_c.py") →
     fs_files (x_world (extract_code_files sample_env "/tmp/ws" tree_abc
                          "/out/code_files" 15 empty_world))
       !! OsPath.join "/out/code_files" "a_b_c.py"
     = Some ("// 文件路径: a/b/c.py" +:+ Str.nl
             +:+ "// 提取时间: "
             +:+ now sample_env
                   (clock empty_world
                    + length
                        (processed_files
                           (fold_left
                              (extract_visit sample_env "/out/code_files"
                                 (15 * 1024 * 1024))
                              [] (initial_state (makedirs "/out/code_files" empty_world)))))
             +:+ Str.nl +:+ Str.nl
             +:+ "print(1)")).
Proof.
  apply (flattening_round_trip sample_env "/tmp/ws" tree_abc "/out/code_files" 15
           empty_world [] "/tmp/ws/a/b" c_py []).
  - reflexivity.
  - reflexivity.
  - reflexivity.
Defined.

(** C5 (as stated) fails: in a workspace that holds [a/b/c.py] with
    content [print(1)] and [a_b/c.py] with content [print(2)], both are
    processed and both flatten to [a_b_c.py]; after the run that file
    names [a_b/c.py] and holds [print(2)]. *)
Lemma flattening_overwritten_counterexample :
  ("/tmp/ws/a/b", ["a"; "b"], c_py) ∈ walk_files "/tmp/ws" tree_overwritten
  ∧ visit_decision sample_env "/out/code_files" (15 * 1024 * 1024)
      ("/tmp/ws/a/b", ["a"; "b"], c_py)
    = Processed "print(1)"
  ∧ processed_files (extract_code_files sample_env "/tmp/ws" tree_overwritten
                       "/out/code_files" 15 empty_world)
    = ["a/b/c.py"; "a_b/c.py"]
  ∧ fs_files (x_world (extract_code_files sample_env "/tmp/ws" tree_overwritten
                         "/out/code_files" 15 empty_world))
    = {[ "/out/code_files/a_b_c.py" :=
           "// 文件路径: a_b/c.py" +:+ Str.nl
           +:+ "// 提取时间: 2024-05-01 10:00:01" +:+ Str.nl +:+ Str.nl
           +:+ "print(2)" ]}
  ∧ (∀ time,
       fs_files (x_world (extract_code_files sample_env "/tmp/ws" tree_overwritten
                            "/out/code_files" 15 empty_world))
         !! "/out/code_files/a_b_c.py"
       ≠ Some ("// 文件路径: a/b/c.py" +:+ Str.nl
               +:+ "// 提取时间: " +:+ time +:+ Str.nl +:+ Str.nl
               +:+ "print(1)")).
Proof.
  assert (fs_files (x_world (extract_code_files sample_env "/tmp/ws" tree_overwritten
                               "/out/code_files" 15 empty_world))
          = {[ "/out/code_files/a_b_c.py" :=
                 "// 文件路径: a_b/c.py" +:+ Str.nl
                 +:+ "// 提取时间: 2024-05-01 10:00:01" +:+ Str.nl +:+ Str.nl
                 +:+ "print(2)" ]}) as Hfiles.
  { vm_compute. reflexivity. }
  split; [first_visit|]. split; [reflexivity|]. split; [reflexivity|].
  split; [done|].
  intros time. rewrite Hfiles, lookup_singleton_eq. by intros [= H].
Qed.

(** The flattening example: for the workspace that holds only [a/b/c.py]
    with content [print(1)], in a workspace directory without [.git] or
    [.github] component and with a limit of at least one MiB, the
    extraction writes one file, named [a_b_c.py] in the output directory:
    the path line, the time line closed by an empty line, then
    [print(1)]; the processed list is [a/b/c.py] and nothing is
    skipped. *)
Lemma flattening_example env repo_dir output_dir max_size_mb w :
  has_component ".git" repo_dir = false →
  has_component ".github" repo_dir = false →
  (1 <= max_size_mb)%Z →
  can_open env (OsPath.join output_dir "a_b_c.py") = true →
  fs_files (x_world (extract_code_files env repo_dir tree_abc output_dir max_size_mb w))
  = <[OsPath.join output_dir "a_b_c.py" :=
        "// 文件路径: a/b/c.py" +:+ Str.nl
        +:+ "// 提取时间: " +:+ now env (clock w) +:+ Str.nl +:+ Str.nl
        +:+ "print(1)"]> (fs_files w)
  ∧ processed_files (extract_code_files env repo_dir tree_abc output_dir max_size_mb w)
    = ["a/b/c.py"]
  ∧ skipped_files (extract_code_files env repo_dir tree_abc output_dir max_size_mb w)
    = [].
Proof.
  intros Hgit Hhub Hmax Hopen. rewrite extract_code_files_fold.
  change (walk_files repo_dir tree_abc)
    with [(OsPath.join (OsPath.join repo_dir "a") "b", ["a"; "b"], c_py)].
  cbn [fold_left]. unfold extract_visit. cbn [fst snd].
  rewrite extract_file_perform.
  rewrite (decide_processed env output_dir _ _ _ c_py 8%Z "print(1)");
    try reflexivity; try lia; try done.
  - cbn [perform]. rewrite emit_state. cbn. unfold header.
    by rewrite !str_app_assoc.
  - by rewrite !has_component_join, Hgit.
  - by rewrite !has_component_join, Hhub.
Qed.

(** C6. When two visited files are both processed and their relative
    paths flatten to the same name, the two writes go to one output file;
    after the run (no later processed file flattening to that name) it
    holds the header and the content of the one visited later, and both
    relative paths are in the processed list. *)
Theorem name_collision_overwrites env repo_dir tree output_dir max_size_mb w
    before v1 between v2 after content1 content2 :
  walk_files repo_dir tree = before ++ v1 :: between ++ v2 :: after →
  visit_decision env output_dir (max_size_mb * 1024 * 1024) v1 = Processed content1 →
  visit_decision env output_dir (max_size_mb * 1024 * 1024) v2 = Processed content2 →
  safe_name (visit_path v1) = safe_name (visit_path v2) →
  (∀ v content,
     v ∈ after →
     visit_decision env output_dir (max_size_mb * 1024 * 1024) v = Processed content →
     safe_name (visit_path v) ≠ safe_name (visit_path v2)) →
  OsPath.join output_dir (safe_name (visit_path v1))
  = OsPath.join output_dir (safe_name (visit_path v2))
  ∧ (∃ k,
       fs_files (x_world (extract_code_files env repo_dir tree output_dir max_size_mb w))
         !! OsPath.join output_dir (safe_name (visit_path v2))
       = Some (header (visit_path v2) (now env k) +:+ content2))
  ∧ visit_path v1
    ∈ processed_files (extract_code_files env repo_dir tree output_dir max_size_mb w)
  ∧ visit_path v2
    ∈ processed_files (extract_code_files env repo_dir tree output_dir max_size_mb w).
Proof.
  intros Hwalk Hd1 Hd2 Hname Hafter. split; [by rewrite Hname|]. split; [|split].
  - rewrite extract_code_files_fold, Hwalk.
    rewrite app_comm_cons, app_assoc, fold_left_app. cbn [fold_left].
    eexists. rewrite files_fold_other.
    + by apply files_visit_processed.
    + done.
    + by apply decide_processed_valid in Hd2.
  - apply (processed_of_visit _ _ _ _ _ _ v1).
    + rewrite Hwalk. apply elem_of_app. right. by left.
    + rewrite Hd1. by apply list_elem_of_singleton.
  - apply (processed_of_visit _ _ _ _ _ _ v2).
    + rewrite Hwalk. apply elem_of_app. right. right. apply elem_of_app. right. by left.
    + rewrite Hd2. by apply list_elem_of_singleton.
Qed.

Lemma name_collision_overwrites_witness :
  OsPath.join "/out/code_files" (safe_name "x_y.py")
  = OsPath.join "/out/code_files" (safe_name "x/y.py")
  ∧ (∃ k,
       fs_files (x_world (extract_code_files sample_env "/tmp/ws"
                            (tree_collision 5 6 "first" "second")
                            "/out/code_files" 15 empty_world))
         !! OsPath.join "/out/code_files" (safe_name "x/y.py")
       = Some (header "x/y.py" (now sample_env k) +:+ "second"))
  ∧ "x_y.py"
    ∈ processed_files (extract_code_files sample_env "/tmp/ws"
                         (tree_collision 5 6 "first" "second")
                         "/out/code_files" 15 empty_world)
  ∧ "x/y.py"
    ∈ processed_files (extract_code_files sample_env "/tmp/ws"
                         (tree_collision 5 6 "first" "second")
                         "/out/code_files" 15 empty_world).
Proof.
  apply (name_collision_overwrites sample_env "/tmp/ws"
           (tree_collision 5 6 "first" "second") "/out/code_files" 15 empty_world
           [] ("/tmp/ws", [], mk_file "x_y.py" (Some 5%Z) (Some "first"))
           [] ("/tmp/ws/x", ["x"], mk_file "y.py" (Some 6%Z) (Some "second"))
           [] "first" "second").
  - reflexivity.
  - reflexivity.
  - reflexivity.
  - reflexivity.
  - intros v content Hv. by apply elem_of_nil in Hv.
Defined.

(** The two files of the collision example are both processed, the one at
    the top first, whatever the listing order. *)
Lemma collision_run env repo_dir output_dir max_size_mb w
    size1 size2 content1 content2 tree :
  tree = tree_collision size1 size2 content1 content2
  ∨ tree = tree_collision' size1 size2 content1 content2 →
  has_component ".git" repo_dir = false →
  has_component ".github" repo_dir = false →
  (size1 <= max_size_mb * 1024 * 1024)%Z →
  (size2 <= max_size_mb * 1024 * 1024)%Z →
  Str.utf8_valid content1 = true →
  Str.utf8_valid content2 = true →
  can_open env (OsPath.join output_dir "x_y.py") = true →
  extract_code_files env repo_dir tree output_dir max_size_mb w
  = emit env (OsPath.join output_dir "x_y.py") "x/y.py" content2
      (emit env (OsPath.join output_dir "x_y.py") "x_y.py" content1
         (initial_state (makedirs output_dir w))).
Proof.
  intros Htree Hgit Hhub Hs1 Hs2 Hc1 Hc2 Hopen. rewrite extract_code_files_fold.
  assert (walk_files repo_dir tree
          = [(repo_dir, [], mk_file "x_y.py" (Some size1) (Some content1));
             (OsPath.join repo_dir "x", ["x"],
              mk_file "y.py" (Some size2) (Some content2))]) as ->.
  { by destruct Htree as [-> | ->]. }
  cbn [fold_left]. unfold extract_visit. cbn [fst snd].
  rewrite !extract_file_perform.
  rewrite (decide_processed env output_dir _ repo_dir [] _ size1 content1),
          (decide_processed env output_dir _ (OsPath.join repo_dir "x") ["x"] _ size2 content2);
    try reflexivity; try done; cbn [f_name].
  - by rewrite !has_component_join, Hgit.
  - by rewrite !has_component_join, Hhub.
  - by rewrite !has_component_join, Hgit.
  - by rewrite !has_component_join, Hhub.
Qed.

(** The collision example: with [x_y.py] and [x/y.py] both present and
    processable, in either listing order, the output directory gains the
    one file [x_y.py]; what was written for [x_y.py] is overwritten by the
    header and content of [x/y.py], and both paths are in the processed
    list. *)
Lemma collision_example env repo_dir output_dir max_size_mb w
    size1 size2 content1 content2 tree :
  tree = tree_collision size1 size2 content1 content2
  ∨ tree = tree_collision' size1 size2 content1 content2 →
  has_component ".git" repo_dir = false →
  has_component ".github" repo_dir = false →
  (size1 <= max_size_mb * 1024 * 1024)%Z →
  (size2 <= max_size_mb * 1024 * 1024)%Z →
  Str.utf8_valid content1 = true →
  Str.utf8_valid content2 = true →
  can_open env (OsPath.join output_dir "x_y.py") = true →
  safe_name "x_y.py" = "x_y.py" ∧ safe_name "x/y.py" = "x_y.py"
  ∧ processed_files (extract_code_files env repo_dir tree output_dir max_size_mb w)
    = ["x_y.py"; "x/y.py"]
  ∧ fs_files (x_world (extract_code_files env repo_dir tree output_dir max_size_mb w))
    = <[OsPath.join output_dir "x_y.py" :=
          header "x/y.py" (now env (S (clock w))) +:+ content2]>
        (<[OsPath.join output_dir "x_y.py" :=
             header "x_y.py" (now env (clock w)) +:+ content1]> (fs_files w))
  ∧ fs_files (x_world (extract_code_files env repo_dir tree output_dir max_size_mb w))
    = <[OsPath.join output_dir "x_y.py" :=
          header "x/y.py" (now env (S (clock w))) +:+ content2]> (fs_files w).
Proof.
  intros Htree Hgit Hhub Hs1 Hs2 Hc1 Hc2 Hopen.
  rewrite (collision_run env repo_dir output_dir max_size_mb w
             size1 size2 content1 content2 tree) by done.
  rewrite !emit_state. cbn.
  repeat split; try reflexivity. by rewrite insert_insert_eq.
Qed.

(** ** The structure report *)




(** What one run writes, and what it does to the clock. *)
Lemma structure_report_written env repo_dir tree output_file w :
  fs_files (generate_file_structure env repo_dir tree output_file w) !! output_file
  = Some (structure_title +:+ structure_stamp (now env (clock w))
          +:+ structure_listing repo_dir tree)
  ∧ clock (generate_file_structure env repo_dir tree output_file w) = S (clock w).
Proof.
  unfold generate_file_structure, write_file, tick. cbn [fs_files clock].
  by rewrite lookup_insert_eq.
Qed.

(** Two reports with the same listing are equal only if they carry the
    same time. *)
Lemma structure_text_inj time1 time2 listing :
  structure_title +:+ structure_stamp time1 +:+ listing
  = structure_title +:+ structure_stamp time2 +:+ listing →
  time1 = time2.
Proof.
  intros H. apply (inj (String.app structure_title)) in H.
  apply str_app_inv_tail in H. unfold structure_stamp in H.
  apply (inj (String.app "生成时间: ")) in H.
  by apply str_app_inv_tail in H.
Qed.

(** C2 (amended). Two runs of the structure report over the same tree
    write the title line, the line with the time of the run, and the same
    listing; the two files are byte-identical exactly when the clock,
    read to the second, shows the same time at both runs. *)
Theorem structure_report_twice env repo_dir tree file1 file2 w :
  fs_files (generate_file_structure env repo_dir tree file1 w) !! file1
  = Some (structure_title +:+ structure_stamp (now env (clock w))
          +:+ structure_listing repo_dir tree)
  ∧ fs_files (generate_file_structure env repo_dir tree file2
                (generate_file_structure env repo_dir tree file1 w)) !! file2
    = Some (structure_title +:+ structure_stamp (now env (S (clock w)))
            +:+ structure_listing repo_dir tree)
  ∧ (fs_files (generate_file_structure env repo_dir tree file1 w) !! file1
     = fs_files (generate_file_structure env repo_dir tree file2
                   (generate_file_structure env repo_dir tree file1 w)) !! file2
     ↔ now env (clock w) = now env (S (clock w))).
Proof.
  destruct (structure_report_written env repo_dir tree file1 w) as [H1 Hc].
  destruct (structure_report_written env repo_dir tree file2
              (generate_file_structure env repo_dir tree file1 w)) as [H2 _].
  rewrite Hc in H2. rewrite H1, H2. split; [done|]. split; [done|]. split.
  - intros H. apply (inj Some) in H. by apply structure_text_inj in H.
  - by intros ->.
Qed.

(** C2 (as stated) fails: with a clock that advances between the runs,
    the two reports of the same tree differ. *)
Lemma structure_report_counterexample :
  fs_files (generate_file_structure sample_env "/tmp/ws" tree1 "/out/s1.txt" empty_world)
    !! "/out/s1.txt"
  ≠ fs_files (generate_file_structure sample_env "/tmp/ws" tree1 "/out/s2.txt"
               (generate_file_structure sample_env "/tmp/ws" tree1 "/out/s1.txt"
                  empty_world))
    !! "/out/s2.txt".
Proof.
  destruct (structure_report_written sample_env "/tmp/ws" tree1 "/out/s1.txt"
              empty_world) as [H1 Hc].
  destruct (structure_report_written sample_env "/tmp/ws" tree1 "/out/s2.txt"
              (generate_file_structure sample_env "/tmp/ws" tree1 "/out/s1.txt"
                 empty_world)) as [H2 _].
  rewrite H1, H2, Hc. intros H. apply (inj Some), structure_text_inj in H.
  vm_compute in H. discriminate H.
Qed.

(** The report of the sample workspace. *)
Example structure_listing_tree1 :
  structure_listing "/tmp/ws" tree1
  = "  .gitignore" +:+ Str.nl
    +:+ "  README.md" +:+ Str.nl
    +:+ "  a/" +:+ Str.nl
    +:+ "    big.png" +:+ Str.nl
    +:+ "    huge.txt" +:+ Str.nl
    +:+ "    b/" +:+ Str.nl
    +:+ "      c.py" +:+ Str.nl
    +:+ "  .git/" +:+ Str.nl
    +:+ "    HEAD" +:+ Str.nl.
Proof. reflexivity. Qed.

(** ** The summary *)

(** The four numbers always add up to the number of skipped records. *)
Lemma summary_breakdown_total skipped git_files max_size_mb :
  (b_git (summary_breakdown skipped git_files max_size_mb)
   + b_extension (summary_breakdown skipped git_files max_size_mb)
   + b_size (summary_breakdown skipped git_files max_size_mb)
   + b_others (summary_breakdown skipped git_files max_size_mb)
   = Z.of_nat (length skipped))%Z.
Proof. unfold summary_breakdown. simpl. lia. Qed.

(** C3 (the code at the failing input). For a work tree that holds only
    [.gitignore], the extraction counts one git-related skip and nothing
    else, but the summary shows 1 git-related, 1 by extension, 0 oversized
    and -1 for decode errors. *)
Theorem summary_gitignore_breakdown :
  skipped_files (extract_code_files gitignore_env "/tmp/tmpabc" [File gitignore]
                   "/out/repo/code_files" 15 empty_world) = [(".gitignore", 0%Z)]
  ∧ skipped_git_files (extract_code_files gitignore_env "/tmp/tmpabc" [File gitignore]
                         "/out/repo/code_files" 15 empty_world) = 1%Z
  ∧ skipped_by_extension (extract_code_files gitignore_env "/tmp/tmpabc" [File gitignore]
                            "/out/repo/code_files" 15 empty_world) = 0%Z
  ∧ skipped_by_size (extract_code_files gitignore_env "/tmp/tmpabc" [File gitignore]
                       "/out/repo/code_files" 15 empty_world) = 0%Z
  ∧ skipped_by_decode_error (extract_code_files gitignore_env "/tmp/tmpabc" [File gitignore]
                               "/out/repo/code_files" 15 empty_world) = 0%Z
  ∧ summary_breakdown [(".gitignore", 0%Z)] 1 15 = mk_breakdown 1 1 0 (-1)
  ∧ fs_files (process_repository gitignore_env "https://github.com/o/repo.git" "/out"
                empty_world)
      !! "/out/repo/repo_processing_summary.txt"
    = Some (summary_text gitignore_env "repo" "https://github.com/o/repo.git" 0 2
              [] [(".gitignore", 0%Z)] 1 15)
  ∧ Str.endswith
      (summary_text gitignore_env "repo" "https://github.com/o/repo.git" 0 2
         [] [(".gitignore", 0%Z)] 1 15)
      ("  Git相关文件: 1个" +:+ Str.nl
       +:+ "  基于文件扩展名: 1个" +:+ Str.nl
       +:+ "  文件过大 (>15MB): 0个" +:+ Str.nl
       +:+ "  解码错误或其他原因: -1个" +:+ Str.nl +:+ Str.nl) = true.
Proof. repeat split; vm_compute; reflexivity. Qed.

(** ** Name derivation *)

Lemma get_repo_name_unfold env repo_url :
  get_repo_name_from_url env repo_url =
  if length (url_segments env repo_url) <? 2 then None
  else Some (strip_git_suffix (nth 1 (url_segments env repo_url) "")).
Proof. reflexivity. Qed.


(** C9. When the path of the URL has fewer than two segments, or its
    second segment without a trailing [.git] is empty, the derivation
    returns no name ([None] or the empty string) and the run ends there:
    the output tree is as before, no directory and no file is created.
    For every other URL the derived name is not empty. *)
Theorem invalid_url_skipped env repo_url output_base_dir w :
  (length (url_segments env repo_url) < 2
   ∨ strip_git_suffix (nth 1 (url_segments env repo_url) "") = "" →
   (get_repo_name_from_url env repo_url = None
    ∨ get_repo_name_from_url env repo_url = Some "")
   ∧ process_repository env repo_url output_base_dir w = tick w
   ∧ fs_dirs (process_repository env repo_url output_base_dir w) = fs_dirs w
   ∧ fs_files (process_repository env repo_url output_base_dir w) = fs_files w)
  ∧ (¬ (length (url_segments env repo_url) < 2
        ∨ strip_git_suffix (nth 1 (url_segments env repo_url) "") = "") →
     ∃ repo_name,
       get_repo_name_from_url env repo_url = Some repo_name
       ∧ repo_name = strip_git_suffix (nth 1 (url_segments env repo_url) "")
       ∧ repo_name ≠ "").
Proof.
  unfold process_repository. rewrite get_repo_name_unfold.
  destruct (Nat.ltb_spec (length (url_segments env repo_url)) 2) as [Hlt|Hge].
  - split; [|intros []; by left]. intros _. by repeat split; [left|..].
  - split.
    + intros [Hlt|Hname]; [lia|]. rewrite Hname. by repeat split; [right|..].
    + intros Hn. eexists. split; [done|]. split; [done|]. intros H. apply Hn. by right.
Qed.

Lemma invalid_url_skipped_witness :
  ((get_repo_name_from_url sample_env "https://github.com/owner" = None
    ∨ get_repo_name_from_url sample_env "https://github.com/owner" = Some "")
   ∧ process_repository sample_env "https://github.com/owner" "/out" empty_world
     = tick empty_world
   ∧ fs_dirs (process_repository sample_env "https://github.com/owner" "/out" empty_world)
     = fs_dirs empty_world
   ∧ fs_files (process_repository sample_env "https://github.com/owner" "/out" empty_world)
     = fs_files empty_world)
  ∧ ((get_repo_name_from_url sample_env "https://github.com/owner/.git" = None
      ∨ get_repo_name_from_url sample_env "https://github.com/owner/.git" = Some "")
     ∧ process_repository sample_env "https://github.com/owner/.git" "/out" empty_world
       = tick empty_world
     ∧ fs_dirs (process_repository sample_env "https://github.com/owner/.git" "/out"
                  empty_world)
       = fs_dirs empty_world
     ∧ fs_files (process_repository sample_env "https://github.com/owner/.git" "/out"
                   empty_world)
       = fs_files empty_world)
  ∧ (∃ repo_name,
       get_repo_name_from_url sample_env "https://github.com/o/repo.git" = Some repo_name
       ∧ repo_name
         = strip_git_suffix
             (nth 1 (url_segments sample_env "https://github.com/o/repo.git") "")
       ∧ repo_name ≠ "").
Proof.
  split; [|split].
  - apply (proj1 (invalid_url_skipped sample_env "https://github.com/owner" "/out"
                    empty_world)).
    left. vm_compute. lia.
  - apply (proj1 (invalid_url_skipped sample_env "https://github.com/owner/.git" "/out"
                    empty_world)).
    right. reflexivity.
  - apply (proj2 (invalid_url_skipped sample_env "https://github.com/o/repo.git" "/out"
                    empty_world)).
    intros [H|H]; [vm_compute in H; lia|discriminate H].
Defined.

(** ** Directories *)





(** What [rstrip] leaves is a prefix. *)
Lemma rstrip_char_prefix c s : ∃ q, s = Str.rstrip c s +:+ q.
Proof.
  induction s as [|a s [q IH]]; [by exists ""|]. cbn [Str.rstrip].
  destruct (Str.rstrip c s) eqn:E.
  - destruct (Ascii.eqb a c).
    + by exists (String a s).
    + exists s. done.
  - exists q. rewrite str_app_cons. by rewrite <- IH.
Qed.

(** The head and the tail of [split] are cut from the path: the head is
    a prefix, and the tail is what remains after the head and the
    slashes that follow it. *)
Lemma split_spec p :
  ∃ q, p = fst (OsPath.split p) +:+ q +:+ snd (OsPath.split p).
Proof.
  unfold OsPath.split. cbn [fst snd].
  set (i := Z.to_nat (Str.rfind Str.slash p + 1)).
  destruct (negb _ && negb _).
  - destruct (rstrip_char_prefix Str.slash (Str.take i p)) as [q Hq].
    exists q. rewrite <- str_app_assoc, <- Hq. by rewrite take_drop.
  - exists "". change ("" +:+ Str.drop i p) with (Str.drop i p). by rewrite take_drop.
Qed.


Lemma split_length p :
  String.length (fst (OsPath.split p)) + String.length (snd (OsPath.split p))
  ≤ String.length p.
Proof.
  destruct (split_spec p) as [q Hq]. apply (f_equal String.length) in Hq.
  rewrite !str_length_app in Hq. lia.
Qed.

Lemma makedirs_rec_unfold fuel name dirs :
  makedirs_rec fuel name dirs
  = if negb (String.eqb (fst (makedirs_step name)) "")
       && negb (String.eqb (snd (makedirs_step name)) "")
       && negb (bool_decide (fst (makedirs_step name) ∈ dirs))
    then match fuel with
         | O => dirs
         | S fuel' =>
             if String.eqb (snd (makedirs_step name)) "."
             then makedirs_rec fuel' (fst (makedirs_step name)) dirs
             else {[name]} ∪ makedirs_rec fuel' (fst (makedirs_step name)) dirs
         end
    else {[name]} ∪ dirs.
Proof.
  destruct fuel; cbn [makedirs_rec]; by destruct (makedirs_step name).
Qed.


Lemma makedirs_step_shorter name :
  snd (makedirs_step name) ≠ "" →
  String.length (fst (makedirs_step name)) < String.length name.
Proof.
  unfold makedirs_step. pose proof (split_length name) as Hlen.
  destruct (OsPath.split name) as [head tail]. cbn [fst snd] in Hlen.
  destruct (String.eqb_spec tail "") as [E|E].
  - intros Ht. pose proof (split_length head).
    destruct (snd (OsPath.split head)); [done|]. simpl in *. lia.
  - intros _. destruct tail; [done|]. simpl in *. lia.
Qed.





(** The recursion ends before the fuel does: more fuel than the length
    of the path changes nothing. *)
Lemma makedirs_rec_fuel_le fuel : ∀ m name dirs,
  m ≤ fuel → String.length name ≤ m →
  makedirs_rec m name dirs = makedirs_rec (String.length name) name dirs.
Proof.
  induction fuel as [|fuel IH]; intros m name dirs Hm Hlen.
  { by replace (String.length name) with m by lia. }
  rewrite (makedirs_rec_unfold m), (makedirs_rec_unfold (String.length name)).
  destruct (negb (String.eqb (fst (makedirs_step name)) "")) eqn:E1; [|done].
  destruct (negb (String.eqb (snd (makedirs_step name)) "")) eqn:E2; [|done].
  destruct (negb (bool_decide _)); [|done]. cbn [andb].
  assert (String.length (fst (makedirs_step name)) < String.length name) as Hlt.
  { apply makedirs_step_shorter. intros H. by rewrite H in E2. }
  destruct m as [|m]; [lia|].
  destruct (String.length name) as [|n] eqn:En; [lia|].
  by rewrite (IH m), (IH n) by lia.
Qed.

Lemma makedirs_rec_fuel fuel name dirs :
  String.length name ≤ fuel →
  makedirs_rec fuel name dirs = makedirs_rec (String.length name) name dirs.
Proof. by apply (makedirs_rec_fuel_le fuel). Qed.









(** ** A run whose clone fails *)

(** [clone_repository] returns [False] exactly when every attempt fails:
    the three git programs, and WSL (which also fails when the target
    directory has fewer than two characters). *)
Lemma clone_repository_false_iff env repo_url target_dir :
  clone_repository env repo_url target_dir = false ↔
  (∀ git_path, git_path ∈ git_paths →
               attempt env (GitExe git_path) repo_url target_dir = false)
  ∧ (String.length target_dir < 2 ∨ attempt env Wsl repo_url target_dir = false).
Proof.
  unfold clone_repository.
  destruct (existsb _ git_paths) eqn:E.
  - split; [done|]. intros [Hgit _].
    apply existsb_exists in E as (g & Hg%list_elem_of_In & E).
    by rewrite (Hgit g Hg) in E.
  - assert (∀ g, g ∈ git_paths → attempt env (GitExe g) repo_url target_dir = false)
      as Hgit.
    { intros g Hg%list_elem_of_In. destruct (attempt _ _ _ _) eqn:Ea; [|done].
      assert (existsb (fun git_path => attempt env (GitExe git_path) repo_url target_dir)
                git_paths = true) as Ht by (apply existsb_exists; eauto).
      congruence. }
    destruct (Nat.ltb_spec (String.length target_dir) 2) as [Hlt|Hge].
    + split; [|done]. intros _. split; [done|by left].
    + split.
      * intros Hw. split; [done|by right].
      * intros [_ [Hlt|Hw]]; [lia|done].
Qed.










(** * Further properties *)

(** ** Output names *)

Lemma replace_count_old old new s :
  old ≠ new → Str.count old (Str.replace old new s) = 0.
Proof.
  intros Hne. induction s as [|a s IH]; [done|]. simpl. rewrite IH.
  destruct (Ascii.eqb_spec a old) as [->|Ha].
  - destruct (Ascii.eqb_spec new old) as [->|_]; [done|done].
  - by destruct (Ascii.eqb_spec a old).
Qed.

Lemma replace_count_other old new c s :
  c ≠ new → Str.count c s = 0 → Str.count c (Str.replace old new s) = 0.
Proof.
  intros Hne. induction s as [|a s IH]; [done|]. simpl.
  destruct (Ascii.eqb_spec a c) as [->|Ha]; [lia|]. intros Hs. rewrite IH by done.
  destruct (Ascii.eqb a old); [|by destruct (Ascii.eqb_spec a c)].
  by destruct (Ascii.eqb_spec new c) as [->|_].
Qed.

Lemma replace_length old new s :
  String.length (Str.replace old new s) = String.length s.
Proof. induction s as [|a s IH]; [done|]. simpl. by rewrite IH. Qed.

Lemma replace_absent old new s :
  Str.count old s = 0 → Str.replace old new s = s.
Proof.
  induction s as [|a s IH]; [done|]. simpl.
  destruct (Ascii.eqb a old); [lia|]. intros Hs. by rewrite IH.
Qed.

(** X1. The flattened name of a relative path has no slash and no
    backslash, and is as long as the path; a path without separators is
    its own flattened name. *)
Theorem safe_name_flat p :
  Str.count Str.slash (safe_name p) = 0
  ∧ Str.count Str.backslash (safe_name p) = 0
  ∧ String.length (safe_name p) = String.length p
  ∧ (Str.count Str.slash p = 0 ∧ Str.count Str.backslash p = 0 ↔ safe_name p = p).
Proof.
  unfold safe_name. split; [|split; [|split; [|split]]].
  - apply replace_count_other; [done|]. by apply replace_count_old.
  - by apply replace_count_old.
  - by rewrite !replace_length.
  - intros [Hs Hb]. by rewrite (replace_absent Str.slash), replace_absent.
  - intros Hp. rewrite <- Hp. split.
    + apply replace_count_other; [done|]. by apply replace_count_old.
    + by apply replace_count_old.
Qed.

(** ** What a run of the extraction writes *)

Lemma elem_of_processed_of p rel_path d :
  p ∈ processed_of rel_path d ↔ (∃ content, d = Processed content) ∧ p = rel_path.
Proof.
  destruct d; simpl; rewrite ?elem_of_nil, ?list_elem_of_singleton;
    split; try done; try (by intros [[? ?] _]).
  - intros ->. eauto.
  - by intros [_ ->].
Qed.

Lemma elem_of_processed_extract env repo_dir tree output_dir max_size_mb w p :
  p ∈ processed_files (extract_code_files env repo_dir tree output_dir max_size_mb w)
  ↔ ∃ v content,
      v ∈ walk_files repo_dir tree
      ∧ visit_decision env output_dir (max_size_mb * 1024 * 1024) v = Processed content
      ∧ p = visit_path v.
Proof.
  rewrite processed_extract, elem_of_flat_map. split.
  - intros (v & Hv & [[content Hd] ->]%elem_of_processed_of). eauto.
  - intros (v & content & Hv & Hd & ->). exists v. split; [done|].
    apply elem_of_processed_of. eauto.
Qed.

(** One visit: the world it leaves. *)
Lemma world_visit env output_dir max_size_bytes st v :
  x_world (extract_visit env output_dir max_size_bytes st v)
  = match visit_decision env output_dir max_size_bytes v with
    | Processed content =>
        mk_world (fs_dirs (x_world st))
          (<[OsPath.join output_dir (safe_name (visit_path v)) :=
               header (visit_path v) (now env (clock (x_world st))) +:+ content]>
             (fs_files (x_world st)))
          (S (clock (x_world st)))
    | HeaderError =>
        mk_world (fs_dirs (x_world st))
          (<[OsPath.join output_dir (safe_name (visit_path v)) := ""]>
             (fs_files (x_world st)))
          (clock (x_world st))
    | _ => x_world st
    end.
Proof.
  unfold extract_visit. rewrite extract_file_perform.
  fold (visit_path v). fold (visit_decision env output_dir max_size_bytes v).
  by destruct (visit_decision env output_dir max_size_bytes v).
Qed.

Lemma world_fold env output_dir max_size_bytes vs : ∀ st,
  fs_dirs (x_world (fold_left (extract_visit env output_dir max_size_bytes) vs st))
  = fs_dirs (x_world st)
  ∧ clock (x_world (fold_left (extract_visit env output_dir max_size_bytes) vs st))
    = clock (x_world st)
      + length (flat_map (fun v => processed_of (visit_path v)
                                     (visit_decision env output_dir max_size_bytes v)) vs)
  ∧ (∀ k,
       (∀ v, v ∈ vs →
             opens_output (visit_decision env output_dir max_size_bytes v) = true →
             k ≠ OsPath.join output_dir (safe_name (visit_path v))) →
       fs_files (x_world (fold_left (extract_visit env output_dir max_size_bytes) vs st))
         !! k
       = fs_files (x_world st) !! k)
  ∧ (∀ k, is_Some (fs_files (x_world st) !! k) →
          is_Some (fs_files
                     (x_world (fold_left (extract_visit env output_dir max_size_bytes)
                                 vs st)) !! k))
  ∧ (∀ v, v ∈ vs →
          opens_output (visit_decision env output_dir max_size_bytes v) = true →
          is_Some (fs_files
                     (x_world (fold_left (extract_visit env output_dir max_size_bytes)
                                 vs st))
                     !! OsPath.join output_dir (safe_name (visit_path v)))).
Proof.
  induction vs as [|v vs IH]; intros st.
  - cbn. repeat split; try done; try lia. intros v Hv. by apply elem_of_nil in Hv.
  - cbn [fold_left flat_map].
    destruct (IH (extract_visit env output_dir max_size_bytes st v))
      as (Hd & Hc & Hframe & Hmono & Hsome).
    pose proof (world_visit env output_dir max_size_bytes st v) as Hw.
    split; [|split; [|split; [|split]]].
    + rewrite Hd, Hw. by destruct (visit_decision env output_dir max_size_bytes v).
    + rewrite Hc, Hw, length_app.
      destruct (visit_decision env output_dir max_size_bytes v); cbn; lia.
    + intros k Hk. rewrite Hframe.
      * rewrite Hw. destruct (visit_decision env output_dir max_size_bytes v) eqn:E;
          try done; cbn; apply lookup_insert_ne; intros Heq;
          (apply (Hk v); [by left|by rewrite E|done]).
      * intros v' Hv'. apply Hk. by right.
    + intros k Hk. apply Hmono. rewrite Hw.
      destruct (visit_decision env output_dir max_size_bytes v); try done; cbn;
        (destruct (decide (OsPath.join output_dir (safe_name (visit_path v)) = k))
           as [->|Hne]; [rewrite lookup_insert_eq; eauto|by rewrite lookup_insert_ne]).
    + intros v' [->|Hv']%elem_of_cons Hdv.
      * apply Hmono. rewrite Hw.
        destruct (visit_decision env output_dir max_size_bytes v); try done; cbn;
          rewrite lookup_insert_eq; eauto.
      * by apply (Hsome v').
Qed.



(** ** Accounting *)

Lemma count_if_nil {A} (p : A → bool) : count_if p [] = 0%Z.
Proof. reflexivity. Qed.

Lemma accounting_lists env output_dir max_size_bytes vs :
  Z.of_nat (length vs)
  = (Z.of_nat (length (flat_map (fun v => processed_of (visit_path v)
                                            (visit_decision env output_dir max_size_bytes v)) vs))
     + Z.of_nat (length (flat_map (fun v => skipped_of (visit_path v)
                                              (visit_decision env output_dir max_size_bytes v)) vs))
     + count_if is_ignored (map (visit_decision env output_dir max_size_bytes) vs)
     + count_if is_read_error (map (visit_decision env output_dir max_size_bytes) vs)
     + count_if is_open_error (map (visit_decision env output_dir max_size_bytes) vs)
     + count_if is_header_error (map (visit_decision env output_dir max_size_bytes) vs))%Z
  ∧ Z.of_nat (length (flat_map (fun v => skipped_of (visit_path v)
                                           (visit_decision env output_dir max_size_bytes v)) vs))
    = (count_if is_git (map (visit_decision env output_dir max_size_bytes) vs)
       + count_if is_extension (map (visit_decision env output_dir max_size_bytes) vs)
       + count_if is_oversized (map (visit_decision env output_dir max_size_bytes) vs)
       + count_if is_decode_failure (map (visit_decision env output_dir max_size_bytes) vs)
       + count_if is_size_error (map (visit_decision env output_dir max_size_bytes) vs))%Z.
Proof.
  induction vs as [|v vs [IH1 IH2]]; [done|].
  cbn [flat_map map]. rewrite !length_app, !count_if_cons. cbn [length].
  destruct (visit_decision env output_dir max_size_bytes v); cbn; lia.
Qed.


(** ** Order of the returned lists, and what they depend on *)

Lemma sublist_flat_map_choice {A B} (f : A → list B) (g : A → B) l :
  (∀ x, f x = [] ∨ f x = [g x]) → flat_map f l `sublist_of` map g l.
Proof.
  intros H. induction l as [|a l IH]; simpl; [constructor|].
  destruct (H a) as [->| ->]; simpl; by constructor.
Qed.

Lemma sublist_flat_map_pointwise {A B} (f g : A → list B) l :
  (∀ x, x ∈ l → f x `sublist_of` g x) → flat_map f l `sublist_of` flat_map g l.
Proof.
  induction l as [|a l IH]; intros H; simpl; [constructor|].
  apply sublist_app; [apply H; by left|]. apply IH. intros x Hx. apply H. by right.
Qed.

(** X4. Both returned lists follow the order of the walk: each is what
    remains of the sequence of visited relative paths when the files of
    the other branches are left out. *)
Theorem extract_lists_in_visiting_order env repo_dir tree output_dir max_size_mb w :
  processed_files (extract_code_files env repo_dir tree output_dir max_size_mb w)
    `sublist_of` map visit_path (walk_files repo_dir tree)
  ∧ map fst (skipped_files (extract_code_files env repo_dir tree output_dir max_size_mb w))
    `sublist_of` map visit_path (walk_files repo_dir tree).
Proof.
  rewrite processed_extract, skipped_extract, map_flat_map. split.
  - apply sublist_flat_map_choice. intros v.
    destruct (visit_decision _ _ _ v); simpl; auto.
  - apply sublist_flat_map_choice. intros v.
    destruct (visit_decision _ _ _ v); simpl; auto.
Qed.







(** ** The size limit *)

Lemma decide_processed_limit env output_dir limit1 limit2 root rel f content :
  (limit1 <= limit2)%Z →
  decide_file env output_dir limit1 root rel f = Processed content →
  decide_file env output_dir limit2 root rel f = Processed content.
Proof.
  intros Hle. unfold decide_file.
  destruct (has_component ".git" _); [done|].
  destruct (is_git_related _ _); [done|].
  destruct (has_component ".github" _); [done|].
  destruct (bool_decide _); [done|].
  destruct (st_size f) as [file_size|]; [|done].
  destruct (Z.gtb_spec file_size limit1); [done|].
  destruct (Z.gtb_spec file_size limit2); [lia|]. done.
Qed.

Lemma decide_oversized_limit env output_dir limit1 limit2 root rel f :
  (limit1 <= limit2)%Z →
  is_oversized (decide_file env output_dir limit2 root rel f) = true →
  is_oversized (decide_file env output_dir limit1 root rel f) = true.
Proof.
  intros Hle. unfold decide_file.
  destruct (has_component ".git" _); [done|].
  destruct (is_git_related _ _); [done|].
  destruct (has_component ".github" _); [done|].
  destruct (bool_decide _); [done|].
  destruct (st_size f) as [file_size|]; [|done].
  destruct (Z.gtb_spec file_size limit2).
  - destruct (Z.gtb_spec file_size limit1); [done|lia].
  - by case_branches.
Qed.

Lemma decide_early_limit env output_dir limit1 limit2 root rel f :
  is_git (decide_file env output_dir limit1 root rel f) = is_git (decide_file env output_dir limit2 root rel f)
  ∧ is_extension (decide_file env output_dir limit1 root rel f)
    = is_extension (decide_file env output_dir limit2 root rel f).
Proof.
  unfold decide_file.
  destruct (has_component ".git" _); [done|].
  destruct (is_git_related _ _); [done|].
  destruct (has_component ".github" _); [done|].
  destruct (bool_decide _); [done|].
  by case_branches.
Qed.

Lemma count_if_mono {A} (p q : A → bool) l :
  (∀ x, p x = true → q x = true) → (count_if p l <= count_if q l)%Z.
Proof.
  intros H. induction l as [|a l IH]; [done|]. rewrite !count_if_cons.
  specialize (H a). destruct (p a), (q a); try lia; by specialize (H eq_refl).
Qed.

Lemma count_if_ext {A} (p q : A → bool) l :
  (∀ x, p x = q x) → count_if p l = count_if q l.
Proof.
  intros H. induction l as [|a l IH]; [done|]. by rewrite !count_if_cons, H, IH.
Qed.

Lemma count_if_map {A B} (p : B → bool) (g : A → B) l :
  count_if p (map g l) = count_if (fun x => p (g x)) l.
Proof.
  induction l as [|a l IH]; [done|]. cbn [map]. by rewrite !count_if_cons, IH.
Qed.

(** X6. Raising the size limit loses nothing: every file processed under
    the smaller limit is processed under the larger one, in the same
    order; no more files are counted as oversized; and the git and
    extension counters, whose tests come before the size test, do not
    change. *)
Theorem raising_limit_keeps_processed env repo_dir tree output_dir w
    (max_size_mb1 max_size_mb2 : Z) :
  (max_size_mb1 <= max_size_mb2)%Z →
  processed_files (extract_code_files env repo_dir tree output_dir max_size_mb1 w)
    `sublist_of`
    processed_files (extract_code_files env repo_dir tree output_dir max_size_mb2 w)
  ∧ (skipped_by_size (extract_code_files env repo_dir tree output_dir max_size_mb2 w)
     <= skipped_by_size (extract_code_files env repo_dir tree output_dir max_size_mb1 w))%Z
  ∧ skipped_git_files (extract_code_files env repo_dir tree output_dir max_size_mb1 w)
    = skipped_git_files (extract_code_files env repo_dir tree output_dir max_size_mb2 w)
  ∧ skipped_by_extension (extract_code_files env repo_dir tree output_dir max_size_mb1 w)
    = skipped_by_extension
        (extract_code_files env repo_dir tree output_dir max_size_mb2 w).
Proof.
  intros Hle.
  assert (max_size_mb1 * 1024 * 1024 <= max_size_mb2 * 1024 * 1024)%Z as Hlim by lia.
  rewrite !processed_extract.
  destruct (counters_extract env repo_dir tree output_dir max_size_mb1 w)
    as (-> & -> & -> & _).
  destruct (counters_extract env repo_dir tree output_dir max_size_mb2 w)
    as (-> & -> & -> & _).
  rewrite !count_if_map.
  split; [|split; [|split]].
  - apply sublist_flat_map_pointwise. intros [[root rel] f] _.
    unfold visit_decision, visit_path. simpl.
    destruct (decide_file env output_dir (max_size_mb1 * 1024 * 1024) root rel f) eqn:E;
      simpl; try apply sublist_nil_l.
    by rewrite (decide_processed_limit _ _ _ _ _ _ _ _ Hlim E).
  - apply count_if_mono. intros [[root rel] f]. by apply decide_oversized_limit.
  - apply count_if_ext. intros [[root rel] f]. apply decide_early_limit.
  - apply count_if_ext. intros [[root rel] f]. apply decide_early_limit.
Qed.

Lemma raising_limit_keeps_processed_witness :
  (0 <= 15)%Z
  ∧ processed_files (extract_code_files sample_env "/tmp/ws" tree1 "/out/code_files" 0
                       empty_world)
    `sublist_of`
    processed_files (extract_code_files sample_env "/tmp/ws" tree1 "/out/code_files" 15
                       empty_world)
  ∧ (skipped_by_size (extract_code_files sample_env "/tmp/ws" tree1 "/out/code_files" 15
                        empty_world)
     <= skipped_by_size (extract_code_files sample_env "/tmp/ws" tree1 "/out/code_files" 0
                           empty_world))%Z
  ∧ skipped_git_files (extract_code_files sample_env "/tmp/ws" tree1 "/out/code_files" 0
                         empty_world)
    = skipped_git_files (extract_code_files sample_env "/tmp/ws" tree1 "/out/code_files" 15
                           empty_world)
  ∧ skipped_by_extension
      (extract_code_files sample_env "/tmp/ws" tree1 "/out/code_files" 0 empty_world)
    = skipped_by_extension
        (extract_code_files sample_env "/tmp/ws" tree1 "/out/code_files" 15 empty_world).
Proof.
  split; [lia|].
  apply (raising_limit_keeps_processed sample_env "/tmp/ws" tree1 "/out/code_files"
           empty_world 0 15).
  lia.
Defined.

(** ** The remaining branches of the loop body *)

Lemma decide_github env output_dir max_size_bytes root rel f :
  has_component ".git" (OsPath.join root (f_name f)) = false →
  has_component ".github" (OsPath.join root (f_name f)) = true →
  decide_file env output_dir max_size_bytes root rel f = GitMetadata.
Proof.
  intros H1 H2. unfold decide_file. rewrite H1, H2.
  by destruct (is_git_related _ _).
Qed.

Lemma decide_size_error env output_dir max_size_bytes root rel f :
  has_component ".git" (OsPath.join root (f_name f)) = false →
  is_git_related (f_name f) (rel_path_of rel (f_name f)) = false →
  has_component ".github" (OsPath.join root (f_name f)) = false →
  file_extension (f_name f) ∉ binary_extensions →
  st_size f = None →
  decide_file env output_dir max_size_bytes root rel f = SizeError.
Proof.
  intros H1 H2 H3 H4 H5. unfold decide_file.
  by rewrite H1, H2, H3, bool_decide_eq_false_2, H5.
Qed.

Lemma decide_decode_failure env output_dir max_size_bytes root rel f file_size content :
  has_component ".git" (OsPath.join root (f_name f)) = false →
  is_git_related (f_name f) (rel_path_of rel (f_name f)) = false →
  has_component ".github" (OsPath.join root (f_name f)) = false →
  file_extension (f_name f) ∉ binary_extensions →
  st_size f = Some file_size →
  (file_size <= max_size_bytes)%Z →
  f_bytes f = Some content →
  Str.utf8_valid content = false →
  decide_file env output_dir max_size_bytes root rel f = DecodeFailure file_size.
Proof.
  intros H1 H2 H3 H4 H5 H6 H7 H8. unfold decide_file.
  rewrite H1, H2, H3, bool_decide_eq_false_2, H5, H7, H8 by done.
  by destruct (Z.gtb_spec file_size max_size_bytes); [lia|].
Qed.

Lemma decide_read_error env output_dir max_size_bytes root rel f file_size :
  has_component ".git" (OsPath.join root (f_name f)) = false →
  is_git_related (f_name f) (rel_path_of rel (f_name f)) = false →
  has_component ".github" (OsPath.join root (f_name f)) = false →
  file_extension (f_name f) ∉ binary_extensions →
  st_size f = Some file_size →
  (file_size <= max_size_bytes)%Z →
  f_bytes f = None →
  decide_file env output_dir max_size_bytes root rel f = ReadError.
Proof.
  intros H1 H2 H3 H4 H5 H6 H7. unfold decide_file.
  rewrite H1, H2, H3, bool_decide_eq_false_2, H5, H7 by done.
  by destruct (Z.gtb_spec file_size max_size_bytes); [lia|].
Qed.

Lemma decide_processed_inv env output_dir max_size_bytes root rel f content :
  decide_file env output_dir max_size_bytes root rel f = Processed content →
  has_component ".git" (OsPath.join root (f_name f)) = false
  ∧ is_git_related (f_name f) (rel_path_of rel (f_name f)) = false
  ∧ has_component ".github" (OsPath.join root (f_name f)) = false
  ∧ (file_extension (f_name f) ∉ binary_extensions)
  ∧ ∃ file_size,
      st_size f = Some file_size
      ∧ (file_size <= max_size_bytes)%Z
      ∧ f_bytes f = Some content
      ∧ Str.utf8_valid content = true.
Proof.
  unfold decide_file.
  destruct (has_component ".git" _); [done|].
  destruct (is_git_related _ _); [done|].
  destruct (has_component ".github" _); [done|].
  destruct (bool_decide _) eqn:Hext; [done|].
  apply bool_decide_eq_false in Hext.
  destruct (st_size f) as [file_size|]; [|done].
  destruct (Z.gtb_spec file_size max_size_bytes); [done|].
  destruct (f_bytes f) as [bytes|]; [|done].
  destruct (Str.utf8_valid bytes) eqn:Hvalid; [|done].
  destruct (can_open env _); [|done].
  destruct (Str.utf8_valid (rel_path_of rel (f_name f))); [|done].
  intros [= ->]. repeat split; try done. exists file_size. repeat split; try done; lia.
Qed.

(** A visited file whose branch appends to neither list is in neither
    list, when no other file of the tree has its relative path. *)
Lemma unrecorded_absent env repo_dir tree output_dir max_size_mb w v :
  wf_tree tree = true →
  v ∈ walk_files repo_dir tree →
  recorded (visit_decision env output_dir (max_size_mb * 1024 * 1024) v) = false →
  visit_path v
  ∉ processed_files (extract_code_files env repo_dir tree output_dir max_size_mb w)
    ++ map fst (skipped_files
                  (extract_code_files env repo_dir tree output_dir max_size_mb w)).
Proof.
  intros Hwf Hv Hr Hin.
  rewrite (recorded_extract env repo_dir tree output_dir max_size_mb w) in Hin.
  apply elem_of_flat_map_if in Hin as (v' & Hv' & Hr' & Heq).
  assert (v = v') as <-.
  { apply (NoDup_map_inj visit_path (walk_files repo_dir tree)); [|done|done|done].
    by apply NoDup_walk_paths. }
  congruence.
Qed.

Section Branches.

Context (env : environment) (repo_dir : string) (tree : list node).
Context (output_dir : string) (max_size_mb : Z) (w : world).

Local Abbreviation limit := (max_size_mb * 1024 * 1024)%Z.
Local Abbreviation run :=
  (extract_code_files env repo_dir tree output_dir max_size_mb w).

(** X7. A file with a [.github] path component and no [.git] component
    takes the git branch whatever its name, extension, size or content:
    the record appended is its relative path with size 0, the counter
    updated is [skipped_git_files], and the record is in the returned
    [skipped_files]. *)
Theorem github_directory_skipped root rel f :
  (root, rel, f) ∈ walk_files repo_dir tree →
  has_component ".git" (OsPath.join root (f_name f)) = false →
  has_component ".github" (OsPath.join root (f_name f)) = true →
  (∀ st, extract_file env output_dir limit root rel f st
         = skip_git (rel_path_of rel (f_name f)) st)
  ∧ (rel_path_of rel (f_name f), 0%Z) ∈ skipped_files run.
Proof.
  intros Hv H1 H2.
  pose proof (decide_github env output_dir limit root rel f H1 H2) as Hd.
  split.
  - intros st. by rewrite extract_file_perform, Hd.
  - apply (skipped_of_visit _ _ _ _ _ _ (root, rel, f)); [done|].
    unfold visit_decision, visit_path. simpl. rewrite Hd.
    by apply list_elem_of_singleton.
Qed.

(** X8. When [os.path.getsize] raises on a file that passed the git and
    extension tests, the handler appends the relative path with size 0
    and moves on: the file is in the returned [skipped_files], none of the
    four counters is updated, and nothing is read or written. *)
Theorem unreadable_size_recorded root rel f :
  (root, rel, f) ∈ walk_files repo_dir tree →
  has_component ".git" (OsPath.join root (f_name f)) = false →
  is_git_related (f_name f) (rel_path_of rel (f_name f)) = false →
  has_component ".github" (OsPath.join root (f_name f)) = false →
  file_extension (f_name f) ∉ binary_extensions →
  st_size f = None →
  (∀ st, extract_file env output_dir limit root rel f st
         = skip_size_error (rel_path_of rel (f_name f)) st)
  ∧ (∀ st,
       (skipped_git_files (extract_file env output_dir limit root rel f st)
        + skipped_by_extension (extract_file env output_dir limit root rel f st)
        + skipped_by_size (extract_file env output_dir limit root rel f st)
        + skipped_by_decode_error (extract_file env output_dir limit root rel f st)
        = skipped_git_files st + skipped_by_extension st + skipped_by_size st
          + skipped_by_decode_error st)%Z)
  ∧ (rel_path_of rel (f_name f), 0%Z) ∈ skipped_files run.
Proof.
  intros Hv H1 H2 H3 H4 H5.
  pose proof (decide_size_error env output_dir limit root rel f H1 H2 H3 H4 H5) as Hd.
  split; [|split].
  - intros st. by rewrite extract_file_perform, Hd.
  - intros st. by rewrite extract_file_perform, Hd.
  - apply (skipped_of_visit _ _ _ _ _ _ (root, rel, f)); [done|].
    unfold visit_decision, visit_path. simpl. rewrite Hd.
    by apply list_elem_of_singleton.
Qed.

(** X9. A file that passed the earlier tests, is no larger than the
    limit and whose bytes are not UTF-8 takes the decode-failure branch:
    the record appended is its relative path with its true size, the
    counter updated is [skipped_by_decode_error], the output tree is left
    as it was, and the record is in the returned [skipped_files]. *)
Theorem undecodable_file_skipped root rel f file_size content :
  (root, rel, f) ∈ walk_files repo_dir tree →
  has_component ".git" (OsPath.join root (f_name f)) = false →
  is_git_related (f_name f) (rel_path_of rel (f_name f)) = false →
  has_component ".github" (OsPath.join root (f_name f)) = false →
  file_extension (f_name f) ∉ binary_extensions →
  st_size f = Some file_size →
  (file_size <= limit)%Z →
  f_bytes f = Some content →
  Str.utf8_valid content = false →
  (∀ st, extract_file env output_dir limit root rel f st
         = skip_decode (rel_path_of rel (f_name f)) file_size st)
  ∧ (∀ st, x_world (extract_file env output_dir limit root rel f st) = x_world st)
  ∧ (rel_path_of rel (f_name f), file_size) ∈ skipped_files run.
Proof.
  intros Hv H1 H2 H3 H4 H5 H6 H7 H8.
  pose proof (decide_decode_failure env output_dir limit root rel f file_size content
                H1 H2 H3 H4 H5 H6 H7 H8) as Hd.
  split; [|split].
  - intros st. by rewrite extract_file_perform, Hd.
  - intros st. by rewrite extract_file_perform, Hd.
  - apply (skipped_of_visit _ _ _ _ _ _ (root, rel, f)); [done|].
    unfold visit_decision, visit_path. simpl. rewrite Hd.
    by apply list_elem_of_singleton.
Qed.

(** X10. A file that passed the size test and cannot be opened or read
    is only logged: the loop body leaves the state as it was, and, in a
    tree whose entries have distinct, slash-free, non-empty names, its
    relative path is in neither returned list. *)
Theorem unreadable_file_dropped root rel f file_size :
  wf_tree tree = true →
  (root, rel, f) ∈ walk_files repo_dir tree →
  has_component ".git" (OsPath.join root (f_name f)) = false →
  is_git_related (f_name f) (rel_path_of rel (f_name f)) = false →
  has_component ".github" (OsPath.join root (f_name f)) = false →
  file_extension (f_name f) ∉ binary_extensions →
  st_size f = Some file_size →
  (file_size <= limit)%Z →
  f_bytes f = None →
  (∀ st, extract_file env output_dir limit root rel f st = st)
  ∧ (rel_path_of rel (f_name f) ∉ processed_files run)
  ∧ (rel_path_of rel (f_name f) ∉ map fst (skipped_files run)).
Proof.
  intros Hwf Hv H1 H2 H3 H4 H5 H6 H7.
  pose proof (decide_read_error env output_dir limit root rel f file_size H1 H2 H3 H4 H5 H6 H7) as Hd.
  split.
  - intros st. by rewrite extract_file_perform, Hd.
  - assert (recorded (visit_decision env output_dir limit (root, rel, f)) = false) as Hr.
    { unfold visit_decision. simpl. by rewrite Hd. }
    pose proof (unrecorded_absent env repo_dir tree output_dir max_size_mb w
                  (root, rel, f) Hwf Hv Hr) as Habs.
    split; intros Hin; apply Habs, elem_of_app; [by left|by right].
Qed.

(** X11. Every path in the processed list is the relative path of a
    visited file that passed every test of the loop body: no [.git] or
    [.github] component, no git-related name, no denylisted extension, a
    readable size within the limit, bytes that can be read and are
    UTF-8; and its output file exists after the run. *)
Theorem processed_passed_every_test p :
  p ∈ processed_files run →
  (∃ root rel f file_size content,
     (root, rel, f) ∈ walk_files repo_dir tree
     ∧ p = rel_path_of rel (f_name f)
     ∧ has_component ".git" (OsPath.join root (f_name f)) = false
     ∧ is_git_related (f_name f) (rel_path_of rel (f_name f)) = false
     ∧ has_component ".github" (OsPath.join root (f_name f)) = false
     ∧ (file_extension (f_name f) ∉ binary_extensions)
     ∧ st_size f = Some file_size
     ∧ (file_size <= limit)%Z
     ∧ f_bytes f = Some content
     ∧ Str.utf8_valid content = true)
  ∧ is_Some (fs_files (x_world run) !! OsPath.join output_dir (safe_name p)).
Proof.
  intros Hp. split.
  - apply elem_of_processed_extract in Hp as ([[root rel] f] & content & Hv & Hd & ->).
    unfold visit_decision in Hd. simpl in Hd.
    apply decide_processed_inv in Hd as (H1 & H2 & H3 & H4 & file_size & H5 & H6 & H7 & H8).
    exists root, rel, f, file_size, content. done.
  - apply elem_of_processed_extract in Hp as (v & content & Hv & Hd & ->).
    pose proof (world_fold env output_dir limit (walk_files repo_dir tree)
                  (initial_state (makedirs output_dir w))) as (_ & _ & _ & _ & Hsome).
    rewrite extract_code_files_fold. apply (Hsome v Hv). by rewrite Hd.
Qed.

End Branches.

Lemma github_directory_skipped_witness :
  (∀ st, extract_file sample_env "/out/code_files" (15 * 1024 * 1024)
           "/tmp/ws/.github/workflows" [".github"; "workflows"]
           (mk_file "ci.yml" (Some 8%Z) (Some "on: push")) st
         = skip_git ".github/workflows/ci.yml" st)
  ∧ (".github/workflows/ci.yml", 0%Z)
    ∈ skipped_files
        (extract_code_files sample_env "/tmp/ws"
           [Dir ".github" [Dir "workflows"
                             [File (mk_file "ci.yml" (Some 8%Z) (Some "on: push"))]]]
           "/out/code_files" 15 empty_world).
Proof.
  apply (github_directory_skipped sample_env "/tmp/ws"
           [Dir ".github" [Dir "workflows"
                             [File (mk_file "ci.yml" (Some 8%Z) (Some "on: push"))]]]
           "/out/code_files" 15 empty_world
           "/tmp/ws/.github/workflows" [".github"; "workflows"]
           (mk_file "ci.yml" (Some 8%Z) (Some "on: push"))).
  - first_visit.
  - reflexivity.
  - reflexivity.
Defined.

Lemma unreadable_size_recorded_witness :
  (∀ st, extract_file sample_env "/out/code_files" (15 * 1024 * 1024)
           "/tmp/ws" [] unreadable_size_txt st
         = skip_size_error "nosize.txt" st)
  ∧ (∀ st,
       (skipped_git_files (extract_file sample_env "/out/code_files" (15 * 1024 * 1024)
                             "/tmp/ws" [] unreadable_size_txt st)
        + skipped_by_extension
            (extract_file sample_env "/out/code_files" (15 * 1024 * 1024)
               "/tmp/ws" [] unreadable_size_txt st)
        + skipped_by_size (extract_file sample_env "/out/code_files" (15 * 1024 * 1024)
                             "/tmp/ws" [] unreadable_size_txt st)
        + skipped_by_decode_error
            (extract_file sample_env "/out/code_files" (15 * 1024 * 1024)
               "/tmp/ws" [] unreadable_size_txt st)
        = skipped_git_files st + skipped_by_extension st + skipped_by_size st
          + skipped_by_decode_error st)%Z)
  ∧ ("nosize.txt", 0%Z)
    ∈ skipped_files (extract_code_files sample_env "/tmp/ws" [File unreadable_size_txt]
                       "/out/code_files" 15 empty_world).
Proof.
  apply (unreadable_size_recorded sample_env "/tmp/ws" [File unreadable_size_txt]
           "/out/code_files" 15 empty_world "/tmp/ws" [] unreadable_size_txt).
  - first_visit.
  - reflexivity.
  - reflexivity.
  - reflexivity.
  - refuted_by_evaluation (file_extension (f_name unreadable_size_txt) ∈ binary_extensions).
  - reflexivity.
Defined.

Lemma undecodable_file_skipped_witness :
  (∀ st, extract_file sample_env "/out/code_files" (15 * 1024 * 1024)
           "/tmp/ws" [] latin1_txt st
         = skip_decode "latin1.txt" 4 st)
  ∧ (∀ st, x_world (extract_file sample_env "/out/code_files" (15 * 1024 * 1024)
                      "/tmp/ws" [] latin1_txt st) = x_world st)
  ∧ ("latin1.txt", 4%Z)
    ∈ skipped_files (extract_code_files sample_env "/tmp/ws" [File latin1_txt]
                       "/out/code_files" 15 empty_world).
Proof.
  apply (undecodable_file_skipped sample_env "/tmp/ws" [File latin1_txt]
           "/out/code_files" 15 empty_world "/tmp/ws" [] latin1_txt 4
           ("caf" +:+ String "233"%char "")).
  - first_visit.
  - reflexivity.
  - reflexivity.
  - reflexivity.
  - refuted_by_evaluation (file_extension (f_name latin1_txt) ∈ binary_extensions).
  - reflexivity.
  - lia.
  - reflexivity.
  - reflexivity.
Defined.

Lemma unreadable_file_dropped_witness :
  (∀ st, extract_file sample_env "/out/code_files" (15 * 1024 * 1024)
           "/tmp/ws" [] locked_txt st = st)
  ∧ ("locked.txt"
     ∉ processed_files (extract_code_files sample_env "/tmp/ws" [File locked_txt]
                          "/out/code_files" 15 empty_world))
  ∧ ("locked.txt"
     ∉ map fst (skipped_files (extract_code_files sample_env "/tmp/ws" [File locked_txt]
                                 "/out/code_files" 15 empty_world))).
Proof.
  apply (unreadable_file_dropped sample_env "/tmp/ws" [File locked_txt]
           "/out/code_files" 15 empty_world "/tmp/ws" [] locked_txt 5).
  - reflexivity.
  - first_visit.
  - reflexivity.
  - reflexivity.
  - reflexivity.
  - refuted_by_evaluation (file_extension (f_name locked_txt) ∈ binary_extensions).
  - reflexivity.
  - lia.
  - reflexivity.
Defined.

Lemma processed_passed_every_test_witness :
  (∃ root rel f file_size content,
     (root, rel, f) ∈ walk_files "/tmp/ws" tree_abc
     ∧ "a/b/c.py" = rel_path_of rel (f_name f)
     ∧ has_component ".git" (OsPath.join root (f_name f)) = false
     ∧ is_git_related (f_name f) (rel_path_of rel (f_name f)) = false
     ∧ has_component ".github" (OsPath.join root (f_name f)) = false
     ∧ (file_extension (f_name f) ∉ binary_extensions)
     ∧ st_size f = Some file_size
     ∧ (file_size <= 15 * 1024 * 1024)%Z
     ∧ f_bytes f = Some content
     ∧ Str.utf8_valid content = true)
  ∧ is_Some (fs_files (x_world (extract_code_files sample_env "/tmp/ws" tree_abc
                                  "/out/code_files" 15 empty_world))
               !! OsPath.join "/out/code_files" (safe_name "a/b/c.py")).
Proof.
  apply (processed_passed_every_test sample_env "/tmp/ws" tree_abc
           "/out/code_files" 15 empty_world "a/b/c.py").
  vm_compute. left.
Defined.

(** ** The summary's count of oversized files *)

Lemma filter_flat_map {A B} (P : B → Prop) `{∀ x, Decision (P x)}
    (f : A → list B) l :
  filter P (flat_map f l) = flat_map (fun x => filter P (f x)) l.
Proof.
  induction l as [|a l IH]; [done|]. simpl. by rewrite filter_app, IH.
Qed.

(** The records that the summary's size test selects among those of one
    visit: the oversized record, when the limit is not negative. *)
Lemma large_of_visit env output_dir max_size_mb root rel f rel_path :
  (0 <= max_size_mb)%Z →
  large_files (skipped_of rel_path (decide_file env output_dir (max_size_mb * 1024 * 1024) root rel f))
              max_size_mb
  = if is_oversized (decide_file env output_dir (max_size_mb * 1024 * 1024) root rel f)
    then skipped_of rel_path (decide_file env output_dir (max_size_mb * 1024 * 1024) root rel f)
    else [].
Proof.
  intros Hpos. unfold large_files, decide_file.
  assert ((0 >? max_size_mb * 1024 * 1024)%Z = false) as Hzero.
  { destruct (Z.gtb_spec 0 (max_size_mb * 1024 * 1024)); [lia|done]. }
  assert (∀ p : string,
            filter (fun r : string * Z => (r.2 >? max_size_mb * 1024 * 1024)%Z = true)
                   [(p, 0%Z)] = []) as Hnone.
  { intros p. rewrite filter_cons. simpl. rewrite Hzero.
    by destruct (decide (false = true)). }
  destruct (has_component ".git" _); [done|].
  destruct (is_git_related _ _); [apply Hnone|].
  destruct (has_component ".github" _); [apply Hnone|].
  destruct (bool_decide _); [apply Hnone|].
  destruct (st_size f) as [file_size|]; [|apply Hnone].
  destruct (Z.gtb_spec file_size (max_size_mb * 1024 * 1024)) as [Hgt|Hle].
  - simpl. rewrite filter_cons. simpl.
    destruct (Z.gtb_spec file_size (max_size_mb * 1024 * 1024)); [|lia].
    by destruct (decide (true = true)).
  - destruct (f_bytes f) as [content|]; [|done].
    destruct (Str.utf8_valid content); [by case_branches|].
    simpl. rewrite filter_cons. simpl.
    destruct (Z.gtb_spec file_size (max_size_mb * 1024 * 1024)); [lia|].
    by destruct (decide (false = true)).
Qed.

Lemma large_files_extract env repo_dir tree output_dir max_size_mb w :
  (0 <= max_size_mb)%Z →
  large_files
    (skipped_files (extract_code_files env repo_dir tree output_dir max_size_mb w))
    max_size_mb
  = flat_map (fun v => if is_oversized (visit_decision env output_dir (max_size_mb * 1024 * 1024) v)
                       then skipped_of (visit_path v)
                              (visit_decision env output_dir (max_size_mb * 1024 * 1024) v)
                       else [])
             (walk_files repo_dir tree).
Proof.
  intros Hpos. rewrite skipped_extract. unfold large_files at 1.
  rewrite filter_flat_map. apply flat_map_ext'. intros [[root rel] f].
  apply (large_of_visit env output_dir max_size_mb root rel f _ Hpos).
Qed.

Lemma length_large_visits env output_dir max_size_bytes vs :
  Z.of_nat (length (flat_map
                      (fun v => if is_oversized (visit_decision env output_dir max_size_bytes v)
                                then skipped_of (visit_path v)
                                       (visit_decision env output_dir max_size_bytes v)
                                else [])
                      vs))
  = count_if is_oversized (map (visit_decision env output_dir max_size_bytes) vs).
Proof.
  induction vs as [|v vs IH]; [done|].
  cbn [flat_map map]. rewrite length_app, count_if_cons, <- IH.
  destruct (visit_decision env output_dir max_size_bytes v); cbn; lia.
Qed.

Lemma perform_skip_size_inv env output_dir rel_path d file_size :
  (∀ st, perform env output_dir rel_path d st = skip_size rel_path file_size st) →
  d = Oversized file_size.
Proof.
  intros H. specialize (H (initial_state (mk_world ∅ ∅ 0))).
  pose proof (f_equal skipped_by_size H) as Hc.
  pose proof (f_equal skipped_files H) as Hs.
  destruct d; cbn in Hc, Hs; try discriminate Hc.
  by injection Hs as ->.
Qed.

(** X12. With a limit that is not negative (the run uses 15), the
    summary's sentinel-size recount is right for the oversized files: the
    number it prints for them is the extraction's own [skipped_by_size],
    and the files it lists are the visited files that took the oversized
    branch, each with its true size. *)
Theorem summary_counts_oversized env repo_dir tree output_dir max_size_mb w :
  (0 <= max_size_mb)%Z →
  b_size (summary_breakdown
            (skipped_files (extract_code_files env repo_dir tree output_dir max_size_mb w))
            (skipped_git_files
               (extract_code_files env repo_dir tree output_dir max_size_mb w))
            max_size_mb)
  = skipped_by_size (extract_code_files env repo_dir tree output_dir max_size_mb w)
  ∧ (∀ p file_size,
       (p, file_size)
       ∈ large_files
           (skipped_files (extract_code_files env repo_dir tree output_dir max_size_mb w))
           max_size_mb
       ↔ ∃ root rel f,
           (root, rel, f) ∈ walk_files repo_dir tree
           ∧ p = rel_path_of rel (f_name f)
           ∧ ∀ st, extract_file env output_dir (max_size_mb * 1024 * 1024) root rel f st
                   = skip_size p file_size st).
Proof.
  intros Hpos.
  pose proof (large_files_extract env repo_dir tree output_dir max_size_mb w Hpos)
    as Hlarge.
  split.
  - destruct (counters_extract env repo_dir tree output_dir max_size_mb w)
      as (_ & _ & -> & _).
    change (b_size (summary_breakdown ?s ?g max_size_mb))
      with (Z.of_nat (length (large_files s max_size_mb))).
    rewrite Hlarge. apply length_large_visits.
  - intros p file_size. rewrite Hlarge, elem_of_flat_map. split.
    + intros ([[root rel] f] & Hv & Hin). exists root, rel, f.
      unfold visit_decision, visit_path in Hin. simpl in Hin.
      destruct (decide_file env output_dir (max_size_mb * 1024 * 1024) root rel f) eqn:Hd;
        simpl in Hin; try (by apply elem_of_nil in Hin).
      apply list_elem_of_singleton in Hin as [= -> ->].
      split; [done|]. split; [done|].
      intros st. by rewrite extract_file_perform, Hd.
    + intros (root & rel & f & Hv & -> & Hx). exists (root, rel, f). split; [done|].
      unfold visit_decision, visit_path. simpl.
      assert (decide_file env output_dir (max_size_mb * 1024 * 1024) root rel f = Oversized file_size)
        as ->.
      { apply (perform_skip_size_inv env output_dir (rel_path_of rel (f_name f))).
        intros st. by rewrite <- extract_file_perform. }
      simpl. by apply list_elem_of_singleton.
Qed.

Lemma summary_counts_oversized_witness :
  b_size (summary_breakdown
            (skipped_files (extract_code_files sample_env "/tmp/ws" tree1
                              "/out/code_files" 15 empty_world))
            (skipped_git_files (extract_code_files sample_env "/tmp/ws" tree1
                                  "/out/code_files" 15 empty_world))
            15)
  = skipped_by_size (extract_code_files sample_env "/tmp/ws" tree1
                       "/out/code_files" 15 empty_world)
  ∧ large_files (skipped_files (extract_code_files sample_env "/tmp/ws" tree1
                                  "/out/code_files" 15 empty_world)) 15
    = [("a/huge.txt", (mib15 + 1)%Z)]
  ∧ (∀ p file_size,
       (p, file_size)
       ∈ large_files
           (skipped_files (extract_code_files sample_env "/tmp/ws" tree1
                             "/out/code_files" 15 empty_world))
           15
       ↔ ∃ root rel f,
           (root, rel, f) ∈ walk_files "/tmp/ws" tree1
           ∧ p = rel_path_of rel (f_name f)
           ∧ ∀ st, extract_file sample_env "/out/code_files" (15 * 1024 * 1024)
                     root rel f st
                   = skip_size p file_size st).
Proof.
  split; [|split; [reflexivity|]];
    apply (summary_counts_oversized sample_env "/tmp/ws" tree1 "/out/code_files" 15
             empty_world); lia.
Defined.

(** ** The extension of a file name *)

Lemma byte_in_point n a : Str.byte_in n n a = true → a = ascii_of_N n.
Proof.
  unfold Str.byte_in. intros [H1%N.leb_le H2%N.leb_le]%andb_prop.
  rewrite <- (ascii_N_embedding a). f_equal. lia.
Qed.

(** Induction along the code points that [lower] tells apart. *)
Lemma lower_ind (P : string → Prop) :
  P "" →
  (∀ s, P s → P (String "196" (String "176" s))) →
  (∀ s, P s → P (String "226" (String "132" (String "170" s)))) →
  (∀ a s, Str.lower (String a s) = String (Str.lower_char a) (Str.lower s) →
          P s → P (String a s)) →
  ∀ s, P s.
Proof.
  intros Hnil H2 H3 H1 s.
  assert (∀ n s, String.length s ≤ n → P s) as Hall; [|by apply (Hall (String.length s))].
  clear s. induction n as [|n IH]; intros s Hn.
  { destruct s; [done|simpl in Hn; lia]. }
  destruct s as [|a [|b [|c s]]]; [done|by apply H1| |].
  - destruct (Str.byte_in 196 196 a && Str.byte_in 176 176 b) eqn:E.
    + apply andb_prop in E as [->%byte_in_point ->%byte_in_point].
      by apply (H2 "").
    + apply H1; [|apply IH; simpl in *; lia]. cbn [Str.lower]. by rewrite E.
  - destruct (Str.byte_in 196 196 a && Str.byte_in 176 176 b) eqn:E.
    + apply andb_prop in E as [->%byte_in_point ->%byte_in_point].
      apply H2, IH. simpl in *. lia.
    + destruct (Str.byte_in 226 226 a && Str.byte_in 132 132 b && Str.byte_in 170 170 c)
        eqn:E3.
      * apply andb_prop in E3 as [[->%byte_in_point ->%byte_in_point]%andb_prop
                                    ->%byte_in_point].
        apply H3, IH. simpl in *. lia.
      * apply H1; [|apply IH; simpl in *; lia]. cbn [Str.lower]. by rewrite E, E3.
Qed.

Lemma lower_char_idemp a : Str.lower_char (Str.lower_char a) = Str.lower_char a.
Proof. by destruct a as [[] [] [] [] [] [] [] []]. Qed.

Lemma lower_char_dot a : Ascii.eqb (Str.lower_char a) Str.dot = Ascii.eqb a Str.dot.
Proof. by destruct a as [[] [] [] [] [] [] [] []]. Qed.

Lemma lower_char_slash a : Ascii.eqb (Str.lower_char a) Str.slash = Ascii.eqb a Str.slash.
Proof. by destruct a as [[] [] [] [] [] [] [] []]. Qed.

Lemma lower_char_ascii a :
  Str.byte_in 0x00 0x7F (Str.lower_char a) = Str.byte_in 0x00 0x7F a.
Proof. by destruct a as [[] [] [] [] [] [] [] []]. Qed.

(** On ASCII text [lower] works character by character. *)
Lemma lower_cons_ascii a s :
  Str.byte_in 0x00 0x7F a = true →
  Str.lower (String a s) = String (Str.lower_char a) (Str.lower s).
Proof.
  intros Ha. cbn [Str.lower].
  rewrite (ascii_not_above a 196 196), (ascii_not_above a 226 226) by done.
  by destruct s as [|b [|c s]].
Qed.

Lemma lower_ascii_eq s : Str.is_ascii s = true → Str.lower s = Str.lower_ascii s.
Proof.
  induction s as [|a s IH]; [done|]. intros [Ha Hs]%andb_prop.
  rewrite lower_cons_ascii by done. cbn [Str.lower_ascii]. by rewrite IH.
Qed.

Lemma is_ascii_lower_ascii s : Str.is_ascii (Str.lower_ascii s) = Str.is_ascii s.
Proof.
  induction s as [|a s IH]; [done|]. cbn [Str.lower_ascii Str.is_ascii].
  by rewrite lower_char_ascii, IH.
Qed.

Lemma is_ascii_drop n s : Str.is_ascii s = true → Str.is_ascii (Str.drop n s) = true.
Proof.
  revert s. induction n as [|n IH]; intros [|a s]; try done.
  intros [_ Hs]%andb_prop. by apply IH.
Qed.

Lemma lower_ascii_idemp s :
  Str.lower_ascii (Str.lower_ascii s) = Str.lower_ascii s.
Proof.
  induction s as [|a s IH]; [done|]. simpl. by rewrite lower_char_idemp, IH.
Qed.

Lemma lower_ascii_drop n s :
  Str.lower_ascii (Str.drop n s) = Str.drop n (Str.lower_ascii s).
Proof. revert s. induction n as [|n IH]; intros [|a s]; try done. simpl. apply IH. Qed.

Lemma count_lower_dot s : Str.count Str.dot (Str.lower s) = Str.count Str.dot s.
Proof.
  induction s as [|s IH|s IH|a s Ha IH] using lower_ind; try done.
  rewrite Ha. simpl. by rewrite lower_char_dot, IH.
Qed.

Lemma count_lower_slash s : Str.count Str.slash (Str.lower s) = Str.count Str.slash s.
Proof.
  induction s as [|s IH|s IH|a s Ha IH] using lower_ind; try done.
  rewrite Ha. simpl. by rewrite lower_char_slash, IH.
Qed.

Lemma repeat_dot_cons n : Str.repeat "." (S n) = String Str.dot (Str.repeat "." n).
Proof. reflexivity. Qed.

Lemma repeat_dot_length n : String.length (Str.repeat "." n) = n.
Proof.
  induction n as [|n IH]; [done|]. rewrite repeat_dot_cons. simpl. by rewrite IH.
Qed.

Lemma repeat_dot_snoc n : Str.repeat "." (S n) = Str.repeat "." n +:+ ".".
Proof.
  induction n as [|n IH]; [done|].
  rewrite repeat_dot_cons, IH at 1. by rewrite repeat_dot_cons, str_app_cons.
Qed.

Lemma is_ascii_repeat_dot n : Str.is_ascii (Str.repeat "." n) = true.
Proof. induction n as [|n IH]; [done|]. by rewrite repeat_dot_cons. Qed.

Lemma lower_repeat_dot_app n s :
  Str.lower (Str.repeat "." n +:+ s) = Str.repeat "." n +:+ Str.lower s.
Proof.
  induction n as [|n IH]; [done|].
  rewrite repeat_dot_cons, !str_app_cons, lower_cons_ascii by done. by rewrite IH.
Qed.

Lemma count_repeat_dot_slash n : Str.count Str.slash (Str.repeat "." n) = 0.
Proof. induction n as [|n IH]; [done|]. rewrite repeat_dot_cons. simpl. apply IH. Qed.

(** A string whose lowercased form is all dots is all dots. *)
Lemma lower_all_dots s :
  Str.lower s = Str.repeat "." (String.length (Str.lower s)) →
  s = Str.repeat "." (String.length s).
Proof.
  induction s as [|s IH|s IH|a s Ha IH] using lower_ind; try done.
  rewrite Ha. cbn [String.length]. rewrite !repeat_dot_cons.
  intros [= Hchar Hs]. f_equal; [|by apply IH].
  apply Ascii.eqb_eq. rewrite <- lower_char_dot, Hchar. apply Ascii.eqb_refl.
Qed.

Lemma splitext_no_slash p :
  Str.count Str.slash p = 0 →
  OsPath.splitext p =
  let dotIndex := Str.rfind Str.dot p in
  if (-1 <? dotIndex)%Z then
    let leading := Str.take (Z.to_nat dotIndex) p in
    if String.eqb leading (Str.repeat "." (String.length leading))
    then (p, "")
    else (Str.take (Z.to_nat dotIndex) p, Str.drop (Z.to_nat dotIndex) p)
  else (p, "").
Proof.
  intros Hp. unfold OsPath.splitext. rewrite (rfind_absent _ _ Hp). simpl.
  by rewrite Nat.sub_0_r.
Qed.

(** X13. Which names the extension test sees as what.  For an ASCII
    name the extension is lower-case and the case of the name does not
    matter.  A name [stem.ext], whose stem (any bytes without a slash) is
    not made of dots only and whose [ext] is ASCII without a dot, has the
    extension [.ext] lowercased; a name that is dots followed by a part
    without a dot (a hidden file such as [.bin], or a name without any
    dot) has none.  Beyond ASCII, the Kelvin sign is lowered to [k] as
    Python does: [clip.MKV] written with it has the extension [.mkv]; a
    dotted capital I becomes [i] and a combining dot, which no extension
    of the denylist holds. *)
Theorem file_extension_spec :
  (∀ file,
     Str.is_ascii file = true →
     file_extension (Str.lower file) = file_extension file
     ∧ Str.lower (file_extension file) = file_extension file)
  ∧ (∀ stem ext,
       Str.is_ascii ext = true →
       Str.count Str.slash stem = 0 → Str.count Str.slash ext = 0 →
       Str.count Str.dot ext = 0 →
       stem ≠ Str.repeat "." (String.length stem) →
       file_extension (stem +:+ "." +:+ ext) = "." +:+ Str.lower ext)
  ∧ (∀ n rest,
       Str.count Str.slash rest = 0 → Str.count Str.dot rest = 0 →
       file_extension (Str.repeat "." n +:+ rest) = "")
  ∧ file_extension ("clip.M" +:+ String "226" (String "132" (String "170" "V")))
    = ".mkv"
  ∧ file_extension ("a." +:+ String "196" (String "176" "NI"))
    = ".i" +:+ String "204" (String "135" "ni").
Proof.
  split; [|split; [|split; [|split; reflexivity]]].
  - intros file Hfile. unfold file_extension.
    rewrite (lower_ascii_eq file Hfile).
    rewrite (lower_ascii_eq (Str.lower_ascii file))
      by (by rewrite is_ascii_lower_ascii).
    rewrite lower_ascii_idemp. split; [done|].
    assert (Str.is_ascii (OsPath.splitext (Str.lower_ascii file)).2 = true) as Hext.
    { unfold OsPath.splitext.
      repeat match goal with |- context [if ?b then _ else _] => destruct b end;
        simpl; try done.
      apply is_ascii_drop. by rewrite is_ascii_lower_ascii. }
    rewrite (lower_ascii_eq _ Hext).
    unfold OsPath.splitext.
    repeat match goal with |- context [if ?b then _ else _] => destruct b end;
      simpl; try done.
    by rewrite lower_ascii_drop, lower_ascii_idemp.
  - intros stem ext Hext Hs1 Hs2 Hdot Hstem. unfold file_extension.
    assert (Str.is_ascii ("." +:+ ext) = true) as Hdotext by done.
    rewrite (lower_app_ascii stem ("." +:+ ext) Hdotext).
    change ("." +:+ ext) with (String Str.dot ext).
    rewrite (lower_cons_ascii Str.dot ext eq_refl).
    change (Str.lower_char Str.dot) with Str.dot.
    assert (Str.count Str.slash (Str.lower stem +:+ String Str.dot (Str.lower ext)) = 0)
      as Hp.
    { rewrite count_app. cbn [Str.count]. rewrite !count_lower_slash, Hs1, Hs2. done. }
    rewrite (splitext_no_slash _ Hp). cbn zeta.
    assert (Str.rfind Str.dot (Str.lower stem +:+ String Str.dot (Str.lower ext))
            = Z.of_nat (String.length (Str.lower stem))) as ->.
    { apply (rfind_last Str.dot (Str.lower stem) (Str.lower ext)).
      by rewrite count_lower_dot. }
    destruct (Z.ltb_spec (-1) (Z.of_nat (String.length (Str.lower stem)))); [|lia].
    rewrite Nat2Z.id.
    change (String Str.dot (Str.lower ext)) with ("." +:+ Str.lower ext).
    rewrite take_app_length, drop_app_length.
    destruct (String.eqb_spec (Str.lower stem)
                (Str.repeat "." (String.length (Str.lower stem)))) as [Heq|Hne]; [|done].
    exfalso. by apply Hstem, lower_all_dots.
  - intros n rest Hs Hdot. unfold file_extension.
    rewrite lower_repeat_dot_app.
    assert (Str.count Str.slash (Str.repeat "." n +:+ Str.lower rest) = 0) as Hp.
    { by rewrite count_app, count_repeat_dot_slash, count_lower_slash, Hs. }
    rewrite (splitext_no_slash _ Hp). cbn zeta.
    destruct n as [|n].
    + change (Str.repeat "." 0 +:+ Str.lower rest) with (Str.lower rest).
      rewrite rfind_absent by (by rewrite count_lower_dot). done.
    + rewrite repeat_dot_snoc, str_app_assoc.
      change ("." +:+ Str.lower rest) with (String Str.dot (Str.lower rest)).
      rewrite (rfind_last Str.dot (Str.repeat "." n) (Str.lower rest))
        by (by rewrite count_lower_dot).
      destruct (Z.ltb_spec (-1) (Z.of_nat (String.length (Str.repeat "." n)))); [|done].
      rewrite Nat2Z.id, take_app_length, repeat_dot_length, String.eqb_refl. done.
Qed.

Lemma file_extension_spec_witness :
  file_extension (Str.lower "Diagram.PNG") = file_extension "Diagram.PNG"
  ∧ file_extension "Diagram.PNG" = ".png"
  ∧ (".png" ∈ binary_extensions)
  ∧ file_extension ".bin" = ""
  ∧ file_extension "Makefile" = "".
Proof.
  split; [by apply (proj1 file_extension_spec "Diagram.PNG")|].
  split.
  { apply (proj1 (proj2 file_extension_spec) "Diagram" "PNG");
      [reflexivity|reflexivity|reflexivity|reflexivity|discriminate]. }
  split; [by_evaluation (".png" ∈ binary_extensions)|].
  split.
  - apply (proj1 (proj2 (proj2 file_extension_spec)) 1 "bin"); reflexivity.
  - apply (proj1 (proj2 (proj2 file_extension_spec)) 0 "Makefile"); reflexivity.
Defined.

(** ** The structure report: order of the files *)

Lemma ascii_compare_lt a b :
  Ascii.compare a b = Lt ↔ (N_of_ascii a < N_of_ascii b)%N.
Proof. unfold Ascii.compare. apply N.compare_lt_iff. Qed.

Lemma string_leb_trans s1 : ∀ s2 s3,
  String.leb s1 s2 = true → String.leb s2 s3 = true → String.leb s1 s3 = true.
Proof.
  unfold String.leb.
  induction s1 as [|c1 s1 IH]; intros [|c2 s2] [|c3 s3]; simpl; try done.
  destruct (Ascii.compare c1 c2) eqn:E12; [| |done].
  - apply Ascii.compare_eq_iff in E12 as ->.
    destruct (Ascii.compare c2 c3); [apply IH|done|done].
  - destruct (Ascii.compare c2 c3) eqn:E23; [| |done].
    + apply Ascii.compare_eq_iff in E23 as <-. by rewrite E12.
    + intros _ _. apply ascii_compare_lt in E12. apply ascii_compare_lt in E23.
      assert (Ascii.compare c1 c3 = Lt) as ->; [|done].
      apply ascii_compare_lt. by etrans.
Qed.

Lemma byte_in_true lo hi c :
  Str.byte_in lo hi c = true ↔ (lo <= N_of_ascii c ∧ N_of_ascii c <= hi)%N.
Proof. unfold Str.byte_in. cbn zeta. rewrite andb_true_iff, !N.leb_le. done. Qed.

Lemma byte_in_false lo hi c :
  Str.byte_in lo hi c = false ↔ (N_of_ascii c < lo ∨ hi < N_of_ascii c)%N.
Proof. unfold Str.byte_in. cbn zeta. rewrite andb_false_iff, !N.leb_gt. done. Qed.

Lemma N_of_ascii_bound c : (N_of_ascii c < 256)%N.
Proof. apply N_ascii_bounded. Qed.

Ltac bytes :=
  repeat match goal with
         | H : Str.byte_in _ _ _ = true |- _ => apply byte_in_true in H
         | H : Str.byte_in _ _ _ = false |- _ => apply byte_in_false in H
         | |- Str.byte_in _ _ _ = true => apply byte_in_true
         | |- Str.byte_in _ _ _ = false => apply byte_in_false
         end.

Lemma unkey_copy c0 k1 :
  Str.byte_in 0xED 0xED c0 = false
  ∨ (∃ c1 k2, k1 = String c1 k2 ∧ Str.byte_in 0xB0 0xBF c1 = false) →
  unkey (String c0 k1) = String c0 (unkey k1).
Proof.
  intros H. cbn [unkey]. destruct k1 as [|c1 [|c2 k3]]; try done.
  destruct H as [->|(c & k & [= <- <-] & ->)]; [done|]. by rewrite andb_false_r.
Qed.

Lemma unkey_escape c rest :
  Str.byte_in 0x00 0x7F c = false → unkey (Str.escape c rest) = String c (unkey rest).
Proof.
  intros Hc. unfold Str.escape. cbn [unkey].
  pose proof (N_of_ascii_bound c) as Hb. bytes.
  assert (128 <= N_of_ascii c)%N as Hlo by lia.
  assert (N_of_ascii c / 64 < 4)%N as Hq by (apply N.Div0.div_lt_upper_bound; lia).
  assert (2 <= N_of_ascii c / 64)%N as Hq' by (apply N.div_le_lower_bound; lia).
  assert (N_of_ascii c mod 64 < 64)%N as Hr by (apply N.mod_lt; lia).
  rewrite !N_ascii_embedding by lia.
  assert (Str.byte_in 237 237 "237" = true) as -> by done.
  assert (Str.byte_in 176 191 (ascii_of_N (176 + N_of_ascii c / 64)) = true) as ->.
  { apply byte_in_true. rewrite N_ascii_embedding by lia. lia. }
  cbn [andb]. f_equal.
  rewrite <- (ascii_N_embedding c) at 3. f_equal.
  pose proof (N.div_mod (N_of_ascii c) 64 ltac:(done)) as Hdm.
  revert Hdm Hq Hq' Hr. generalize (N_of_ascii c / 64)%N (N_of_ascii c mod 64)%N.
  intros q r. lia.
Qed.

Lemma unkey_sort_key_le n : ∀ s, String.length s ≤ n → unkey (Str.sort_key s) = s.
Proof.
  induction n as [|n IH]; intros s Hn.
  { destruct s; [done|simpl in Hn; lia]. }
  destruct s as [|c0 s1]; [done|]. simpl in Hn. cbn [Str.sort_key].
  assert (unkey (Str.sort_key s1) = s1) as IH1 by (apply IH; lia).
  destruct (Str.byte_in 0 127 c0) eqn:E0.
  { rewrite unkey_copy, IH1; [done|]. left. bytes. lia. }
  assert (unkey (Str.escape c0 (Str.sort_key s1)) = String c0 s1) as Hesc.
  { by rewrite unkey_escape, IH1. }
  destruct (Str.byte_in 194 223 c0) eqn:E2.
  { destruct s1 as [|c1 s2]; [done|]. destruct (Str.byte_in 128 191 c1) eqn:E21; [|done].
    rewrite !unkey_copy, IH; [done|simpl in Hn; lia| |]; left; bytes; lia. }
  destruct (Str.byte_in 224 239 c0) eqn:E3.
  { destruct s1 as [|c1 [|c2 s3]]; [done|done|].
    destruct (_ && _) eqn:E31; [|done].
    apply andb_prop in E31 as [E31 E32].
    rewrite (unkey_copy c0).
    - rewrite !unkey_copy, IH; [done|simpl in Hn; lia| |]; left; bytes;
        repeat match goal with H : context [if ?b then _ else _] |- _ =>
                                 destruct b eqn:?; bytes end; lia.
    - destruct (Str.byte_in 237 237 c0) eqn:Eed; [|by left]. right.
      exists c1, (String c2 (Str.sort_key s3)). split; [done|].
      destruct (Str.byte_in 224 224 c0) eqn:Ee0; [bytes; lia|]. bytes. lia. }
  destruct (Str.byte_in 240 244 c0) eqn:E4; [|done].
  destruct s1 as [|c1 [|c2 [|c3 s4]]]; [done|done|done|].
  destruct (_ && _) eqn:E41; [|done].
  apply andb_prop in E41 as [[E41 E42]%andb_prop E43].
  rewrite !unkey_copy, IH; [done|simpl in Hn; lia| | | |]; left; bytes;
    repeat match goal with H : context [if ?b then _ else _] |- _ =>
                             destruct b eqn:?; bytes end; lia.
Qed.

Lemma unkey_sort_key s : unkey (Str.sort_key s) = s.
Proof. by apply (unkey_sort_key_le (String.length s)). Qed.

Lemma sort_key_inj s t : Str.sort_key s = Str.sort_key t → s = t.
Proof. intros H. by rewrite <- (unkey_sort_key s), H, unkey_sort_key. Qed.

#[local] Instance str_le_trans : Transitive str_le.
Proof. intros a b c. apply string_leb_trans. Qed.

#[local] Instance str_le_antisym : AntiSymm eq str_le.
Proof. intros a b Hab Hba. apply sort_key_inj. by apply String.leb_antisym. Qed.

Lemma insert_sorted_perm x l : Str.insert_sorted x l ≡ₚ x :: l.
Proof.
  induction l as [|y l IH]; [done|]. simpl.
  destruct (Str.leb x y); [done|]. rewrite IH. apply perm_swap.
Qed.

Lemma insert_sorted_Sorted x l : Sorted str_le l → Sorted str_le (Str.insert_sorted x l).
Proof.
  induction 1 as [|y l Hl IH Hy]; simpl; [by repeat constructor|].
  destruct (Str.leb x y) eqn:E.
  - constructor; [by constructor|]. by constructor.
  - constructor; [done|].
    assert (str_le y x) as Hyx.
    { unfold str_le, Str.leb in *.
      destruct (String.leb_total (Str.sort_key x) (Str.sort_key y)) as [H|H];
        [congruence|done]. }
    destruct l as [|z l]; simpl; [by constructor|].
    destruct (Str.leb x z); constructor; [done|]. by inversion Hy.
Qed.

Lemma sorted_perm l : Str.sorted l ≡ₚ l.
Proof.
  induction l as [|x l IH]; [done|]. unfold Str.sorted in *. simpl.
  by rewrite insert_sorted_perm, IH.
Qed.

Lemma sorted_Sorted l : Sorted str_le (Str.sorted l).
Proof.
  induction l as [|x l IH]; [constructor|]. by apply insert_sorted_Sorted.
Qed.

(** [sorted] returns the same list for any order of its argument. *)
Lemma sorted_permutation l k : l ≡ₚ k → Str.sorted l = Str.sorted k.
Proof.
  intros H. apply (Sorted_unique str_le); [apply sorted_Sorted..|].
  by rewrite !sorted_perm.
Qed.

Lemma entry_lines_perm it1 it2 :
  w_root it1 = w_root it2 → w_rel it1 = w_rel it2 →
  map f_name (w_files it1) ≡ₚ map f_name (w_files it2) →
  entry_lines it1 = entry_lines it2.
Proof.
  intros Hroot Hrel Hfiles. unfold entry_lines.
  by rewrite Hroot, Hrel, (sorted_permutation _ _ Hfiles).
Qed.

Lemma structure_entries_perm its its' :
  Forall2 (fun it it' =>
             w_root it = w_root it' ∧ w_rel it = w_rel it'
             ∧ map f_name (w_files it) ≡ₚ map f_name (w_files it'))
          its its' →
  flat_map entry_lines its = flat_map entry_lines its'.
Proof.
  induction 1 as [|it it' its its' (Hroot & Hrel & Hfiles) _ IH]; [done|].
  cbn [flat_map]. by rewrite (entry_lines_perm it it' Hroot Hrel Hfiles), IH.
Qed.

(** X14. The structure report depends on the files of a directory
    through their names only, and not on the order in which the
    directory lists them: two trees whose walks visit the same
    directories in the same order, each with the same file names in any
    order, give the same report. *)
Theorem structure_report_file_order env repo_dir tree tree' output_file w :
  Forall2 (fun it it' =>
             w_root it = w_root it' ∧ w_rel it = w_rel it'
             ∧ map f_name (w_files it) ≡ₚ map f_name (w_files it'))
          (os_walk repo_dir tree) (os_walk repo_dir tree') →
  generate_file_structure env repo_dir tree output_file w
  = generate_file_structure env repo_dir tree' output_file w.
Proof.
  intros H. unfold generate_file_structure, structure_listing, structure_lines.
  by rewrite (structure_entries_perm _ _ H).
Qed.

Lemma structure_report_file_order_witness :
  generate_file_structure sample_env "/tmp/ws"
    [File (mk_file "b.txt" (Some 1%Z) (Some "b"));
     Dir "d" [File (mk_file "z" None None); File (mk_file "y" (Some 0%Z) (Some ""))];
     File (mk_file "a.txt" (Some 1%Z) (Some "a"))]
    "/out/repo/repo_file_structure.txt" empty_world
  = generate_file_structure sample_env "/tmp/ws"
      [File (mk_file "a.txt" (Some 7%Z) None);
       File (mk_file "b.txt" None (Some "other"));
       Dir "d" [File (mk_file "y" (Some 0%Z) (Some "")); File (mk_file "z" None None)]]
      "/out/repo/repo_file_structure.txt" empty_world.
Proof.
  apply (structure_report_file_order sample_env "/tmp/ws"
    [File (mk_file "b.txt" (Some 1%Z) (Some "b"));
     Dir "d" [File (mk_file "z" None None); File (mk_file "y" (Some 0%Z) (Some ""))];
     File (mk_file "a.txt" (Some 1%Z) (Some "a"))]
    [File (mk_file "a.txt" (Some 7%Z) None);
     File (mk_file "b.txt" None (Some "other"));
     Dir "d" [File (mk_file "y" (Some 0%Z) (Some "")); File (mk_file "z" None None)]]).
  repeat constructor; apply perm_swap.
Defined.

(** ** The structure report: the lines of a directory *)

Lemma basename_join p d :
  d ≠ "" → Str.count Str.slash d = 0 → OsPath.basename (OsPath.join p d) = d.
Proof.
  intros Hne Hd. unfold OsPath.join.
  assert (Str.startswith_char Str.slash d = false) as ->.
  { destruct d as [|c d]; [done|]. simpl in *. by destruct (Ascii.eqb c Str.slash). }
  unfold OsPath.basename.
  destruct (String.eqb_spec p "") as [->|Hp]; simpl.
  - change ("" +:+ d) with d. by rewrite (rfind_absent _ _ Hd).
  - destruct (Str.endswith p "/") eqn:E.
    + apply endswith_spec in E as [q ->]. rewrite str_app_assoc.
      change ("/" +:+ d) with (String Str.slash d).
      rewrite (rfind_last Str.slash q d Hd).
      replace (Z.to_nat (Z.of_nat (String.length q) + 1))
        with (String.length (q +:+ "/")) by (rewrite str_length_app; simpl; lia).
      change (String Str.slash d) with ("/" +:+ d).
      rewrite <- str_app_assoc. apply drop_app_length.
    + change ("/" +:+ d) with (String Str.slash d).
      rewrite (rfind_last Str.slash p d Hd).
      replace (Z.to_nat (Z.of_nat (String.length p) + 1))
        with (String.length (p +:+ "/")) by (rewrite str_length_app; simpl; lia).
      change (String Str.slash d) with ("/" +:+ d).
      rewrite <- str_app_assoc. apply drop_app_length.
Qed.

Lemma count_join_slash_free rel d :
  Forall slash_free rel → slash_free d →
  Str.count Str.slash (Str.join "/" (rel ++ [d])) = length rel.
Proof.
  intros Hrel Hd. induction Hrel as [|x rel Hx Hrel IH]; [done|].
  change (Str.join "/" ((x :: rel) ++ [d]))
    with (String.concat "/" (x :: (rel ++ [d]))).
  unfold Str.join in IH. revert IH.
  destruct (rel ++ [d]) as [|y l] eqn:E; [by destruct rel|]. intros IH.
  change (String.concat "/" (x :: y :: l))
    with (x +:+ "/" +:+ String.concat "/" (y :: l)).
  rewrite !count_app, IH, Hx. simpl. done.
Qed.

Lemma relpath_dot rel : relpath rel = "." → rel = [] ∨ rel = ["."].
Proof.
  destruct rel as [|x [|y rel]]; [by left|cbn; intros ->; by right|].
  intros H. exfalso. cbn in H.
  apply (f_equal (Str.count Str.slash)) in H.
  rewrite count_app in H. simpl in H. lia.
Qed.

(** A directory of the walk below the top: its [root] string is a join
    that ends with its name, the last of the names that lead to it. *)
Lemma walk_node_root n : ∀ top rel it,
  wf_node n = true → Forall slash_free rel → it ∈ walk_node top rel n →
  ∃ parent rel' d,
    w_root it = OsPath.join parent d ∧ w_rel it = rel' ++ [d]
    ∧ d ≠ "" ∧ slash_free d ∧ Forall slash_free rel'.
Proof.
  induction n as [f|d children IH] using node_ind; intros top rel it Hwf Hrel Hit.
  - by apply elem_of_nil in Hit.
  - simpl in Hwf. apply andb_prop in Hwf as [Hn [_ Hch]%andb_prop].
    apply name_ok_spec in Hn as [Hne Hd]. rewrite forallb_forall in Hch.
    rewrite walk_node_dir in Hit. apply elem_of_cons in Hit as [->|Hit].
    + exists top, rel, d. done.
    + apply elem_of_flat_map in Hit as (c & Hc & Hit).
      rewrite Forall_forall in IH.
      apply (IH c Hc (OsPath.join top d) (rel ++ [d]) it);
        [apply Hch; by apply list_elem_of_In| |done].
      apply Forall_app. split; [done|]. by apply Forall_singleton.
Qed.

Lemma os_walk_root top tree it :
  wf_tree tree = true → it ∈ os_walk top tree →
  (it = mk_item top [] (dirnames tree) (nondirs tree))
  ∨ ∃ parent rel' d,
      w_root it = OsPath.join parent d ∧ w_rel it = rel' ++ [d]
      ∧ d ≠ "" ∧ slash_free d ∧ Forall slash_free rel'.
Proof.
  intros [_ Hch]%andb_prop Hit. rewrite forallb_forall in Hch.
  unfold os_walk in Hit. apply elem_of_cons in Hit as [->|Hit]; [by left|]. right.
  apply elem_of_flat_map in Hit as (c & Hc & Hit).
  apply (walk_node_root c top [] it); [apply Hch; by apply list_elem_of_In|done|done].
Qed.

(** X15. What the report writes for each directory of a tree whose
    entries have distinct, slash-free, non-empty names.  For the top
    directory: its file names, sorted, each indented by one level and no
    line for the directory itself.  For a directory reached through [n]
    names (a directory named [.] directly below the top apart): one line
    with its own name and a slash, indented by [n] levels, then its file
    names, sorted, indented by [n + 1] levels. *)
Theorem structure_entry_lines top tree it :
  wf_tree tree = true →
  it ∈ os_walk top tree →
  w_rel it ≠ ["."] →
  structure_entry it
  = (match w_rel it with
     | [] => ""
     | _ => Str.repeat "  " (length (w_rel it)) +:+ List.last (w_rel it) ""
            +:+ "/" +:+ Str.nl
     end)
    +:+ String.concat ""
          (map (fun file => Str.repeat "  " (length (w_rel it) + 1) +:+ file +:+ Str.nl)
               (Str.sorted (map f_name (w_files it)))).
Proof.
  intros Hwf Hit Hdot.
  destruct (os_walk_root top tree it Hwf Hit)
    as [->|(parent & rel' & d & Hroot & Hrel & Hne & Hd & Hrel')]; [done|].
  unfold structure_entry, entry_lines. rewrite concat_app.
  rewrite Hroot, Hrel, basename_join by done.
  assert (relpath (rel' ++ [d]) = Str.join "/" (rel' ++ [d])) as Hjoin.
  { apply join_nonempty. by destruct rel'. }
  destruct (String.eqb_spec (relpath (rel' ++ [d])) ".") as [Heq|_].
  { apply relpath_dot in Heq as [Heq|Heq]; [by destruct rel'|]. by rewrite Hrel in Hdot. }
  rewrite Hjoin, (count_join_slash_free rel' d Hrel' Hd).
  rewrite last_last, length_app. simpl.
  destruct (rel' ++ [d]) eqn:E; [by destruct rel'|]. done.
Qed.

Lemma structure_entry_lines_witness :
  structure_entry (mk_item "/tmp/ws/a/b" ["a"; "b"] [] [mk_file "z.py" None None; c_py])
  = "    b/" +:+ Str.nl +:+ "      c.py" +:+ Str.nl +:+ "      z.py" +:+ Str.nl.
Proof.
  apply (structure_entry_lines "/tmp/ws"
           [Dir "a" [Dir "b" [File (mk_file "z.py" None None); File c_py]]]
           (mk_item "/tmp/ws/a/b" ["a"; "b"] [] [mk_file "z.py" None None; c_py])).
  - reflexivity.
  - vm_compute. right. right. left.
  - discriminate.
Defined.

(** ** The repository name of a well-formed URL *)

Lemma lstrip_slash_free c s t :
  s ≠ "" → Str.count c s = 0 → Str.lstrip c (s +:+ t) = s +:+ t.
Proof.
  intros Hne Hs. destruct s as [|a s]; [done|]. rewrite str_app_cons. simpl in *.
  by destruct (Ascii.eqb a c).
Qed.

Lemma rstrip_slash_free c s : s ≠ "" → Str.count c s = 0 → Str.rstrip c s = s.
Proof.
  induction s as [|a s IH]; [done|]. intros _ Hs. cbn [Str.count] in Hs.
  destruct (Ascii.eqb a c) eqn:E; [lia|]. cbn [Str.rstrip].
  destruct s as [|b s]; [cbn; by rewrite E|].
  rewrite IH by done. done.
Qed.

Lemma rstrip_app_slash_free c a s :
  s ≠ "" → Str.count c s = 0 → Str.rstrip c (a +:+ s) = a +:+ s.
Proof.
  intros Hne Hs. induction a as [|x a IH].
  - change ("" +:+ s) with s. by apply rstrip_slash_free.
  - rewrite str_app_cons. simpl. rewrite IH.
    destruct (a +:+ s) eqn:E; [|done].
    apply (f_equal String.length) in E. rewrite str_length_app in E.
    destruct s; [done|simpl in E; lia].
Qed.

Lemma strip_git_suffix_app name : strip_git_suffix (name +:+ ".git") = name.
Proof.
  unfold strip_git_suffix.
  assert (Str.endswith (name +:+ ".git") ".git" = true) as ->
    by (apply endswith_spec; by exists name).
  rewrite str_length_app. simpl.
  replace (String.length name + 4 - 4) with (String.length name) by lia.
  apply take_app_length.
Qed.

Lemma url_segments_owner_repo env repo_url owner repo :
  owner ≠ "" → Str.count Str.slash owner = 0 →
  repo ≠ "" → Str.count Str.slash repo = 0 →
  urlparse_path env repo_url = "/" +:+ owner +:+ "/" +:+ repo →
  url_segments env repo_url = [owner; repo].
Proof.
  intros Ho1 Ho2 Hr1 Hr2 Hpath. unfold url_segments, Str.strip. rewrite Hpath.
  change ("/" +:+ owner +:+ "/" +:+ repo) with (String Str.slash (owner +:+ "/" +:+ repo)).
  cbn [Str.lstrip]. rewrite Ascii.eqb_refl.
  rewrite lstrip_slash_free by done.
  rewrite <- str_app_assoc, rstrip_app_slash_free by done.
  rewrite str_app_assoc. change ("/" +:+ repo) with (String Str.slash repo).
  by rewrite split_app_sep, !split_no_sep.
Qed.

(** X16. For a URL whose path is [/owner/name.git], with an owner that is
    not empty and no slash in either part, the derived name is [name];
    the same holds for the path [/owner/name] when [name] is not empty
    and does not itself end with [.git].  The owner plays no part. *)
Theorem repo_name_of_owner_path env repo_url owner name :
  owner ≠ "" → Str.count Str.slash owner = 0 → Str.count Str.slash name = 0 →
  (urlparse_path env repo_url = "/" +:+ owner +:+ "/" +:+ name +:+ ".git" →
   get_repo_name_from_url env repo_url = Some name)
  ∧ (urlparse_path env repo_url = "/" +:+ owner +:+ "/" +:+ name →
     name ≠ "" → Str.endswith name ".git" = false →
     get_repo_name_from_url env repo_url = Some name).
Proof.
  intros Ho1 Ho2 Hn. split.
  - intros Hpath. rewrite get_repo_name_unfold.
    rewrite (url_segments_owner_repo env repo_url owner (name +:+ ".git")); try done.
    + simpl. by rewrite strip_git_suffix_app.
    + by destruct name.
    + by rewrite count_app, Hn.
  - intros Hpath Hne Hgit. rewrite get_repo_name_unfold.
    rewrite (url_segments_owner_repo env repo_url owner name) by done.
    simpl. unfold strip_git_suffix. by rewrite Hgit.
Qed.

Lemma repo_name_of_owner_path_witness :
  get_repo_name_from_url sample_env "https://github.com/octo/hello.git" = Some "hello"
  ∧ get_repo_name_from_url sample_env "https://github.com/octo/hello" = Some "hello".
Proof.
  split.
  - apply (proj1 (repo_name_of_owner_path sample_env "https://github.com/octo/hello.git"
                    "octo" "hello" ltac:(discriminate) eq_refl eq_refl)).
    reflexivity.
  - apply (proj2 (repo_name_of_owner_path sample_env "https://github.com/octo/hello"
                    "octo" "hello" ltac:(discriminate) eq_refl eq_refl)).
    + reflexivity.
    + discriminate.
    + reflexivity.
Defined.

(** ** A run whose clone succeeds *)
















(** ** A structure report that cannot be encoded *)




(** ** What a run may touch *)

Lemma prefix_false_neq a b k : String.prefix a k = false → k ≠ a +:+ b.
Proof. intros H ->. by rewrite prefix_app in H. Qed.








(** ** The URLs of the configuration file *)

Lemma lstrip_unfold s :
  Text.lstrip s =
  match s with
  | String a s1 =>
      if Text.ascii_space a then Text.lstrip s1
      else match s1 with
           | String b s2 =>
               if Text.two_byte_space a b then Text.lstrip s2
               else match s2 with
                    | String c s3 =>
                        if Text.three_byte_space a b c then Text.lstrip s3 else s
                    | EmptyString => s
                    end
           | EmptyString => s
           end
  | EmptyString => EmptyString
  end.
Proof. by destruct s. Qed.

Lemma rstrip_unfold a s :
  Text.rstrip (String a s) =
  if Text.is_space (String a (Text.rstrip s)) then "" else String a (Text.rstrip s).
Proof. reflexivity. Qed.

(** Induction on a string where the hypothesis is at hand for every
    shorter string. *)
Lemma string_length_ind (P : string → Prop) :
  (∀ s, (∀ t, String.length t < String.length s → P t) → P s) → ∀ s, P s.
Proof.
  intros H s. remember (String.length s) as n eqn:Hn.
  revert s Hn. induction n as [n IH] using lt_wf_ind. intros s ->.
  apply H. intros t Ht. by apply (IH (String.length t)).
Qed.

Lemma space_length_lstrip s : Text.space_length (Text.lstrip s) = 0.
Proof.
  induction s as [s IH] using string_length_ind.
  rewrite lstrip_unfold. destruct s as [|a s1]; [done|].
  destruct (Text.ascii_space a) eqn:Ha; [apply IH; simpl; lia|].
  destruct s1 as [|b s2]; [by cbn; rewrite Ha|].
  destruct (Text.two_byte_space a b) eqn:Hb; [apply IH; simpl; lia|].
  destruct s2 as [|c s3]; [by cbn; rewrite Ha, Hb|].
  destruct (Text.three_byte_space a b c) eqn:Hc; [apply IH; simpl; lia|].
  cbn. by rewrite Ha, Hb, Hc.
Qed.

Lemma lstrip_fixed s : Text.space_length s = 0 → Text.lstrip s = s.
Proof.
  intros H. rewrite lstrip_unfold. destruct s as [|a s1]; [done|]. cbn in H.
  destruct (Text.ascii_space a); [done|].
  destruct s1 as [|b s2]; [done|].
  destruct (Text.two_byte_space a b); [done|].
  destruct s2 as [|c s3]; [done|].
  by destruct (Text.three_byte_space a b c).
Qed.

Lemma space_length_prefix p q :
  p ≠ "" → Text.space_length (p +:+ q) = 0 → Text.space_length p = 0.
Proof.
  intros Hp. destruct p as [|a [|b [|c p]]]; [done|..];
    rewrite ?str_app_cons; change ("" +:+ q) with q; cbn.
  - destruct (Text.ascii_space a); [done|]. done.
  - destruct (Text.ascii_space a); [done|].
    destruct (Text.two_byte_space a b); [done|]. done.
  - done.
Qed.

Lemma rstrip_prefix s : ∃ q, s = Text.rstrip s +:+ q.
Proof.
  induction s as [|a s [q IH]]; [by exists ""|]. rewrite rstrip_unfold.
  destruct (Text.is_space _).
  - by exists (String a s).
  - exists q. rewrite str_app_cons. by rewrite <- IH.
Qed.

Lemma rstrip_idemp s : Text.rstrip (Text.rstrip s) = Text.rstrip s.
Proof.
  induction s as [|a s IH]; [done|]. rewrite rstrip_unfold.
  destruct (Text.is_space (String a (Text.rstrip s))) eqn:E; [done|].
  by rewrite rstrip_unfold, IH, E.
Qed.

Lemma strip_idemp s : Text.strip (Text.strip s) = Text.strip s.
Proof.
  unfold Text.strip.
  destruct (rstrip_prefix (Text.lstrip s)) as [q Hq].
  destruct (String.eqb_spec (Text.rstrip (Text.lstrip s)) "") as [->|Hne]; [done|].
  rewrite (lstrip_fixed (Text.rstrip (Text.lstrip s))).
  - apply rstrip_idemp.
  - apply (space_length_prefix _ q Hne). rewrite <- Hq. apply space_length_lstrip.
Qed.

Lemma elem_of_config_urls text u :
  u ∈ config_urls text ↔
  ∃ line,
    line ∈ Text.lines (Text.translate_newlines text)
    ∧ u = Text.strip line ∧ u ≠ "" ∧ Str.startswith_char Text.hash u = false.
Proof.
  unfold config_urls. rewrite elem_of_flat_map. split.
  - intros (line & Hline & Hu). exists line. split; [done|].
    destruct (String.eqb_spec (Text.strip line) "") as [|Hne];
      [by apply elem_of_nil in Hu|].
    destruct (Str.startswith_char Text.hash (Text.strip line)) eqn:Hc;
      [by apply elem_of_nil in Hu|].
    apply list_elem_of_singleton in Hu as ->. done.
  - intros (line & Hline & -> & Hne & Hc). exists line. split; [done|].
    rewrite Hc. destruct (String.eqb_spec (Text.strip line) "") as [|_]; [done|].
    by apply list_elem_of_singleton.
Qed.

(** X19. Every URL that [main] hands to [process_repository] is the
    stripped form of a line of the configuration file; it is not empty,
    does not start with [#], and has no white space left at either end
    (stripping it again gives it back). *)
Theorem config_urls_clean text u :
  u ∈ config_urls text →
  (∃ line, line ∈ Text.lines (Text.translate_newlines text) ∧ u = Text.strip line)
  ∧ u ≠ ""
  ∧ Str.startswith_char Text.hash u = false
  ∧ Text.space_length u = 0
  ∧ Text.strip u = u.
Proof.
  intros (line & Hline & -> & Hne & Hc)%elem_of_config_urls.
  split; [by exists line|]. split; [done|]. split; [done|].
  split; [|apply strip_idemp].
  unfold Text.strip in *.
  destruct (rstrip_prefix (Text.lstrip line)) as [q Hq].
  apply (space_length_prefix _ q Hne). rewrite <- Hq. apply space_length_lstrip.
Qed.

Lemma config_urls_clean_witness :
  (∃ line,
     line ∈ Text.lines (Text.translate_newlines example_config)
     ∧ "https://example.com/owner/repo.git" = Text.strip line)
  ∧ "https://example.com/owner/repo.git" ≠ ""
  ∧ Str.startswith_char Text.hash "https://example.com/owner/repo.git" = false
  ∧ Text.space_length "https://example.com/owner/repo.git" = 0
  ∧ Text.strip "https://example.com/owner/repo.git" = "https://example.com/owner/repo.git".
Proof.
  apply (config_urls_clean example_config "https://example.com/owner/repo.git").
  vm_compute. left.
Defined.

(** ** Line terminators *)

Lemma translate_unfold a s1 :
  Text.translate_newlines (String a s1) =
  if Ascii.eqb a Text.cr then
    match s1 with
    | String b s2 =>
        if Ascii.eqb b Text.lf then String Text.lf (Text.translate_newlines s2)
        else String Text.lf (Text.translate_newlines s1)
    | EmptyString => String Text.lf EmptyString
    end
  else String a (Text.translate_newlines s1).
Proof. reflexivity. Qed.

Lemma translate_app l s :
  Str.count Text.cr l = 0 →
  Text.translate_newlines (l +:+ s) = l +:+ Text.translate_newlines s.
Proof.
  induction l as [|a l IH]; [done|]. cbn [Str.count]. intros H.
  rewrite !str_app_cons, translate_unfold.
  destruct (Ascii.eqb a Text.cr); [lia|]. by rewrite IH.
Qed.

Lemma translate_fixed s : Str.count Text.cr s = 0 → Text.translate_newlines s = s.
Proof.
  intros H. rewrite <- (str_app_nil_r s) at 1. rewrite translate_app by done.
  apply str_app_nil_r.
Qed.

Lemma translate_crlf s :
  Text.translate_newlines (String Text.cr (String Text.lf s))
  = String Text.lf (Text.translate_newlines s).
Proof. reflexivity. Qed.

Lemma translate_cr s :
  Str.startswith_char Text.lf s = false →
  Text.translate_newlines (String Text.cr s) = String Text.lf (Text.translate_newlines s).
Proof.
  intros H. rewrite translate_unfold. cbn [Ascii.eqb]. destruct s as [|b s]; [done|].
  simpl in H. change (Ascii.eqb Text.cr Text.cr) with true. cbn iota. by rewrite H.
Qed.

(** The text of lines closed by one terminator each. *)
Lemma terminated_cons (term l : string) ls :
  String.concat "" (map (fun l => l +:+ term) (l :: ls))
  = l +:+ term +:+ String.concat "" (map (fun l => l +:+ term) ls).
Proof.
  cbn [map]. destruct ls as [|l' ls].
  - cbn. by rewrite !str_app_nil_r.
  - cbn [map String.concat]. change ("" +:+ ?x) with x. by rewrite str_app_assoc.
Qed.

Lemma terminated_cr_start ls :
  Forall (fun l => Str.count Text.lf l = 0) ls →
  Str.startswith_char Text.lf
    (String.concat "" (map (fun l => l +:+ String Text.cr "") ls)) = false.
Proof.
  destruct 1 as [|l ls Hl _]; [done|]. rewrite terminated_cons.
  destruct l as [|a l]; [done|]. rewrite str_app_cons. cbn in *.
  by destruct (Ascii.eqb a Text.lf).
Qed.

Lemma count_terminated_lf ls :
  Forall (fun l => Str.count Text.cr l = 0) ls →
  Str.count Text.cr (String.concat "" (map (fun l => l +:+ String Text.lf "") ls)) = 0.
Proof.
  induction 1 as [|l ls Hl _ IH]; [done|].
  rewrite terminated_cons, !count_app, Hl, IH. done.
Qed.

(** X20. The style of the line terminators does not matter: for lines
    without a carriage return, the file with ["\r\n"] after each line
    gives the same URLs as the file with ["\n"]; so does the file with a
    lone ["\r"] after each line, when the lines have no line feed
    either. *)
Theorem config_urls_newline_style ls :
  Forall (fun l => Str.count Text.cr l = 0) ls →
  config_urls (String.concat ""
                 (map (fun l => l +:+ String Text.cr (String Text.lf "")) ls))
  = config_urls (String.concat "" (map (fun l => l +:+ String Text.lf "") ls))
  ∧ (Forall (fun l => Str.count Text.lf l = 0) ls →
     config_urls (String.concat "" (map (fun l => l +:+ String Text.cr "") ls))
     = config_urls (String.concat "" (map (fun l => l +:+ String Text.lf "") ls))).
Proof.
  intros Hcr. unfold config_urls.
  rewrite (translate_fixed (String.concat "" (map (fun l => l +:+ String Text.lf "") ls)))
    by (by apply count_terminated_lf).
  split.
  - do 2 f_equal. induction Hcr as [|l ls Hl _ IH]; [done|].
    rewrite !terminated_cons, !translate_app by done.
    change (String Text.cr (String Text.lf "") +:+ ?x)
      with (String Text.cr (String Text.lf x)).
    by rewrite translate_crlf, IH.
  - intros Hlf. do 2 f_equal. induction Hcr as [|l ls Hl Hcr IH]; [done|].
    apply Forall_cons in Hlf as [_ Hlf].
    rewrite !terminated_cons, !translate_app by done.
    change (String Text.cr "" +:+ ?x) with (String Text.cr x).
    rewrite translate_cr by (by apply terminated_cr_start).
    by rewrite IH.
Qed.

Lemma config_urls_newline_style_witness :
  config_urls ("https://example.com/owner/repo.git"
               +:+ String Text.cr (String Text.lf "")
               +:+ String Text.cr (String Text.lf "")
               +:+ "# comment" +:+ String Text.cr (String Text.lf ""))
  = config_urls example_config
  ∧ config_urls ("https://example.com/owner/repo.git" +:+ String Text.cr ""
                 +:+ String Text.cr ""
                 +:+ "# comment" +:+ String Text.cr "")
    = config_urls example_config.
Proof.
  split.
  - apply (proj1 (config_urls_newline_style
                    ["https://example.com/owner/repo.git"; ""; "# comment"]
                    ltac:(repeat constructor))).
  - apply (proj2 (config_urls_newline_style
                    ["https://example.com/owner/repo.git"; ""; "# comment"]
                    ltac:(repeat constructor))).
    repeat constructor.
Defined.

(** ** The configuration file, line by line *)

Lemma lines_cons l rest :
  Str.count Text.lf l = 0 →
  Text.lines (l +:+ String Text.lf rest) = (l +:+ String Text.lf "") :: Text.lines rest.
Proof.
  induction l as [|a l IH]; [done|]. cbn [Str.count]. intros H.
  rewrite !str_app_cons. cbn [Text.lines].
  destruct (Ascii.eqb a Text.lf); [lia|]. by rewrite IH.
Qed.

(** A line and what follows it are read apart. *)
Lemma config_urls_cons l rest :
  Str.count Text.lf l = 0 → Str.count Text.cr l = 0 →
  config_urls (l +:+ String Text.lf rest)
  = (if negb (String.eqb (Text.strip (l +:+ String Text.lf "")) "")
        && negb (Str.startswith_char Text.hash (Text.strip (l +:+ String Text.lf "")))
     then [Text.strip (l +:+ String Text.lf "")] else [])
    ++ config_urls rest.
Proof.
  intros Hlf Hcr. unfold config_urls.
  rewrite translate_app by done.
  change (Text.translate_newlines (String Text.lf rest))
    with (String Text.lf (Text.translate_newlines rest)).
  by rewrite lines_cons.
Qed.

Lemma rstrip_app_space s a :
  Text.ascii_space a = true → Text.rstrip (s +:+ String a "") = Text.rstrip s.
Proof.
  intros Ha. induction s as [|b s IH].
  - change ("" +:+ String a "") with (String a ""). rewrite rstrip_unfold.
    cbn [Text.rstrip]. unfold Text.is_space, Text.space_length. by rewrite Ha.
  - by rewrite str_app_cons, !rstrip_unfold, IH.
Qed.

Lemma space_length_app_lf s rest :
  s ≠ "" → Text.space_length s = 0 →
  Text.space_length (s +:+ String Text.lf rest) = 0.
Proof.
  intros Hne. destruct s as [|a [|b [|c s]]]; [done|..];
    rewrite ?str_app_cons; change ("" +:+ String Text.lf rest) with (String Text.lf rest);
    cbn.
  - destruct (Text.ascii_space a); [done|]. intros _.
    unfold Text.two_byte_space. cbn. rewrite andb_false_r.
    destruct rest as [|c rest]; [done|].
    unfold Text.three_byte_space. cbn. by rewrite !andb_false_r.
  - destruct (Text.ascii_space a); [done|].
    destruct (Text.two_byte_space a b); [done|]. intros _.
    unfold Text.three_byte_space. cbn. by rewrite !andb_false_r.
  - done.
Qed.

Lemma strip_url_line url :
  url ≠ "" → Text.space_length url = 0 → Text.rstrip url = url →
  Text.strip (url +:+ String Text.lf "") = url.
Proof.
  intros Hne Hl Hr. unfold Text.strip.
  rewrite lstrip_fixed by (by apply space_length_app_lf).
  by rewrite rstrip_app_space.
Qed.

Lemma space_length_hash s : Text.space_length (String Text.hash s) = 0.
Proof. by destruct s as [|b [|c s]]. Qed.

Lemma strip_comment_line s :
  Str.startswith_char Text.hash (Text.strip (String Text.hash s)) = true.
Proof.
  unfold Text.strip. rewrite lstrip_fixed by apply space_length_hash.
  rewrite rstrip_unfold. unfold Text.is_space. by rewrite space_length_hash.
Qed.

(** X21. A file that holds a URL, a blank line and a comment gives the
    URL and nothing else.  The URL is any text that is not empty, has no
    white space at either end, no line break, and does not start with
    [#]; the comment is any text without a line break. *)
Theorem config_url_blank_comment url comment :
  url ≠ "" →
  Text.space_length url = 0 →
  Text.rstrip url = url →
  Str.startswith_char Text.hash url = false →
  Str.count Text.lf url = 0 → Str.count Text.cr url = 0 →
  Str.count Text.lf comment = 0 → Str.count Text.cr comment = 0 →
  config_urls (url +:+ Str.nl +:+ Str.nl +:+ "#" +:+ comment +:+ Str.nl) = [url].
Proof.
  intros Hne Hl Hr Hhash Hlf Hcr Hclf Hccr.
  change (Str.nl +:+ Str.nl +:+ "#" +:+ comment +:+ Str.nl)
    with (String Text.lf ("" +:+ String Text.lf (String Text.hash comment +:+ String Text.lf ""))).
  rewrite config_urls_cons by done.
  rewrite (strip_url_line url Hne Hl Hr), Hhash.
  destruct (String.eqb_spec url "") as [|_]; [done|].
  rewrite config_urls_cons by done.
  rewrite config_urls_cons by (cbn; by rewrite ?Hclf, ?Hccr).
  rewrite str_app_cons, strip_comment_line, andb_false_r. done.
Qed.

Lemma config_url_blank_comment_witness :
  config_urls example_config = ["https://example.com/owner/repo.git"].
Proof.
  apply (config_url_blank_comment "https://example.com/owner/repo.git" " comment");
    try reflexivity.
  discriminate.
Defined.

(** ** The loop over the URLs *)





(** ** The path of the configuration file *)

(** X23. Where the configuration file is looked for.  An absolute
    argument is taken as it is, and the fallback to the working directory
    looks at the same path again: the result is the argument when it
    exists and nothing otherwise.  A relative argument found next to the
    program is taken from there, whatever the working directory holds;
    otherwise the working directory decides.  Whatever is returned
    exists. *)
Theorem config_path_lookup script_dir cwd config_file path_exists :
  (Str.startswith_char Str.slash config_file = true →
   config_path script_dir cwd config_file path_exists
   = if path_exists config_file then Some config_file else None)
  ∧ (Str.startswith_char Str.slash config_file = false →
     config_path script_dir cwd config_file path_exists
     = if path_exists (OsPath.join script_dir config_file)
       then Some (OsPath.join script_dir config_file)
       else if path_exists (OsPath.join cwd config_file)
            then Some (OsPath.join cwd config_file)
            else None)
  ∧ (∀ p, config_path script_dir cwd config_file path_exists = Some p →
          path_exists p = true).
Proof.
  unfold config_path. split; [|split].
  - intros Habs. rewrite Habs. unfold OsPath.join. rewrite Habs.
    by destruct (path_exists config_file).
  - intros Hrel. by rewrite Hrel.
  - intros p.
    destruct (path_exists (if Str.startswith_char Str.slash config_file
                           then config_file else OsPath.join script_dir config_file))
      eqn:E1; [by intros [= <-]|].
    destruct (path_exists (OsPath.join cwd config_file)) eqn:E2; [by intros [= <-]|done].
Qed.

Lemma config_path_lookup_witness :
  config_path "/opt/tool" "/home/u" "/etc/target.ini"
    (fun p => String.eqb p "/home/u/target.ini")
  = None
  ∧ config_path "/opt/tool" "/home/u" "target.ini"
      (fun p => String.eqb p "/home/u/target.ini")
    = Some "/home/u/target.ini"
  ∧ (fun p => String.eqb p "/home/u/target.ini") "/home/u/target.ini" = true.
Proof.
  split; [|split].
  - apply (proj1 (config_path_lookup "/opt/tool" "/home/u" "/etc/target.ini"
                    (fun p => String.eqb p "/home/u/target.ini"))).
    reflexivity.
  - apply (proj1 (proj2 (config_path_lookup "/opt/tool" "/home/u" "target.ini"
                           (fun p => String.eqb p "/home/u/target.ini")))).
    reflexivity.
  - apply (proj2 (proj2 (config_path_lookup "/opt/tool" "/home/u" "target.ini"
                           (fun p => String.eqb p "/home/u/target.ini")))
             "/home/u/target.ini").
    reflexivity.
Defined.

(** ** Output names that cannot collide *)

Lemma safe_name_cons a p :
  safe_name (String a p)
  = String (if Ascii.eqb (if Ascii.eqb a Str.slash then Str.underscore else a)
                         Str.backslash
            then Str.underscore
            else if Ascii.eqb a Str.slash then Str.underscore else a)
           (safe_name p).
Proof. reflexivity. Qed.

(** Flattening is one-to-one on the paths that have no underscore and no
    backslash. *)
Lemma safe_name_inj p : ∀ q,
  Str.count Str.underscore p = 0 → Str.count Str.backslash p = 0 →
  Str.count Str.underscore q = 0 → Str.count Str.backslash q = 0 →
  safe_name p = safe_name q → p = q.
Proof.
  induction p as [|a p IH]; intros [|b q]; try done.
  cbn [Str.count]. intros Hpu Hpb Hqu Hqb. rewrite !safe_name_cons.
  destruct (Ascii.eqb_spec a Str.underscore) as [|Hau]; [lia|].
  destruct (Ascii.eqb_spec a Str.backslash) as [|Hab]; [lia|].
  destruct (Ascii.eqb_spec b Str.underscore) as [|Hbu]; [lia|].
  destruct (Ascii.eqb_spec b Str.backslash) as [|Hbb]; [lia|].
  intros [= Hc Hs]. f_equal; [|by apply IH].
  destruct (Ascii.eqb_spec a Str.slash) as [->|Has];
    destruct (Ascii.eqb_spec b Str.slash) as [->|Hbs]; cbn in Hc; try done.
  - destruct (Ascii.eqb_spec b Str.backslash); congruence.
  - destruct (Ascii.eqb_spec a Str.backslash); congruence.
  - destruct (Ascii.eqb_spec a Str.backslash); [done|].
    destruct (Ascii.eqb_spec b Str.backslash); [done|]. done.
Qed.

(** X24. Output names collide only through an underscore or a backslash
    in a path.  In a tree whose entries have distinct, slash-free,
    non-empty names, when no processed path contains an underscore or a
    backslash, no output file is written twice: after the run the output
    file of every processed path holds the header of that path and the
    content of that very file. *)
Theorem outputs_without_collision env repo_dir tree output_dir max_size_mb w :
  wf_tree tree = true →
  (∀ p, p ∈ processed_files
              (extract_code_files env repo_dir tree output_dir max_size_mb w) →
        Str.count Str.underscore p = 0 ∧ Str.count Str.backslash p = 0) →
  ∀ p, p ∈ processed_files
             (extract_code_files env repo_dir tree output_dir max_size_mb w) →
       ∃ root rel f content k,
         (root, rel, f) ∈ walk_files repo_dir tree
         ∧ p = rel_path_of rel (f_name f)
         ∧ f_bytes f = Some content
         ∧ fs_files (x_world
                       (extract_code_files env repo_dir tree output_dir max_size_mb w))
             !! OsPath.join output_dir (safe_name p)
           = Some (header p (now env k) +:+ content).
Proof.
  intros Hwf Hclean p Hp.
  destruct (Hclean p Hp) as [Hpu Hpb].
  apply elem_of_processed_extract in Hp as ([[root rel] f] & content & Hv & Hd & ->).
  pose proof Hd as Hd'. unfold visit_decision in Hd'. cbn [fst snd] in Hd'.
  apply decide_processed_inv in Hd' as (_ & _ & _ & _ & file_size & _ & _ & Hbytes & _).
  apply list_elem_of_split in Hv as (before & after & Hwalk).
  pose proof (NoDup_walk_paths repo_dir tree Hwf) as Hnd.
  rewrite Hwalk, map_app in Hnd. cbn [map] in Hnd.
  apply NoDup_app in Hnd as (_ & _ & Hnd). apply NoDup_cons in Hnd as [Hfresh _].
  exists root, rel, f, content. eexists. split; [|split; [done|split; [done|]]].
  { rewrite Hwalk. apply elem_of_app. right. by left. }
  rewrite extract_code_files_fold, Hwalk, fold_left_app. cbn [fold_left].
  rewrite files_fold_other.
  - by apply files_visit_processed.
  - intros v' content' Hv' Hd'' Hsame.
    destruct (Hclean (visit_path v')) as [Hvu Hvb].
    { apply elem_of_processed_extract. exists v', content'.
      split; [|done]. rewrite Hwalk. apply elem_of_app. right. by right. }
    apply Hfresh. rewrite (safe_name_inj _ _ Hpu Hpb Hvu Hvb (eq_sym Hsame)).
    apply list_elem_of_fmap. by exists v'.
  - by apply (decide_processed_valid env output_dir (max_size_mb * 1024 * 1024)
                root rel f content).
Qed.

Lemma outputs_without_collision_witness :
  ∃ root rel f content k,
    (root, rel, f) ∈ walk_files "/tmp/ws" tree_abc
    ∧ "a/b/c.py" = rel_path_of rel (f_name f)
    ∧ f_bytes f = Some content
    ∧ fs_files (x_world (extract_code_files sample_env "/tmp/ws" tree_abc
                           "/out/code_files" 15 empty_world))
        !! OsPath.join "/out/code_files" (safe_name "a/b/c.py")
      = Some (header "a/b/c.py" (now sample_env k) +:+ content).
Proof.
  apply (outputs_without_collision sample_env "/tmp/ws" tree_abc "/out/code_files" 15
           empty_world).
  - reflexivity.
  - intros p Hp.
    assert (p = "a/b/c.py") as ->.
    { vm_compute in Hp. by apply list_elem_of_singleton in Hp. }
    split; reflexivity.
  - vm_compute. left.
Defined.

(** ** The summary's recount, in general *)

Lemma count_if_app {A} (p : A → bool) l k :
  count_if p (l ++ k) = (count_if p l + count_if p k)%Z.
Proof.
  induction l as [|a l IH]; [done|]. cbn [app]. rewrite !count_if_cons, IH. lia.
Qed.

Lemma count_if_singleton {A} (p : A → bool) x :
  count_if p [x] = if p x then 1%Z else 0%Z.
Proof. rewrite count_if_cons. destruct (p x); done. Qed.

(** The records of one visit that the summary counts as skipped by
    extension: those of size 0, whatever branch appended them. *)
Lemma zero_size_of_visit env output_dir max_size_bytes root rel f rel_path :
  (0 <= max_size_bytes)%Z →
  count_if (fun r : string * Z => (r.2 =? 0)%Z)
           (skipped_of rel_path (decide_file env output_dir max_size_bytes root rel f))
  = ((if is_git (decide_file env output_dir max_size_bytes root rel f) then 1 else 0)
     + (if is_extension (decide_file env output_dir max_size_bytes root rel f) then 1 else 0)
     + (if is_size_error (decide_file env output_dir max_size_bytes root rel f) then 1 else 0)
     + (if is_empty_decode_failure (decide_file env output_dir max_size_bytes root rel f)
        then 1 else 0))%Z.
Proof.
  intros Hpos. unfold decide_file.
  destruct (has_component ".git" _); [done|].
  destruct (is_git_related _ _); [done|].
  destruct (has_component ".github" _); [done|].
  destruct (bool_decide _); [done|].
  destruct (st_size f) as [file_size|]; [|done].
  destruct (Z.gtb_spec file_size max_size_bytes) as [Hgt|Hle].
  - cbn [skipped_of is_git is_extension is_size_error is_empty_decode_failure].
    rewrite count_if_singleton. cbn [snd].
    destruct (Z.eqb_spec file_size 0); [lia|done].
  - destruct (f_bytes f) as [content|]; [|done].
    destruct (Str.utf8_valid content); [by case_branches|].
    cbn [skipped_of is_git is_extension is_size_error].
    rewrite count_if_singleton. cbn [snd].
    by destruct file_size.
Qed.

Lemma zero_size_of_visits env output_dir max_size_bytes vs :
  (0 <= max_size_bytes)%Z →
  count_if (fun r : string * Z => (r.2 =? 0)%Z)
           (flat_map (fun v => skipped_of (visit_path v)
                                 (visit_decision env output_dir max_size_bytes v)) vs)
  = (count_if is_git (map (visit_decision env output_dir max_size_bytes) vs)
     + count_if is_extension (map (visit_decision env output_dir max_size_bytes) vs)
     + count_if is_size_error (map (visit_decision env output_dir max_size_bytes) vs)
     + count_if is_empty_decode_failure (map (visit_decision env output_dir max_size_bytes) vs))%Z.
Proof.
  intros Hpos. induction vs as [|[[root rel] f] vs IH]; [done|].
  cbn [flat_map map]. rewrite count_if_app, !count_if_cons, IH.
  change (visit_decision env output_dir max_size_bytes (root, rel, f))
    with (decide_file env output_dir max_size_bytes root rel f).
  rewrite (zero_size_of_visit env output_dir max_size_bytes root rel f _ Hpos).
  destruct (decide_file env output_dir max_size_bytes root rel f); cbn; lia.
Qed.

(** X25. What the summary prints in general, for a limit that is not
    negative.  Its extension count is the number of size-0 records: the
    files skipped by extension, and also every git-related record, every
    record of a file whose size could not be read, and every decode
    failure of a file of size 0.  Its last count is the extraction's
    decode-failure counter less the git-related count and less the decode
    failures of size 0.  The git count is the one returned. *)
Theorem summary_breakdown_recount env repo_dir tree output_dir max_size_mb w :
  (0 <= max_size_mb)%Z →
  b_git (summary_breakdown
           (skipped_files (extract_code_files env repo_dir tree output_dir max_size_mb w))
           (skipped_git_files
              (extract_code_files env repo_dir tree output_dir max_size_mb w))
           max_size_mb)
  = skipped_git_files (extract_code_files env repo_dir tree output_dir max_size_mb w)
  ∧ b_extension
      (summary_breakdown
         (skipped_files (extract_code_files env repo_dir tree output_dir max_size_mb w))
         (skipped_git_files
            (extract_code_files env repo_dir tree output_dir max_size_mb w))
         max_size_mb)
    = (skipped_by_extension
         (extract_code_files env repo_dir tree output_dir max_size_mb w)
       + skipped_git_files
           (extract_code_files env repo_dir tree output_dir max_size_mb w)
       + count_if is_size_error (run_decisions env repo_dir tree output_dir max_size_mb)
       + count_if is_empty_decode_failure
           (run_decisions env repo_dir tree output_dir max_size_mb))%Z
  ∧ b_others
      (summary_breakdown
         (skipped_files (extract_code_files env repo_dir tree output_dir max_size_mb w))
         (skipped_git_files
            (extract_code_files env repo_dir tree output_dir max_size_mb w))
         max_size_mb)
    = (skipped_by_decode_error
         (extract_code_files env repo_dir tree output_dir max_size_mb w)
       - skipped_git_files
           (extract_code_files env repo_dir tree output_dir max_size_mb w)
       - count_if is_empty_decode_failure
           (run_decisions env repo_dir tree output_dir max_size_mb))%Z.
Proof.
  intros Hpos.
  assert (0 <= max_size_mb * 1024 * 1024)%Z as Hlim by lia.
  pose proof (zero_size_of_visits env output_dir (max_size_mb * 1024 * 1024)
                (walk_files repo_dir tree) Hlim) as Hzero.
  pose proof (large_files_extract env repo_dir tree output_dir max_size_mb w Hpos)
    as Hlarge.
  pose proof (length_large_visits env output_dir (max_size_mb * 1024 * 1024) (walk_files repo_dir tree))
    as Hlen.
  pose proof (accounting_lists env output_dir (max_size_mb * 1024 * 1024) (walk_files repo_dir tree))
    as [_ Hsum].
  rewrite <- Hlarge in Hlen.
  rewrite <- (skipped_extract env repo_dir tree output_dir max_size_mb w) in Hzero, Hsum.
  destruct (counters_extract env repo_dir tree output_dir max_size_mb w)
    as (Hg & He & Hs & Hd).
  unfold run_decisions, summary_breakdown. cbn [b_git b_extension b_others].
  change (count_if (fun r : string * Z => (r.2 >? max_size_mb * 1024 * 1024)%Z) ?s)
    with (Z.of_nat (length (large_files s max_size_mb))).
  split; [done|]. split; lia.
Qed.

Lemma summary_breakdown_recount_witness :
  b_git (summary_breakdown
           (skipped_files (extract_code_files sample_env "/tmp/ws" tree1
                             "/out/code_files" 15 empty_world))
           (skipped_git_files (extract_code_files sample_env "/tmp/ws" tree1
                                 "/out/code_files" 15 empty_world))
           15)
  = skipped_git_files (extract_code_files sample_env "/tmp/ws" tree1
                         "/out/code_files" 15 empty_world)
  ∧ b_extension
      (summary_breakdown
         (skipped_files (extract_code_files sample_env "/tmp/ws" tree1
                           "/out/code_files" 15 empty_world))
         (skipped_git_files (extract_code_files sample_env "/tmp/ws" tree1
                               "/out/code_files" 15 empty_world))
         15)
    = (skipped_by_extension (extract_code_files sample_env "/tmp/ws" tree1
                               "/out/code_files" 15 empty_world)
       + skipped_git_files (extract_code_files sample_env "/tmp/ws" tree1
                              "/out/code_files" 15 empty_world)
       + count_if is_size_error (run_decisions sample_env "/tmp/ws" tree1 "/out/code_files" 15)
       + count_if is_empty_decode_failure (run_decisions sample_env "/tmp/ws" tree1 "/out/code_files" 15))%Z
  ∧ b_others
      (summary_breakdown
         (skipped_files (extract_code_files sample_env "/tmp/ws" tree1
                           "/out/code_files" 15 empty_world))
         (skipped_git_files (extract_code_files sample_env "/tmp/ws" tree1
                               "/out/code_files" 15 empty_world))
         15)
    = (skipped_by_decode_error (extract_code_files sample_env "/tmp/ws" tree1
                                  "/out/code_files" 15 empty_world)
       - skipped_git_files (extract_code_files sample_env "/tmp/ws" tree1
                              "/out/code_files" 15 empty_world)
       - count_if is_empty_decode_failure (run_decisions sample_env "/tmp/ws" tree1 "/out/code_files" 15))%Z.
Proof.
  apply (summary_breakdown_recount sample_env "/tmp/ws" tree1 "/out/code_files" 15
           empty_world).
  lia.
Defined.

(** ** A workspace below a [.git] or [.github] directory *)

Lemma all_ignored_nothing_recorded env output_dir max_size_bytes vs :
  (∀ v, v ∈ vs → visit_decision env output_dir max_size_bytes v = Ignored) →
  flat_map (fun v => processed_of (visit_path v) (visit_decision env output_dir max_size_bytes v)) vs
  = []
  ∧ flat_map (fun v => skipped_of (visit_path v) (visit_decision env output_dir max_size_bytes v)) vs
    = [].
Proof.
  induction vs as [|v vs IH]; intros H; [done|]. cbn [flat_map].
  rewrite (H v) by (by left). cbn.
  apply IH. intros v' Hv'. apply H. by right.
Qed.

(** X26. The [.git] and [.github] tests look at the whole path of a
    file, the path of the workspace included.  In a tree whose entries
    have distinct, slash-free, non-empty names: when the workspace
    directory itself has a component [.git], every file is passed over,
    both lists are empty and nothing is written; when it has a component
    [.github], no file is processed: each is passed over or recorded as
    git-related. *)
Theorem workspace_below_git_directory env repo_dir tree output_dir max_size_mb w :
  wf_tree tree = true →
  (".git" ∈ Str.split Str.slash repo_dir →
   processed_files (extract_code_files env repo_dir tree output_dir max_size_mb w) = []
   ∧ skipped_files (extract_code_files env repo_dir tree output_dir max_size_mb w) = []
   ∧ fs_files (x_world (extract_code_files env repo_dir tree output_dir max_size_mb w))
     = fs_files w)
  ∧ (".github" ∈ Str.split Str.slash repo_dir →
     processed_files (extract_code_files env repo_dir tree output_dir max_size_mb w)
     = []).
Proof.
  intros Hwf. split.
  - intros Hgit.
    assert (∀ v, v ∈ walk_files repo_dir tree →
                 visit_decision env output_dir (max_size_mb * 1024 * 1024) v = Ignored) as Hall.
    { intros [[root rel] f] Hv. unfold visit_decision, decide_file. cbn [fst snd].
      assert (has_component ".git" (OsPath.join root (f_name f)) = true) as ->; [|done].
      apply (has_component_walk ".git" repo_dir tree root rel f Hwf); [done|done| |].
      - by apply (walk_file_name_ok repo_dir tree root rel f).
      - by left. }
    destruct (all_ignored_nothing_recorded env output_dir (max_size_mb * 1024 * 1024)
                (walk_files repo_dir tree) Hall) as [Hp Hs].
    rewrite processed_extract, skipped_extract, Hp, Hs.
    split; [done|]. split; [done|].
    apply map_eq. intros k.
    pose proof (world_fold env output_dir (max_size_mb * 1024 * 1024)
                  (walk_files repo_dir tree) (initial_state (makedirs output_dir w)))
      as (_ & _ & Hframe & _).
    rewrite extract_code_files_fold, Hframe; [done|].
    intros v Hv Hd. by rewrite (Hall v Hv) in Hd.
  - intros Hhub. rewrite processed_extract.
    assert (∀ v, v ∈ walk_files repo_dir tree →
                 processed_of (visit_path v)
                   (visit_decision env output_dir (max_size_mb * 1024 * 1024) v) = []) as Hall.
    { intros [[root rel] f] Hv. unfold visit_decision, decide_file. cbn [fst snd].
      assert (has_component ".github" (OsPath.join root (f_name f)) = true) as ->.
      { apply (has_component_walk ".github" repo_dir tree root rel f Hwf); [done|done| |].
        - by apply (walk_file_name_ok repo_dir tree root rel f).
        - by left. }
      destruct (has_component ".git" _); [done|].
      by destruct (is_git_related _ _). }
    induction (walk_files repo_dir tree) as [|v vs IH]; [done|].
    cbn [flat_map]. rewrite (Hall v) by (by left).
    apply IH. intros v' Hv'. apply Hall. by right.
Qed.

Lemma workspace_below_git_directory_witness :
  (processed_files (extract_code_files sample_env "/srv/.git/ws" tree_abc
                      "/out/code_files" 15 empty_world) = []
   ∧ skipped_files (extract_code_files sample_env "/srv/.git/ws" tree_abc
                      "/out/code_files" 15 empty_world) = []
   ∧ fs_files (x_world (extract_code_files sample_env "/srv/.git/ws" tree_abc
                          "/out/code_files" 15 empty_world))
     = fs_files empty_world)
  ∧ processed_files (extract_code_files sample_env "/srv/.github/ws" tree_abc
                       "/out/code_files" 15 empty_world) = [].
Proof.
  split.
  - apply (proj1 (workspace_below_git_directory sample_env "/srv/.git/ws" tree_abc
                    "/out/code_files" 15 empty_world eq_refl)).
    by_evaluation (".git" ∈ Str.split Str.slash "/srv/.git/ws").
  - apply (proj2 (workspace_below_git_directory sample_env "/srv/.github/ws" tree_abc
                    "/out/code_files" 15 empty_world eq_refl)).
    by_evaluation (".github" ∈ Str.split Str.slash "/srv/.github/ws").
Defined.

(** ** Clone attempts that raise *)

Lemma attempt_agree env env' s repo_url target_dir :
  (subprocess_run env s repo_url target_dir = Some 0%Z
   ↔ subprocess_run env' s repo_url target_dir = Some 0%Z) →
  attempt env s repo_url target_dir = attempt env' s repo_url target_dir.
Proof.
  unfold attempt. intros [H1 H2].
  destruct (subprocess_run env s repo_url target_dir) as [[| |]|] eqn:E;
    destruct (subprocess_run env' s repo_url target_dir) as [[| |]|] eqn:E';
    try done; try (by specialize (H1 eq_refl)); by specialize (H2 eq_refl).
Qed.

Lemma existsb_agree {A} (f g : A → bool) l :
  (∀ x, x ∈ l → f x = g x) → existsb f l = existsb g l.
Proof.
  induction l as [|a l IH]; intros H; [done|]. cbn.
  rewrite (H a) by (by left). f_equal. apply IH. intros x Hx. apply H. by right.
Qed.

(** X27. [clone_repository] looks at one thing in each attempt: whether
    it returned with code 0.  An attempt that raises (a timeout, a
    missing program) counts as one that returns a non-zero code: two
    environments whose attempts return 0 in the same cases give the same
    result. *)
Theorem clone_result_by_zero_codes env env' repo_url target_dir :
  (∀ s, subprocess_run env s repo_url target_dir = Some 0%Z
        ↔ subprocess_run env' s repo_url target_dir = Some 0%Z) →
  clone_repository env repo_url target_dir = clone_repository env' repo_url target_dir.
Proof.
  intros H. unfold clone_repository.
  rewrite (existsb_agree
             (fun git_path => attempt env (GitExe git_path) repo_url target_dir)
             (fun git_path => attempt env' (GitExe git_path) repo_url target_dir)).
  - by rewrite (attempt_agree env env' Wsl repo_url target_dir (H Wsl)).
  - intros git_path _. apply attempt_agree, H.
Qed.

Lemma clone_result_by_zero_codes_witness :
  clone_repository raising_env "https://github.com/o/repo.git" "/tmp/tmpabc"
  = clone_repository sample_env "https://github.com/o/repo.git" "/tmp/tmpabc"
  ∧ clone_repository sample_env "https://github.com/o/repo.git" "/tmp/tmpabc" = false.
Proof.
  split; [|reflexivity].
  apply (clone_result_by_zero_codes raising_env sample_env
           "https://github.com/o/repo.git" "/tmp/tmpabc").
  intros s. split; discriminate.
Defined.

(** ** Output that cannot be written *)

Lemma decide_write_block env output_dir max_size_bytes root rel f file_size content :
  has_component ".git" (OsPath.join root (f_name f)) = false →
  is_git_related (f_name f) (rel_path_of rel (f_name f)) = false →
  has_component ".github" (OsPath.join root (f_name f)) = false →
  file_extension (f_name f) ∉ binary_extensions →
  st_size f = Some file_size →
  (file_size <= max_size_bytes)%Z →
  f_bytes f = Some content →
  Str.utf8_valid content = true →
  decide_file env output_dir max_size_bytes root rel f
  = if can_open env (OsPath.join output_dir (safe_name (rel_path_of rel (f_name f))))
    then if Str.utf8_valid (rel_path_of rel (f_name f))
         then Processed content else HeaderError
    else OpenError.
Proof.
  intros H1 H2 H3 H4 H5 H6 H7 H8. unfold decide_file.
  rewrite H1, H2, H3, bool_decide_eq_false_2, H5, H7, H8 by done.
  by destruct (Z.gtb_spec file_size max_size_bytes); [lia|].
Qed.

(** X30. A file that passed every test and whose bytes were read and
    decoded, but whose output cannot be written, is only logged.  When
    its output file does not open, the loop body leaves the state as it
    was.  When the output file opens and the relative path cannot be
    encoded, the write of the first header line raises: the loop body
    leaves an empty output file and changes nothing else, the clock
    included.  In both cases, in a tree whose entries have distinct,
    slash-free, non-empty names, the relative path is in neither
    returned list. *)
Theorem unwritable_file_dropped env repo_dir tree output_dir max_size_mb w
    root rel f file_size content :
  wf_tree tree = true →
  (root, rel, f) ∈ walk_files repo_dir tree →
  has_component ".git" (OsPath.join root (f_name f)) = false →
  is_git_related (f_name f) (rel_path_of rel (f_name f)) = false →
  has_component ".github" (OsPath.join root (f_name f)) = false →
  file_extension (f_name f) ∉ binary_extensions →
  st_size f = Some file_size →
  (file_size <= max_size_mb * 1024 * 1024)%Z →
  f_bytes f = Some content →
  Str.utf8_valid content = true →
  (can_open env (OsPath.join output_dir (safe_name (rel_path_of rel (f_name f))))
   = false →
   ∀ st, extract_file env output_dir (max_size_mb * 1024 * 1024) root rel f st = st)
  ∧ (can_open env (OsPath.join output_dir (safe_name (rel_path_of rel (f_name f))))
     = true →
     Str.utf8_valid (rel_path_of rel (f_name f)) = false →
     ∀ st,
       extract_file env output_dir (max_size_mb * 1024 * 1024) root rel f st
       = mk_state (skipped_files st) (processed_files st)
           (skipped_by_extension st) (skipped_by_size st)
           (skipped_by_decode_error st) (skipped_git_files st)
           (mk_world (fs_dirs (x_world st))
              (<[OsPath.join output_dir (safe_name (rel_path_of rel (f_name f))) := ""]>
                 (fs_files (x_world st)))
              (clock (x_world st))))
  ∧ (can_open env (OsPath.join output_dir (safe_name (rel_path_of rel (f_name f))))
     = false
     ∨ Str.utf8_valid (rel_path_of rel (f_name f)) = false →
     rel_path_of rel (f_name f)
     ∉ processed_files
         (extract_code_files env repo_dir tree output_dir max_size_mb w)
       ++ map fst (skipped_files
                     (extract_code_files env repo_dir tree output_dir max_size_mb w))).
Proof.
  intros Hwf Hv H1 H2 H3 H4 H5 H6 H7 H8.
  pose proof (decide_write_block env output_dir (max_size_mb * 1024 * 1024) root rel f
                file_size content H1 H2 H3 H4 H5 H6 H7 H8) as Hd.
  split; [|split].
  - intros Hopen st. by rewrite extract_file_perform, Hd, Hopen.
  - intros Hopen Hpath st. by rewrite extract_file_perform, Hd, Hopen, Hpath.
  - intros Hfail.
    apply (unrecorded_absent env repo_dir tree output_dir max_size_mb w (root, rel, f));
      [done|done|].
    unfold visit_decision. cbn [fst snd]. rewrite Hd.
    destruct Hfail as [->| ->]; [done|]. by destruct (can_open env _).
Qed.

Lemma unwritable_file_dropped_witness :
  (∀ st, extract_file denied_env "/out/code_files" (15 * 1024 * 1024)
           "/tmp/ws" [] denied_txt st = st)
  ∧ ("denied.txt"
     ∉ processed_files (extract_code_files denied_env "/tmp/ws" tree_errors
                          "/out/code_files" 15 empty_world)
       ++ map fst (skipped_files (extract_code_files denied_env "/tmp/ws" tree_errors
                                    "/out/code_files" 15 empty_world)))
  ∧ (∀ st, x_world (extract_file denied_env "/out/code_files" (15 * 1024 * 1024)
                      "/tmp/ws" [] cafe_txt st)
           = mk_world (fs_dirs (x_world st))
               (<["/out/code_files/caf" +:+ String "233"%char ".txt" := ""]>
                  (fs_files (x_world st)))
               (clock (x_world st))).
Proof.
  assert (wf_tree tree_errors = true) as Hwf by reflexivity.
  assert (("/tmp/ws", [], cafe_txt) ∈ walk_files "/tmp/ws" tree_errors) as Hv'.
  { vm_compute. right. right. right. left. }
  assert (file_extension (f_name cafe_txt) ∉ binary_extensions) as Hext'.
  { refuted_by_evaluation (file_extension (f_name cafe_txt) ∈ binary_extensions). }
  assert (("/tmp/ws", [], denied_txt) ∈ walk_files "/tmp/ws" tree_errors) as Hv.
  { vm_compute. right. right. left. }
  assert (file_extension (f_name denied_txt) ∉ binary_extensions) as Hext.
  { refuted_by_evaluation (file_extension (f_name denied_txt) ∈ binary_extensions). }
  split; [|split].
  - apply (proj1 (unwritable_file_dropped denied_env "/tmp/ws" tree_errors
                    "/out/code_files" 15 empty_world "/tmp/ws" [] denied_txt 4 "text"
                    Hwf Hv eq_refl eq_refl eq_refl Hext eq_refl ltac:(lia) eq_refl
                    eq_refl)).
    reflexivity.
  - apply (proj2 (proj2 (unwritable_file_dropped denied_env "/tmp/ws" tree_errors
                    "/out/code_files" 15 empty_world "/tmp/ws" [] denied_txt 4 "text"
                    Hwf Hv eq_refl eq_refl eq_refl Hext eq_refl ltac:(lia) eq_refl
                    eq_refl))).
    left. reflexivity.
  - intros st.
    rewrite (proj1 (proj2 (unwritable_file_dropped denied_env "/tmp/ws" tree_errors
                    "/out/code_files" 15 empty_world "/tmp/ws" [] cafe_txt 4 "text"
                    Hwf Hv' eq_refl eq_refl eq_refl Hext' eq_refl ltac:(lia) eq_refl
                    eq_refl)) eq_refl eq_refl st).
    reflexivity.
Defined.
